(** * CodeCondenser: exclusion engine, tree collector and chunk splitter

    A shallow embedding of the core of [code-condenser.py]:
    - [ProcessWorker._load_gitignore], [ProcessWorker._is_excluded_by_gitignore]
      and the traversal and rendering loops of [ProcessWorker.run];
    - [ProcessWorker._is_excluded] and [ProcessWorker.estimate_total_files];
    - [CodeBaseAnalyzer.split_content_smart];
    - [CodeBaseAnalyzer._parse_exclusions] and [CodeBaseAnalyzer.handle_results].

    Python [str] values are sequences of Unicode code points, so text is
    modelled as [list N].  Python [int] is modelled as [Z]. *)

From Stdlib Require Import String Ascii.
From Stdlib Require Import List NArith ZArith Bool Lia Permutation Sorted.
From Stdlib Require DecimalString DecimalZ.
Import ListNotations.

Set Implicit Arguments.

(** ** Python strings *)

Module PyStr.

Abbreviation char := N (only parsing).
Abbreviation str := (list N) (only parsing).

(** An ASCII literal of the source as a [str]. *)
Definition lit (s : string) : str := map N_of_ascii (list_ascii_of_string s).

Definition LF : char := 10%N.
Definition CR : char := 13%N.
Definition SLASH : char := 47%N.

Definition char_eqb (a b : char) : bool := N.eqb a b.
Arguments char_eqb : simpl never.

Fixpoint str_eqb (a b : str) : bool :=
  match a, b with
  | [], [] => true
  | x :: a', y :: b' => char_eqb x y && str_eqb a' b'
  | _, _ => false
  end.

(** [s.startswith(p)] *)
Fixpoint startswith (s p : str) {struct p} : bool :=
  match p with
  | [] => true
  | y :: p' =>
      match s with
      | [] => false
      | x :: s' => char_eqb x y && startswith s' p'
      end
  end.

Arguments startswith : simpl never.

(** [s.endswith(c)] for a one-character suffix. *)
Fixpoint endswith_char (s : str) (c : char) : bool :=
  match s with
  | [] => false
  | [x] => char_eqb x c
  | _ :: s' => endswith_char s' c
  end.

(** [sep.join(xs)] *)
Fixpoint join (sep : str) (xs : list str) : str :=
  match xs with
  | [] => []
  | [x] => x
  | x :: xs' => x ++ sep ++ join sep xs'
  end.

(** [s * n] *)
Fixpoint repeat_str (s : str) (n : nat) : str :=
  match n with
  | O => []
  | S n' => s ++ repeat_str s n'
  end.

(** [s.count(c)] for a one-character needle. *)
Definition count_char (c : char) (s : str) : nat :=
  length (filter (char_eqb c) s).

(** [c in s] for a one-character needle. *)
Definition contains_char (c : char) (s : str) : bool :=
  existsb (char_eqb c) s.

(** The line boundaries of [str.splitlines]: LF, VT, FF, CR, FS, GS, RS,
    NEL, LINE SEPARATOR and PARAGRAPH SEPARATOR (CR LF counts as one). *)
Definition is_linebreak (c : char) : bool :=
  (N.leb 10 c && N.leb c 13) || (N.leb 28 c && N.leb c 30)
  || N.eqb c 133 || N.eqb c 8232 || N.eqb c 8233.

(** [s.splitlines(keepends=True)] *)
Fixpoint splitlines (s : str) : list str :=
  match s with
  | [] => []
  | c :: s' =>
      if is_linebreak c then
        match s' with
        | d :: s'' =>
            if char_eqb c CR && char_eqb d LF
            then [c; d] :: splitlines s''
            else [c] :: splitlines s'
        | [] => [[c]]
        end
      else
        match splitlines s' with
        | [] => [[c]]
        | l :: ls => (c :: l) :: ls
        end
  end.

(** [str.isspace] on one character, as [str.strip()] uses it. *)
Definition is_space (c : char) : bool :=
  (N.leb 9 c && N.leb c 13) || (N.leb 28 c && N.leb c 32)
  || N.eqb c 133 || N.eqb c 160 || N.eqb c 5760
  || (N.leb 8192 c && N.leb c 8202)
  || N.eqb c 8232 || N.eqb c 8233 || N.eqb c 8239 || N.eqb c 8287
  || N.eqb c 12288.

(** [s.lstrip(...)]: drop the leading characters satisfying [p]. *)
Fixpoint lstrip_by (p : char -> bool) (s : str) : str :=
  match s with
  | [] => []
  | c :: s' => if p c then lstrip_by p s' else s
  end.

(** [s.rstrip(...)]: drop the trailing characters satisfying [p]. *)
Fixpoint rstrip_by (p : char -> bool) (s : str) : str :=
  match s with
  | [] => []
  | c :: s' =>
      match rstrip_by p s' with
      | [] => if p c then [] else [c]
      | r => c :: r
      end
  end.

(** [s.strip()] *)
Definition strip (s : str) : str := rstrip_by is_space (lstrip_by is_space s).

(** [s.split(sep)] for a one-character separator: never the empty list. *)
Fixpoint split_char (sep : char) (s : str) : list str :=
  match s with
  | [] => [[]]
  | c :: s' =>
      if char_eqb c sep then [] :: split_char sep s'
      else
        match split_char sep s' with
        | [] => [[c]]
        | w :: ws => (c :: w) :: ws
        end
  end.

(** [s.lower()], restricted to the ASCII letters; other code points are
    left as they are. *)
Definition lower_char (c : char) : char :=
  if N.leb 65 c && N.leb c 90 then (c + 32)%N else c.
Definition lower (s : str) : str := map lower_char s.

(** Python's order on [str]: lexicographic on code points. *)
Fixpoint str_ltb (a b : str) : bool :=
  match a, b with
  | [], [] => false
  | [], _ :: _ => true
  | _ :: _, [] => false
  | x :: a', y :: b' =>
      if N.ltb x y then true
      else if N.ltb y x then false
      else str_ltb a' b'
  end.

End PyStr.

(** ** Python sequences: indexing and slicing *)

Module PySeq.

Definition len {A} (l : list A) : Z := Z.of_nat (length l).

(** The truth value of a sequence: whether it is not empty. *)
Definition nonempty {A} (l : list A) : bool :=
  match l with [] => false | _ :: _ => true end.

(** [l[i]]; [None] stands for [IndexError]. *)
Definition index {A} (l : list A) (i : Z) : option A :=
  let j := if (i <? 0)%Z then (i + len l)%Z else i in
  if (j <? 0)%Z then None else nth_error l (Z.to_nat j).

(** The clamping of one slice bound. *)
Definition clamp (n i : Z) : Z :=
  if (i <? 0)%Z then Z.max 0 (i + n) else Z.min i n.

(** [l[a:b]] *)
Definition slice {A} (l : list A) (a b : Z) : list A :=
  let a' := clamp (len l) a in
  let b' := clamp (len l) b in
  firstn (Z.to_nat (b' - a')) (skipn (Z.to_nat a') l).

(** [range(n)] *)
Definition range (n : Z) : list Z := map Z.of_nat (seq 0 (Z.to_nat n)).

(** Sequencing of computations that may raise. *)
Definition bind {A B} (m : option A) (k : A -> option B) : option B :=
  match m with
  | Some a => k a
  | None => None
  end.

(** A [for] loop whose body may raise. *)
Fixpoint for_each {A S} (body : A -> S -> option S) (xs : list A) (st : S)
  : option S :=
  match xs with
  | [] => Some st
  | x :: xs' => bind (body x st) (for_each body xs')
  end.

End PySeq.

Notation "x <- m ;; k" := (PySeq.bind m (fun x => k))
  (at level 61, m at next level, right associativity).

(** ** The chunk splitter: [CodeBaseAnalyzer.split_content_smart] *)

Module Splitter.
Import PyStr PySeq.
Local Open Scope Z_scope.

Definition file_marker : str := lit ">>>File: ".

(** [[i for i, line in enumerate(lines) if line.startswith(file_marker)]],
    with [i] counting from [k]. *)
Fixpoint marker_positions (k : Z) (lines : list str) : list Z :=
  match lines with
  | [] => []
  | l :: ls =>
      if startswith l file_marker
      then k :: marker_positions (k + 1) ls
      else marker_positions (k + 1) ls
  end.

Definition marker_indices (lines : list str) : list Z :=
  (-1) :: marker_positions 0 lines.

(** The loop state.  [P] is the type of a finished part: the code joins the
    lines of a part into one [str]. *)
Record state (P : Type) := mkState {
  parts : list P;
  current_part_lines : list str;
  current_line_count : Z
}.

Section Loop.
Variable P : Type.
Variable mk : list str -> P.

(** [parts.append("".join(current_part_lines)); current_part_lines = [];
    current_line_count = 0] *)
Definition flush (st : state P) : state P :=
  mkState (parts st ++ [mk (current_part_lines st)]) [] 0.

(** The block of iteration [i]: its lines and its line count. *)
Definition block_at (lines : list str) (mi : list Z) (i : Z)
  : option (list str * Z) :=
  m_i <- index mi i ;;
  let start_index := m_i + 1 in
  start_index <- (if (i =? 0) && (start_index =? 0)
                  then m_0 <- index mi 0 ;;
                       Some (if m_0 =? -1 then 0 else start_index)
                  else Some start_index) ;;
  end_index <- (if i + 1 <? len mi then index mi (i + 1)
                else Some (len lines)) ;;
  let block_lines := slice lines start_index end_index in
  let block_line_count := len block_lines in
  if 0 <? i then
    marker_line <- index lines m_i ;;
    Some (marker_line :: block_lines, block_line_count + 1)
  else Some (block_lines, block_line_count).

(** The packing decision taken on one block. *)
Definition pack (max_lines : Z) (block_lines : list str)
  (block_line_count : Z) (st : state P) : state P :=
  match block_lines with
  | [] => st
  | _ :: _ =>
      if max_lines <? block_line_count then
        let st1 :=
          match current_part_lines st with
          | [] => st
          | _ :: _ => flush st
          end in
        mkState (parts st1 ++ [mk block_lines])
                (current_part_lines st1) (current_line_count st1)
      else
        let st1 :=
          if (0 <? current_line_count st)
             && (max_lines <? current_line_count st + block_line_count)
          then flush st else st in
        mkState (parts st1)
                (current_part_lines st1 ++ block_lines)
                (current_line_count st1 + block_line_count)
  end.

(** The body of [for i in range(len(marker_indices))]. *)
Definition step (lines : list str) (mi : list Z) (max_lines : Z)
  (i : Z) (st : state P) : option (state P) :=
  b <- block_at lines mi i ;;
  Some (pack max_lines (fst b) (snd b) st).

Definition finish (st : state P) : list P :=
  match current_part_lines st with
  | [] => parts st
  | _ :: _ => parts st ++ [mk (current_part_lines st)]
  end.

Definition split_lines (lines : list str) (max_lines : Z) : option (list P) :=
  let mi := marker_indices lines in
  st <- for_each (step lines mi max_lines) (range (len mi))
                 (mkState [] [] 0) ;;
  Some (finish st).

Definition split_with (content : str) (max_lines : Z) : option (list P) :=
  match content with
  | [] => Some []
  | _ :: _ =>
      match splitlines content with
      | [] => Some []
      | lines => split_lines lines max_lines
      end
  end.

End Loop.

(** The function of the source: a part is the join of its lines. *)
Definition split_content_smart (content : str) (max_lines : Z)
  : option (list str) :=
  split_with (@concat char) content max_lines.

(** The same run with each part kept as its list of lines. *)
Definition split_content_lines (content : str) (max_lines : Z)
  : option (list (list str)) :=
  split_with (fun ls => ls) content max_lines.

(** The blocks as the specification words them: the lines before the first
    marker line, then one block per marker line, running up to the line
    before the next marker line. *)
Fixpoint blocks_of (lines : list str) : list (list str) :=
  match lines with
  | [] => [[]]
  | l :: ls =>
      match blocks_of ls with
      | [] => [[l]]
      | b :: bs =>
          if startswith l file_marker
          then [] :: (l :: b) :: bs
          else (l :: b) :: bs
      end
  end.

(** The number of lines of a text. *)
Definition line_count (s : str) : Z := len (splitlines s).

End Splitter.

(** ** Shell-style wildcards: [fnmatch.fnmatchcase] of the Python library *)

Module Fnmatch.
Import PyStr.

(** The documented pattern language: [*] matches any run of characters,
    [?] any single character, [[seq]] any character in [seq] and [[!seq]]
    any character not in [seq]; a character range is written [lo-hi]; an
    opening bracket that is never closed stands for itself.  Matching is
    case-sensitive and covers the whole name. *)
Inductive tok :=
| Star
| AnyChar
| Lit (c : char)
| Class (negated : bool) (items : list (char * char)).

Definition STAR : char := 42%N.
Definition QUESTION : char := 63%N.
Definition LBRACKET : char := 91%N.
Definition RBRACKET : char := 93%N.
Definition BANG : char := 33%N.
Definition DASH : char := 45%N.

(** The members of a bracket expression, as ranges. *)
Fixpoint class_items (body : str) : list (char * char) :=
  match body with
  | [] => []
  | lo :: rest =>
      match rest with
      | d :: hi :: rest' =>
          if char_eqb d DASH then (lo, hi) :: class_items rest'
          else (lo, lo) :: class_items rest
      | _ => (lo, lo) :: class_items rest
      end
  end.

Definition class_of (stuff : str) : tok :=
  match stuff with
  | c :: body =>
      if char_eqb c BANG then Class true (class_items body)
      else Class false (class_items stuff)
  | [] => Class false []
  end.

(** Whether the text after an opening bracket holds its closing bracket: a
    leading [!] and a [\]] right after it belong to the expression. *)
Definition has_close (s : str) : bool :=
  let s1 := match s with
            | c :: r => if char_eqb c BANG then r else s
            | [] => s
            end in
  let s2 := match s1 with
            | c :: r => if char_eqb c RBRACKET then r else s1
            | [] => s1
            end in
  contains_char RBRACKET s2.

(** [cls] is [Some acc] while a bracket expression is being read, [acc]
    holding its characters so far, last first. *)
Fixpoint tokenize (pat : str) (cls : option str) : list tok :=
  match pat with
  | [] => []
  | c :: rest =>
      match cls with
      | Some acc =>
          if char_eqb c RBRACKET
             && negb (str_eqb acc [] || str_eqb acc [BANG])
          then class_of (rev acc) :: tokenize rest None
          else tokenize rest (Some (c :: acc))
      | None =>
          if char_eqb c STAR then Star :: tokenize rest None
          else if char_eqb c QUESTION then AnyChar :: tokenize rest None
          else if char_eqb c LBRACKET then
            if has_close rest then tokenize rest (Some [])
            else Lit c :: tokenize rest None
          else Lit c :: tokenize rest None
      end
  end.

Definition in_range (c : char) (r : char * char) : bool :=
  N.leb (fst r) c && N.leb c (snd r).

Definition tok_matches (t : tok) (c : char) : bool :=
  match t with
  | Star => true
  | AnyChar => true
  | Lit d => char_eqb c d
  | Class negated items =>
      if negated then negb (existsb (in_range c) items)
      else existsb (in_range c) items
  end.

Fixpoint match_toks (ts : list tok) (s : str) : bool :=
  match ts with
  | [] => match s with [] => true | _ :: _ => false end
  | Star :: ts' =>
      (fix star (s : str) : bool :=
         match_toks ts' s
         || match s with
            | [] => false
            | _ :: s' => star s'
            end) s
  | t :: ts' =>
      match s with
      | [] => false
      | c :: s' => tok_matches t c && match_toks ts' s'
      end
  end.

(** [fnmatch.fnmatchcase(name, pat)] *)
Definition fnmatchcase (name pat : str) : bool :=
  match_toks (tokenize pat None) name.

(** A character that stands for itself in a pattern. *)
Definition plain_char (c : char) : bool :=
  negb (char_eqb c STAR || char_eqb c QUESTION || char_eqb c LBRACKET).

End Fnmatch.

(** ** Paths: [os.path] on a POSIX system, where [os.sep] is the slash *)

Module OsPath.
Import PyStr.

Definition DOT : char := 46%N.

(** [os.path.basename(p)]: what follows the last slash. *)
Fixpoint basename (p : str) : str :=
  match p with
  | [] => []
  | c :: p' =>
      if contains_char SLASH p' then basename p'
      else if char_eqb c SLASH then p'
      else p
  end.

(** [os.path.join(a, b)] *)
Definition join (a b : str) : str :=
  if startswith b [SLASH] then b
  else
    match a with
    | [] => b
    | _ :: _ => if endswith_char a SLASH then a ++ b else a ++ [SLASH] ++ b
    end.

(** The text from the last dot on, if any. *)
Fixpoint last_dot_suffix (s : str) : option str :=
  match s with
  | [] => None
  | c :: s' =>
      match last_dot_suffix s' with
      | Some e => Some e
      | None => if char_eqb c DOT then Some s else None
      end
  end.

(** The second component of [os.path.splitext(p)]: the extension starts at
    the last dot of the base name, leading dots of the name not counting. *)
Definition splitext_ext (p : str) : str :=
  match last_dot_suffix (lstrip_by (char_eqb DOT) (basename p)) with
  | Some e => e
  | None => []
  end.

End OsPath.

(** ** The ignore-pattern matcher *)

Module Ignore.
Import PyStr PySeq Fnmatch.

Definition is_slash (c : char) : bool := char_eqb c SLASH.

(** What one turn of the loop over the patterns does. *)
Inductive outcome :=
| Continue
| Return (excluded : bool).

(** The body of [for pattern in self.gitignore_patterns]. *)
Definition check_pattern (path_to_check : str) (is_dir : bool) (pattern : str)
  : outcome :=
  let is_negation := startswith pattern [BANG] in
  let pattern1 := if is_negation then tl pattern else pattern in
  if is_negation && negb (nonempty pattern1) then Continue
  else
    let is_dir_pattern := endswith_char pattern1 SLASH in
    let pattern2 := rstrip_by is_slash pattern1 in
    if negb (nonempty pattern2) then Continue
    else
      let matched :=
        if startswith pattern2 [SLASH] then
          let pattern3 := lstrip_by is_slash pattern2 in
          fnmatchcase path_to_check pattern3
          || (is_dir && startswith path_to_check (pattern3 ++ [SLASH]))
          || (negb is_dir && startswith path_to_check (pattern3 ++ [SLASH]))
        else
          let components := split_char SLASH path_to_check in
          fnmatchcase (OsPath.basename path_to_check) pattern2
          || existsb (fun comp => fnmatchcase comp pattern2) components in
      let matched :=
        if matched then
          if is_dir_pattern && negb is_dir then false else matched
        else matched in
      if matched then
        if is_negation then Return false else Return true
      else Continue.

(** [ProcessWorker._is_excluded_by_gitignore]; [is_dir] is what
    [os.path.isdir] answers for the path. *)
Fixpoint _is_excluded_by_gitignore (gitignore_patterns : list str)
  (rel_path : str) (is_dir : bool) : bool :=
  match gitignore_patterns with
  | [] => false
  | pattern :: rest =>
      match check_pattern rel_path is_dir pattern with
      | Return b => b
      | Continue => _is_excluded_by_gitignore rest rel_path is_dir
      end
  end.

(** The lines a text file yields when iterated, newlines translated. *)
Fixpoint readlines (s : str) : list str :=
  match s with
  | [] => []
  | c :: s' =>
      if char_eqb c CR then
        match s' with
        | d :: s'' =>
            if char_eqb d LF then [LF] :: readlines s''
            else [LF] :: readlines s'
        | [] => [[LF]]
        end
      else if char_eqb c LF then [LF] :: readlines s'
      else
        match readlines s' with
        | [] => [[c]]
        | l :: ls => (c :: l) :: ls
        end
  end.

Definition HASH : char := 35%N.

(** The body of [for line in f]. *)
Definition load_line (patterns : list str) (line : str) : list str :=
  let line := strip line in
  if nonempty line && negb (startswith line [HASH])
  then patterns ++ [line]
  else patterns.

(** [ProcessWorker._load_gitignore]: the value left in
    [self.gitignore_patterns].  [gitignore] is the text of the file
    [.gitignore] of the root directory, [None] when there is no such file or
    it cannot be read. *)
Definition _load_gitignore (use_gitignore : bool) (gitignore : option str)
  : list str :=
  match gitignore with
  | Some text =>
      if use_gitignore then fold_left load_line (readlines text) []
      else []
  | None => []
  end.

(** The pattern matcher as the specification words it: the derived flags
    and the textual match, negation left to the caller. *)
Definition negated (pattern : str) : bool := startswith pattern [BANG].

Definition pattern_body (pattern : str) : str :=
  rstrip_by is_slash (if negated pattern then tl pattern else pattern).

Definition dir_only (pattern : str) : bool :=
  endswith_char (if negated pattern then tl pattern else pattern) SLASH.

Definition matches (pattern rel_path : str) (is_dir : bool) : bool :=
  let body := pattern_body pattern in
  nonempty body
  && negb (dir_only pattern && negb is_dir)
  && (if startswith body [SLASH] then
        fnmatchcase rel_path (lstrip_by is_slash body)
        || startswith rel_path (lstrip_by is_slash body ++ [SLASH])
      else
        fnmatchcase (OsPath.basename rel_path) body
        || existsb (fun comp => fnmatchcase comp body)
                   (split_char SLASH rel_path)).

(** The lines kept by the loader, once stripped. *)
Definition kept_line (line : str) : bool :=
  nonempty line && negb (startswith line [HASH]).

(** A pattern text free of wildcards and of slashes. *)
Definition plain_text (s : str) : bool :=
  forallb (fun c => plain_char c && negb (is_slash c)) s.

End Ignore.

(** ** The tree collector and the renderer: [ProcessWorker.run] *)

Module Worker.
Import PyStr PySeq Fnmatch.

(** What reading a file gives: its text as UTF-8, its text as Latin-1 when
    it is not valid UTF-8, or the message of the exception raised. *)
Inductive file_data :=
| Utf8 (content : str)
| Latin1 (content : str)
| Failed (message : str).

(** A directory tree without symbolic links; the children of a directory
    come in the order [os.scandir] lists them. *)
#[warnings="-register-all"]
Inductive node :=
| File (name : str)
| Dir (name : str) (children : list node).


(** The [dirs] and [files] lists [os.walk] yields for a directory. *)
Fixpoint dir_names (children : list node) : list str :=
  match children with
  | [] => []
  | Dir d _ :: rest => d :: dir_names rest
  | File _ :: rest => dir_names rest
  end.

Fixpoint file_names (children : list node) : list str :=
  match children with
  | [] => []
  | File f :: rest => f :: file_names rest
  | Dir _ _ :: rest => file_names rest
  end.

(** The fields of [ProcessWorker]. *)
Record worker := mkWorker {
  root_dir : str;
  exclude_dirs : list str;
  exclude_files : list str;
  exclude_extensions : list str;
  use_gitignore : bool;
  include_structure : bool;
  structure_only : bool;
  gitignore_patterns : list str
}.

(** [x in s] for a set of strings. *)
Definition mem (x : str) (s : list str) : bool := existsb (str_eqb x) s.

Definition item := (str * bool)%type.

(** [collected_items] and [processed_paths]. *)
Record collection := mkCollection {
  collected_items : list item;
  processed_paths : list str
}.

(** [os.path.join(rel_root, d) if rel_root else d] *)
Definition rel_join (rel_root d : str) : str :=
  if nonempty rel_root then OsPath.join rel_root d else d.

(** [dirs[:] = [d for d in dirs if d not in self.exclude_dirs]] *)
Definition keep_by_name (w : worker) (dirs : list str) : list str :=
  filter (fun d => negb (mem d (exclude_dirs w))) dirs.

(** The loop that builds [final_dirs]. *)
Definition keep_by_gitignore (w : worker) (rel_root : str) (dirs : list str)
  : list str :=
  fold_left
    (fun final_dirs d =>
       let rel_path_dir := rel_join rel_root d in
       if Ignore._is_excluded_by_gitignore (gitignore_patterns w)
            rel_path_dir true
       then final_dirs
       else final_dirs ++ [d])
    dirs [].

(** The body of [for d in dirs] that records the directories. *)
Definition add_dir (rel_root : str) (c : collection) (d : str) : collection :=
  let norm_path := rel_join rel_root d in
  if mem norm_path (processed_paths c) then c
  else mkCollection (collected_items c ++ [(norm_path, true)])
                    (norm_path :: processed_paths c).

(** The body of [for file in files]. *)
Definition add_file (w : worker) (rel_root : str) (c : collection)
  (file : str) : collection :=
  let rel_path_file := rel_join rel_root file in
  let norm_path := rel_path_file in
  if mem norm_path (processed_paths c) then c
  else if mem file (exclude_files w)
          || existsb (fun pattern => fnmatchcase file pattern)
                     (exclude_files w)
  then mkCollection (collected_items c) (norm_path :: processed_paths c)
  else if mem (lower (OsPath.splitext_ext file)) (exclude_extensions w)
  then mkCollection (collected_items c) (norm_path :: processed_paths c)
  else if Ignore._is_excluded_by_gitignore (gitignore_patterns w)
            rel_path_file false
  then mkCollection (collected_items c) (norm_path :: processed_paths c)
  else mkCollection (collected_items c ++ [(norm_path, false)])
                    (norm_path :: processed_paths c).

(** The directories of [dirs] left after both prunings. *)
Definition final_dirs (w : worker) (rel_root : str) (dirs : list str)
  : list str :=
  keep_by_gitignore w rel_root (keep_by_name w dirs).

(** One turn of [for root, dirs, files in os.walk(...)]. *)
Definition visit (w : worker) (rel_root : str) (dirs files : list str)
  (c : collection) : collection :=
  let dirs := final_dirs w rel_root dirs in
  let c := fold_left (add_dir rel_root) dirs c in
  fold_left (add_file w rel_root) files c.

(** The traversal: [os.walk] visits a directory, then each of the
    directories left in [dirs], in order.  [rel_root] is the path of the
    directory relative to the root, empty for the root itself. *)
Fixpoint walk (w : worker) (rel_root : str) (n : node) (c : collection)
  : collection :=
  match n with
  | File _ => c
  | Dir _ children =>
      let c1 := visit w rel_root (dir_names children) (file_names children) c in
      let kept := final_dirs w rel_root (dir_names children) in
      fold_left
        (fun c child =>
           match child with
           | Dir d _ =>
               if mem d kept then walk w (rel_join rel_root d) child c else c
           | File _ => c
           end)
        children c1
  end.

(** The order of the tuples [(path, is_dir)]. *)
Definition item_leb (a b : item) : bool :=
  if str_ltb (fst a) (fst b) then true
  else if str_ltb (fst b) (fst a) then false
  else implb (snd a) (snd b).

Fixpoint insert_item (x : item) (l : list item) : list item :=
  match l with
  | [] => [x]
  | y :: l' => if item_leb x y then x :: l else y :: insert_item x l'
  end.

(** [collected_items.sort()] *)
Definition sort_items (l : list item) : list item :=
  fold_right insert_item [] l.

(** The collected tree: the items after the traversal and the sort. *)
Definition collect (w : worker) (root : node) : list item :=
  sort_items (collected_items (walk w [] root (mkCollection [] []))).

(** *** Rendering *)

Definition DIR_MARKER : str := [240; 376; 8220; 32]%N.
Definition FILE_MARKER : str := [240; 376; 8220; 8222; 32]%N.

Definition HEADER : str :=
  lit "Directory Structure:" ++ [LF] ++ lit "====================" ++ [LF].

Definition LATIN1_WARNING : str :=
  lit "[Warning: File read as latin-1, may not be correct]" ++ [LF].

Record rendering := mkRendering {
  structure_lines : list str;
  file_contents : list str;
  included_files_count : Z;
  errors : list str
}.

(** The record of one file around the text [content]. *)
Definition file_record (rel_path content : str) : str :=
  lit ">>>File: " ++ rel_path ++ [LF; LF] ++ content ++ [LF; LF]
  ++ repeat_str (lit "=") 40 ++ [LF].

(** The body of [for rel_path, is_dir in collected_items]; [read] gives the
    outcome of reading the file at a relative path. *)
Definition render_item (w : worker) (read : str -> file_data)
  (r : rendering) (it : item) : rendering :=
  let rel_path := fst it in
  let is_dir := snd it in
  let r1 :=
    if include_structure w || structure_only w then
      let indent := count_char SLASH rel_path in
      let indent :=
        if Nat.eqb indent 0 && contains_char SLASH rel_path then indent
        else if nonempty rel_path && negb (contains_char SLASH rel_path)
        then O
        else count_char SLASH rel_path in
      let prefix :=
        repeat_str (lit "  ") indent
        ++ (if is_dir then DIR_MARKER else FILE_MARKER) in
      let base_name :=
        if nonempty rel_path then OsPath.basename rel_path
        else OsPath.basename (root_dir w) in
      mkRendering (structure_lines r ++ [prefix ++ base_name])
                  (file_contents r) (included_files_count r) (errors r)
    else r in
  if negb is_dir && negb (structure_only w) then
    match read rel_path with
    | Utf8 content =>
        mkRendering (structure_lines r1)
                    (file_contents r1 ++ [file_record rel_path content])
                    (included_files_count r1 + 1) (errors r1)
    | Latin1 content =>
        mkRendering (structure_lines r1)
                    (file_contents r1
                     ++ [file_record rel_path (LATIN1_WARNING ++ content)])
                    (included_files_count r1 + 1) (errors r1)
    | Failed e =>
        mkRendering (structure_lines r1)
                    (file_contents r1
                     ++ [lit ">>>File: " ++ rel_path ++ [LF; LF]
                         ++ lit "[Error reading file: " ++ e ++ lit "]"
                         ++ [LF; LF] ++ repeat_str (lit "=") 40 ++ [LF]])
                    (included_files_count r1)
                    (errors r1
                     ++ [lit "Error reading file " ++ rel_path ++ lit ": "
                         ++ e])
    end
  else r1.

(** What [run] emits with [finished]: the structure summary, the combined
    content and the errors. *)
Definition render (w : worker) (read : str -> file_data)
  (items : list item) : str * str * list str :=
  let structure_summary :=
    if include_structure w || structure_only w then HEADER else [] in
  let r := fold_left (render_item w read) items (mkRendering [] [] 0 []) in
  let structure_summary :=
    if include_structure w || structure_only w
    then structure_summary ++ join [LF] (structure_lines r) ++ [LF; LF]
    else [] in
  let combined_content :=
    if negb (structure_only w) then concat (file_contents r) else [] in
  (structure_summary, combined_content, errors r).

(** The worker once [self._load_gitignore()] has run. *)
Definition loaded (w : worker) (gitignore : option str) : worker :=
  mkWorker (root_dir w) (exclude_dirs w) (exclude_files w)
           (exclude_extensions w) (use_gitignore w) (include_structure w)
           (structure_only w)
           (Ignore._load_gitignore (use_gitignore w) gitignore).

(** [ProcessWorker.run]: load the patterns, traverse, sort and render.
    [gitignore] is the text of the ignore file of the root, if any, [root]
    the tree under the root directory and [read] the outcome of reading
    each file. *)
Definition run (w : worker) (gitignore : option str) (root : node)
  (read : str -> file_data) : str * str * list str :=
  let w := loaded w gitignore in
  render w read (collect w root).

(** *** The output format, as the specification words it *)

(** An entry line: two spaces per directory depth, the marker, the base
    name. *)
Definition entry_line (it : item) : str :=
  repeat_str (lit "  ") (count_char SLASH (fst it))
  ++ (if snd it then DIR_MARKER else FILE_MARKER)
  ++ OsPath.basename (fst it).

(** The content of a file record: the text read, the text read with the
    fallback warning before it, or the placeholder of a failed read. *)
Definition record_content (d : file_data) : str :=
  match d with
  | Utf8 content => content
  | Latin1 content => LATIN1_WARNING ++ content
  | Failed e => lit "[Error reading file: " ++ e ++ lit "]"
  end.

Definition is_file (it : item) : bool := negb (snd it).

(** *** The configuration constants of the source *)

Definition DEFAULT_EXCLUDE_DIRS : list str :=
  map lit [".git"; "node_modules"; "venv"; "__pycache__"; "build"; "dist";
           ".svn"; "env"; ".idea"; ".vscode"; "target"; "out"]%string.

Definition DEFAULT_EXCLUDE_FILES : list str :=
  map lit ["package-lock.json"; "yarn.lock"; "*.pyc"; "*.pyo"; "*.exe";
           "*.dll"; "*.so"; "*.dylib"; "*.o"; "*.a"; "*.class";
           "*.jar"]%string.

Definition DEFAULT_EXCLUDE_EXTENSIONS : list str :=
  map lit [".jpg"; ".jpeg"; ".png"; ".gif"; ".bmp"; ".svg"; ".ico"; ".tif";
           ".tiff";
           ".mp4"; ".avi"; ".mov"; ".wmv"; ".flv"; ".mkv";
           ".mp3"; ".wav"; ".ogg"; ".aac"; ".flac";
           ".ttf"; ".otf"; ".woff"; ".woff2"; ".eot";
           ".zip"; ".rar"; ".tar"; ".gz"; ".7z"; ".bz2"; ".iso";
           ".pdf"; ".doc"; ".docx"; ".xls"; ".xlsx"; ".ppt"; ".pptx"; ".odt";
           ".ods"; ".odp";
           ".db"; ".sqlite"; ".sqlite3"; ".log"; ".tmp"; ".bak"; ".swp";
           ".bin"; ".dat"; ".cache"; ".img"; ".dmg"; ".pkl";
           ".joblib"]%string.

End Worker.

(** ** Vocabulary for the properties of the chunk splitter *)

Module SplitterInv.
Import PyStr PySeq Splitter.
Local Open Scope Z_scope.

(** Where the next block starts: the next marker, or the end. *)
Definition next_cut (k : Z) (lines : list str) (j : nat) : Z :=
  match nth_error (marker_positions k lines) j with
  | Some m => m
  | None => k + len lines
  end.

(** One turn of the loop seen from its block. *)
Definition pack_block (P : Type) (mk : list str -> P) (max_lines : Z)
  (st : state P) (b : list str) : state P :=
  pack mk max_lines b (len b) st.
Arguments pack_block : clear implicits.

(** The text held by a state: the finished parts, then the pending lines. *)
Definition flat (st : state (list N)) : str :=
  concat (parts st) ++ concat (current_part_lines st).

(** The run that joins each part and the run that keeps the lines of each
    part go through the same states. *)
Definition joined (st1 : state (list N)) (st2 : state (list str)) : Prop :=
  parts st1 = map (@concat N) (parts st2)
  /\ current_part_lines st1 = current_part_lines st2
  /\ current_line_count st1 = current_line_count st2.

(** A group of blocks that may stand as one part. *)
Definition group_ok (max_lines : Z) (g : list (list str)) : Prop :=
  g <> [] /\
  (len (concat g) <= max_lines \/ exists b, g = [b] /\ max_lines < len b).

(** What the loop keeps true: the finished parts are groups of whole
    blocks, and the pending lines are whole blocks within the budget. *)
Definition grouped (max_lines : Z) (done : list (list str))
  (st : state (list str)) : Prop :=
  exists groups cur,
    parts st = map (@concat (list N)) groups
    /\ current_part_lines st = concat cur
    /\ current_line_count st = len (concat cur)
    /\ concat groups ++ cur = done
    /\ Forall (group_ok max_lines) groups
    /\ Forall (fun b => b <> []) cur
    /\ (cur <> [] -> len (concat cur) <= max_lines).

End SplitterInv.

(** ** Vocabulary for the properties of the tree collector *)

Module TreeInv.
Import PyStr PySeq Worker.

(** A name as a directory listing gives it: not empty, without slash. *)
Definition name_ok (name : str) : bool :=
  nonempty name && negb (contains_char SLASH name).

Fixpoint names_ok (n : node) : bool :=
  match n with
  | File f => name_ok f
  | Dir d children => name_ok d && forallb names_ok children
  end.

(** A tree whose entries below the root all have such names. *)
Definition tree_ok (root : node) : bool :=
  match root with
  | File _ => true
  | Dir _ children => forallb names_ok children
  end.

(** An item reached through directories that the name exclusion let pass:
    its path is made of names, and none of its directories, the item itself
    included when it is one, has an excluded name. *)
Definition allowed (w : worker) (it : item) : Prop :=
  exists names,
    names <> []
    /\ fst it = join [SLASH] names
    /\ Forall (fun n => name_ok n = true) names
    /\ Forall (fun d => mem d (exclude_dirs w) = false)
              (if snd it then names else removelast names).

Definition all_allowed (w : worker) (c : collection) : Prop :=
  forall it, In it (collected_items c) -> allowed w it.

(** What the traversal of one subtree keeps true. *)
Definition walk_keeps_allowed (w : worker) (n : node) : Prop :=
  forall rnames c,
    tree_ok n = true ->
    Forall (fun x => name_ok x = true) rnames ->
    Forall (fun d => mem d (exclude_dirs w) = false) rnames ->
    all_allowed w c ->
    all_allowed w (walk w (join [SLASH] rnames) n c).

End TreeInv.

(** ** Sample inputs *)

Module Samples.
Import PyStr PySeq.

(** A summary line and two file records. *)
Definition two_records : str :=
  lit "tree" ++ [LF]
  ++ lit ">>>File: a.py" ++ [LF] ++ lit "x = 1" ++ [LF]
  ++ lit ">>>File: b.py" ++ [LF] ++ lit "y = 2" ++ [LF] ++ lit "z = 3".

(** An ignore file whose only pattern line is padded with blanks. *)
Definition padded_gitignore : str := lit " foo " ++ [LF].

(** A reader for the files of a tree: [a/x.py] is not valid UTF-8. *)
Definition rendered_read (rel_path : str) : Worker.file_data :=
  if str_eqb rel_path (lit "a/x.py")
  then Worker.Latin1 (lit "caf" ++ [233%N])
  else Worker.Utf8 (lit "pass" ++ [LF]).

(** The tree [a/x.py], [a/b/y.log], [node_modules/z.js]. *)
Definition project_tree : Worker.node :=
  Worker.Dir (lit "project")
    [Worker.Dir (lit "a")
       [Worker.File (lit "x.py");
        Worker.Dir (lit "b") [Worker.File (lit "y.log")]];
     Worker.Dir (lit "node_modules") [Worker.File (lit "z.js")]].

(** The worker with the default exclusion lists; no ignore file exists. *)
Definition default_worker (use_gitignore : bool) : Worker.worker :=
  Worker.mkWorker (lit "/project") Worker.DEFAULT_EXCLUDE_DIRS
    Worker.DEFAULT_EXCLUDE_FILES Worker.DEFAULT_EXCLUDE_EXTENSIONS
    use_gitignore true false
    (Ignore._load_gitignore use_gitignore None).

(** The tree [build/tmp.o], [build/keep.txt] and its ignore patterns. *)
Definition build_tree : Worker.node :=
  Worker.Dir (lit "project")
    [Worker.Dir (lit "build")
       [Worker.File (lit "tmp.o"); Worker.File (lit "keep.txt")]].

Definition build_patterns : list str := [lit "build/"; lit "!build/keep.txt"].

Definition build_worker (dirs files extensions : list str) : Worker.worker :=
  Worker.mkWorker (lit "/project") dirs files extensions true true false
    build_patterns.

End Samples.

(** ** Vocabulary for the greedy packing of the chunk splitter *)

Module SplitterGreedy.
Import PyStr PySeq Splitter SplitterInv.
Local Open Scope Z_scope.

(** Consecutive groups are tight: the first block of a group would not have
    fitted in the budget after the group before it. *)
Fixpoint tight (max_lines : Z) (groups : list (list (list str))) : Prop :=
  match groups with
  | [] => True
  | g :: rest =>
      match rest with
      | [] => True
      | g' :: _ => max_lines < len (concat g) + len (hd [] g')
      end
      /\ tight max_lines rest
  end.

(** What the loop keeps true besides the grouping: the parts are tight, and
    with nothing pending the last part is an oversized one. *)
Definition packed (max_lines : Z) (done : list (list str))
  (st : state (list str)) : Prop :=
  exists groups cur,
    parts st = map (@concat (list N)) groups
    /\ current_part_lines st = concat cur
    /\ current_line_count st = len (concat cur)
    /\ concat groups ++ cur = done
    /\ Forall (fun b => b <> []) cur
    /\ (cur <> [] -> tight max_lines (groups ++ [cur]))
    /\ (cur = [] ->
        tight max_lines groups
        /\ (groups <> [] -> max_lines < len (concat (last groups [])))).

End SplitterGreedy.

(** ** Vocabulary for the errors of a run *)

Module RunVocab.
Import PyStr PySeq Worker.

(** The error line a collected item adds to the list of errors: one for a
    file whose reading failed, none otherwise. *)
Definition read_errors (read : str -> file_data) (it : item) : list str :=
  if snd it then []
  else
    match read (fst it) with
    | Failed e => [lit "Error reading file " ++ fst it ++ lit ": " ++ e]
    | Utf8 _ => []
    | Latin1 _ => []
    end.

End RunVocab.

(** ** The exclusion predicate and the file count:
    [ProcessWorker._is_excluded] and [ProcessWorker.estimate_total_files] *)

Module Exclusion.
Import PyStr PySeq Fnmatch Worker.
Local Open Scope Z_scope.

(** [ProcessWorker._is_excluded(path)].  [relpath] is what
    [os.path.relpath(path, self.root_dir)] answers and [is_dir] what
    [os.path.isdir(path)] answers. *)
Definition _is_excluded (w : worker) (path relpath : str) (is_dir : bool)
  : bool :=
  let rel_path := if str_eqb relpath (lit ".") then [] else relpath in
  let basename := OsPath.basename path in
  if is_dir && mem basename (exclude_dirs w) then true
  else if negb is_dir && mem basename (exclude_files w) then true
  else if negb is_dir
          && existsb (fun pattern => fnmatchcase basename pattern)
                     (exclude_files w) then true
  else if negb is_dir
          && mem (lower (OsPath.splitext_ext basename)) (exclude_extensions w)
  then true
  else if use_gitignore w
          && Ignore._is_excluded_by_gitignore (gitignore_patterns w)
               rel_path is_dir
  then true
  else false.

(** The files [os.walk] meets when nothing is pruned, in its order: for each
    file the path [os.path.join(root, file)] and its path relative to the
    root directory.  [top] is the path of the directory walked and
    [rel_root] its relative path. *)
Fixpoint walked_files (top rel_root : str) (n : node) : list (str * str) :=
  match n with
  | File _ => []
  | Dir _ children =>
      map (fun file => (OsPath.join top file, rel_join rel_root file))
          (file_names children)
      ++ flat_map
           (fun child =>
              match child with
              | Dir d _ =>
                  walked_files (OsPath.join top d) (rel_join rel_root d) child
              | File _ => []
              end)
           children
  end.

(** [ProcessWorker.estimate_total_files] *)
Definition estimate_total_files (w : worker) (root : node) : Z :=
  fold_left
    (fun total pr =>
       if negb (_is_excluded w (fst pr) (snd pr) false) then total + 1
       else total)
    (walked_files (root_dir w) [] root) 0.

End Exclusion.

(** ** Vocabulary for the soundness of the tree collector *)

Module CollectVocab.
Import PyStr PySeq Fnmatch Worker TreeInv Exclusion.

(** Trees all of whose names, below the root, satisfy a test. *)
Fixpoint names_all (good : str -> bool) (n : node) : bool :=
  match n with
  | File f => good f
  | Dir d children => good d && forallb (names_all good) children
  end.

Definition tree_all (good : str -> bool) (root : node) : bool :=
  match root with
  | File _ => true
  | Dir _ children => forallb (names_all good) children
  end.

(** A name as a directory listing gives it: not empty, without slash, and
    not the name [.] of the directory itself. *)
Definition listed_name (name : str) : bool :=
  name_ok name && negb (str_eqb name (lit ".")).

(** The non-empty prefixes of a list of names, shortest first. *)
Fixpoint prefixes (names : list str) : list (list str) :=
  match names with
  | [] => []
  | x :: rest => [x] :: map (cons x) (prefixes rest)
  end.

(** A directory, given by the names leading to it, that both prunings of
    the traversal let pass. *)
Definition dir_passes (w : worker) (names : list str) : Prop :=
  mem (last names []) (exclude_dirs w) = false
  /\ Ignore._is_excluded_by_gitignore (gitignore_patterns w)
       (join [SLASH] names) true = false.

(** A file that the checks of the file loop let pass. *)
Definition file_passes (w : worker) (names : list str) : Prop :=
  mem (last names []) (exclude_files w) = false
  /\ existsb (fun pattern => fnmatchcase (last names []) pattern)
             (exclude_files w) = false
  /\ mem (lower (OsPath.splitext_ext (last names [])))
         (exclude_extensions w) = false
  /\ Ignore._is_excluded_by_gitignore (gitignore_patterns w)
       (join [SLASH] names) false = false.

(** An item that passed every check, as did each directory above it. *)
Definition passed (good : str -> bool) (w : worker) (it : item) : Prop :=
  exists names,
    names <> []
    /\ fst it = join [SLASH] names
    /\ Forall (fun n => good n = true) names
    /\ Forall (dir_passes w) (prefixes (removelast names))
    /\ (if snd it then dir_passes w names else file_passes w names).

Definition all_passed (good : str -> bool) (w : worker) (c : collection)
  : Prop :=
  forall it, In it (collected_items c) -> passed good w it.

Definition walk_keeps_passed (good : str -> bool) (w : worker) (n : node)
  : Prop :=
  forall rnames c,
    tree_all good n = true ->
    Forall (fun x => good x = true) rnames ->
    Forall (dir_passes w) (prefixes rnames) ->
    all_passed good w c ->
    all_passed good w (walk w (join [SLASH] rnames) n c).

(** The paths collected so far are distinct and all recorded as
    processed. *)
Definition distinct_paths (c : collection) : Prop :=
  NoDup (map fst (collected_items c))
  /\ incl (map fst (collected_items c)) (processed_paths c).

(** The file items of a collection are files the unpruned walk meets, at
    the same relative path, and [_is_excluded] lets them pass. *)
Definition files_counted (w : worker) (universe : list (str * str))
  (c : collection) : Prop :=
  forall p,
    In (p, false) (collected_items c) ->
    exists path,
      In (path, p) universe /\ _is_excluded w path p false = false.

Definition walk_keeps_counted (w : worker) (n : node) : Prop :=
  forall universe top rnames c,
    tree_all listed_name n = true ->
    Forall (fun x => listed_name x = true) rnames ->
    incl (walked_files top (join [SLASH] rnames) n) universe ->
    files_counted w universe c ->
    files_counted w universe (walk w (join [SLASH] rnames) n c).

(** The order of the items as a relation. *)
Definition item_le (a b : item) : Prop := item_leb a b = true.

End CollectVocab.

(** ** Vocabulary for the completeness of the tree collector *)

Module TreeEntries.
Import PyStr PySeq Worker TreeInv CollectVocab.










End TreeEntries.

(** ** Saving the results: [CodeBaseAnalyzer.handle_results] *)

Module Saving.
Import PyStr PySeq Splitter.
Local Open Scope Z_scope.

(** [p[:p.rfind('/') + 1]]: the path up to and with its last slash. *)
Fixpoint head_part (p : str) : str :=
  match p with
  | [] => []
  | c :: p' =>
      if contains_char SLASH p' then c :: head_part p'
      else if char_eqb c SLASH then [c]
      else []
  end.

(** [os.path.dirname(p)]: the head, without its trailing slashes unless it
    consists of slashes only. *)
Definition dirname (p : str) : str :=
  let head := head_part p in
  if nonempty head && negb (forallb (char_eqb SLASH) head)
  then rstrip_by (char_eqb SLASH) head
  else head.

(** [str(i)] for an [int]: its decimal numeral. *)
Definition decimal (i : Z) : str :=
  lit (DecimalString.NilEmpty.string_of_int (Z.to_int i)).

(** [enumerate(l, start)] *)
Fixpoint enumerate {A} (l : list A) (start : Z) : list (Z * A) :=
  match l with
  | [] => []
  | x :: l' => (start, x) :: enumerate l' (start + 1)
  end.

Definition TXT : str := lit ".txt".

(** The two f-strings that name a chunk file. *)
Definition chunk_filename (structure_only : bool) (base_filename : str)
  (i : Z) (extension : str) : str :=
  if structure_only
  then base_filename ++ lit "-structure-PART-" ++ decimal i ++ extension
  else base_filename ++ lit "-PART-" ++ decimal i ++ extension.

(** [CodeBaseAnalyzer.handle_results], as the files it writes: the path and
    the text of each [open(path, 'w')] ... [f.write(text)], in the order of
    the writes.  [structure_only] is the field of the worker, [is_chunked]
    the state of the radio button, [spinbox_value] the value of the spin
    box and [output_path] the text of the output entry.  Every write is
    taken to succeed; [None] is an exception raised before any write. *)
Definition handle_results (structure_only is_chunked : bool)
  (spinbox_value : Z) (output_path structure_summary combined_content : str)
  : option (list (str * str)) :=
  let max_lines := if is_chunked then spinbox_value else -1 in
  let full_content_to_write := structure_summary ++ combined_content in
  if negb (nonempty (strip full_content_to_write)) && negb structure_only
  then Some []
  else
    let extension := OsPath.splitext_ext output_path in
    let '(extension, output_path) :=
      if negb (nonempty extension) then (TXT, output_path ++ TXT)
      else (extension, output_path) in
    let base_name := slice output_path 0 (- len extension) in
    let output_dir := dirname output_path in
    if is_chunked then
      match split_content_smart full_content_to_write max_lines with
      | None => None
      | Some [] => Some []
      | Some [part] => Some [(output_path, part)]
      | Some parts =>
          let base_filename := OsPath.basename base_name in
          Some (map
                  (fun ip =>
                     (OsPath.join output_dir
                        (chunk_filename structure_only base_filename
                           (fst ip) extension),
                      snd ip))
                  (enumerate parts 1))
      end
    else
      let output_path :=
        if structure_only then base_name ++ lit "-structure" ++ extension
        else output_path in
      Some [(output_path, full_content_to_write)].

(** The write of one chunk in the loop over [enumerate(parts, 1)], given
    the directory, the stem and the extension of the output path. *)
Definition part_file_path (structure_only : bool) (output_dir stem : str)
  (extension : str) (ip : Z * str) : str * str :=
  (OsPath.join output_dir
     (chunk_filename structure_only (OsPath.basename stem) (fst ip)
        extension),
   snd ip).

End Saving.

(** ** The exclusion lists of the window:
    [CodeBaseAnalyzer._parse_exclusions] and the worker of
    [CodeBaseAnalyzer.run_analysis] *)

Module Analyzer.
Import PyStr PySeq Worker.

Definition COMMA : char := 44%N.

(** [{d.strip() for d in text.split(',') if d.strip()}]; a set is given by
    the list of its elements. *)
Definition stripped_names (text : str) : list str :=
  map strip (filter (fun d => nonempty (strip d)) (split_char COMMA text)).




(** A name as the entries expect it: not empty, without blanks around it
    and without comma. *)
Definition plain_name (n : str) : bool :=
  nonempty n && str_eqb (strip n) n && negb (contains_char COMMA n).


End Analyzer.

(** ** Sample results *)

Module SavingSamples.
Import PyStr.

(** The chunk files of [Samples.two_records] for the output path
    [out/all.md] and a budget of two lines. *)
Definition three_parts : list (str * str) :=
  [(lit "out/all-PART-1.md", lit "tree" ++ [LF]);
   (lit "out/all-PART-2.md",
    lit ">>>File: a.py" ++ [LF] ++ lit "x = 1" ++ [LF]);
   (lit "out/all-PART-3.md",
    lit ">>>File: b.py" ++ [LF] ++ lit "y = 2" ++ [LF] ++ lit "z = 3")].

End SavingSamples.

(** * Properties *)

Unset Implicit Arguments.

(** ** Lines *)

Section Lines.
Import PyStr PySeq.

Lemma splitlines_unfold_break (c : char) (s' : str) :
  is_linebreak c = true ->
  splitlines (c :: s') =
  match s' with
  | d :: s'' =>
      if char_eqb c CR && char_eqb d LF
      then [c; d] :: splitlines s''
      else [c] :: splitlines s'
  | [] => [[c]]
  end.
Proof. intros H. simpl. rewrite H. reflexivity. Qed.

Lemma splitlines_unfold_plain (c : char) (s' : str) :
  is_linebreak c = false ->
  splitlines (c :: s') =
  match splitlines s' with
  | [] => [[c]]
  | l :: ls => (c :: l) :: ls
  end.
Proof. intros H. simpl. rewrite H. reflexivity. Qed.

(** Joining the lines of a text gives the text back. *)
Lemma splitlines_concat_len (n : nat) :
  forall s : str, (length s <= n)%nat -> concat (splitlines s) = s.
Proof.
  induction n as [|n IH]; intros s Hn.
  - destruct s; [reflexivity | simpl in Hn; lia].
  - destruct s as [|c s']; [reflexivity|].
    simpl in Hn.
    destruct (is_linebreak c) eqn:Hc.
    + rewrite (splitlines_unfold_break c _ Hc).
      destruct s' as [|d s'']; [reflexivity|].
      destruct (char_eqb c CR && char_eqb d LF).
      * simpl in *. rewrite IH by lia. reflexivity.
      * change (concat ([c] :: splitlines (d :: s'')))
          with (c :: concat (splitlines (d :: s''))).
        rewrite IH by lia. reflexivity.
    + rewrite (splitlines_unfold_plain c _ Hc).
      assert (Hs' := IH s' ltac:(lia)).
      destruct (splitlines s') as [|l ls].
      * simpl in Hs'. subst s'. reflexivity.
      * simpl in *. rewrite Hs'. reflexivity.
Qed.

Lemma splitlines_concat (s : str) : concat (splitlines s) = s.
Proof. apply (splitlines_concat_len (length s)). lia. Qed.

Lemma splitlines_nil_inv (s : str) : splitlines s = [] -> s = [].
Proof.
  intros H. rewrite <- (splitlines_concat s), H. reflexivity.
Qed.

(** No line of a text is empty. *)
Lemma splitlines_nonempty_len (n : nat) :
  forall s : str, (length s <= n)%nat -> Forall (fun l => l <> []) (splitlines s).
Proof.
  induction n as [|n IH]; intros s Hn.
  - destruct s; [constructor | simpl in Hn; lia].
  - destruct s as [|c s']; [constructor|].
    simpl in Hn.
    destruct (is_linebreak c) eqn:Hc.
    + rewrite (splitlines_unfold_break c _ Hc).
      destruct s' as [|d s''].
      * repeat constructor. discriminate.
      * destruct (char_eqb c CR && char_eqb d LF).
        -- constructor; [discriminate|]. apply IH. simpl in Hn. lia.
        -- constructor; [discriminate|]. apply IH. lia.
    + rewrite (splitlines_unfold_plain c _ Hc).
      assert (Hs' := IH s' ltac:(lia)).
      destruct (splitlines s') as [|l ls].
      * repeat constructor. discriminate.
      * inversion Hs'; subst. constructor; [discriminate | assumption].
Qed.

Lemma splitlines_nonempty (s : str) : Forall (fun l => l <> []) (splitlines s).
Proof. apply (splitlines_nonempty_len (length s)). lia. Qed.

(** Any run of consecutive lines of a text, joined, splits into the same
    lines again. *)
Lemma splitlines_app_len (n : nat) :
  forall (s : str) (a b : list str),
    (length s <= n)%nat -> splitlines s = a ++ b ->
    splitlines (concat a) = a /\ splitlines (concat b) = b.
Proof.
  induction n as [|n IH]; intros s a b Hn Hs.
  - destruct s; [|simpl in Hn; lia].
    simpl in Hs. symmetry in Hs. apply app_eq_nil in Hs as [-> ->].
    split; reflexivity.
  - destruct a as [|l0 a'].
    { simpl in *. split; [reflexivity|].
      rewrite <- Hs, splitlines_concat. reflexivity. }
    destruct s as [|c s']; [discriminate|].
    simpl in Hn.
    destruct (is_linebreak c) eqn:Hc.
    + rewrite (splitlines_unfold_break c _ Hc) in Hs.
      destruct s' as [|d s''].
      * injection Hs as <- Hab. symmetry in Hab.
        apply app_eq_nil in Hab as [-> ->].
        split; [|reflexivity].
        simpl. rewrite Hc. reflexivity.
      * destruct (char_eqb c CR && char_eqb d LF) eqn:Hcd.
        -- injection Hs as <- Hab.
           destruct (IH s'' a' b ltac:(simpl in *; lia) Hab) as [Ha Hb].
           split; [|assumption].
           change (concat ([c; d] :: a')) with (c :: d :: concat a').
           rewrite (splitlines_unfold_break c _ Hc), Hcd, Ha. reflexivity.
        -- injection Hs as <- Hab.
           destruct (IH (d :: s'') a' b ltac:(simpl in *; lia) Hab) as [Ha Hb].
           split; [|assumption].
           change (concat ([c] :: a')) with (c :: concat a').
           rewrite (splitlines_unfold_break c _ Hc).
           assert (Hpre : d :: s'' = concat a' ++ concat b).
           { rewrite <- concat_app, <- Hab.
             symmetry. apply (splitlines_concat (d :: s'')). }
           destruct (concat a') as [|d' t] eqn:Hca.
           ++ simpl in Ha. rewrite <- Ha. reflexivity.
           ++ simpl in Hpre. injection Hpre as <- _.
              rewrite Hcd, Ha. reflexivity.
    + rewrite (splitlines_unfold_plain c _ Hc) in Hs.
      destruct (splitlines s') as [|l ls] eqn:Hs'.
      * injection Hs as <- Hab. symmetry in Hab.
        apply app_eq_nil in Hab as [-> ->].
        split; [|reflexivity].
        simpl. rewrite Hc. reflexivity.
      * injection Hs as <- Hab.
        destruct (IH s' (l :: a') b ltac:(lia)) as [Ha Hb].
        { rewrite Hs', Hab. reflexivity. }
        split; [|assumption].
        change (concat ((c :: l) :: a')) with (c :: concat (l :: a')).
        rewrite (splitlines_unfold_plain c _ Hc), Ha. reflexivity.
Qed.

Lemma splitlines_run (s : str) (a b c : list str) :
  splitlines s = a ++ b ++ c -> splitlines (concat b) = b.
Proof.
  intros H.
  destruct (splitlines_app_len (length s) s a (b ++ c) (le_n _) H) as [_ Hbc].
  destruct (splitlines_app_len (length (concat (b ++ c))) _ b c (le_n _) Hbc)
    as [Hb _].
  exact Hb.
Qed.

(** Each part of a partition of the lines of a text splits into its own
    lines. *)
Lemma splitlines_partition (s : str) (segs : list (list str)) :
  concat segs = splitlines s ->
  Forall (fun seg => splitlines (concat seg) = seg) segs.
Proof.
  intros H. apply Forall_forall. intros seg Hin.
  apply in_split in Hin as (l1 & l2 & ->).
  rewrite concat_app in H. simpl in H.
  apply (splitlines_run s (concat l1) seg (concat l2)). symmetry. exact H.
Qed.

End Lines.

(** ** Slices and indices *)

Section Slices.
Import PySeq.
Local Open Scope Z_scope.

Lemma slice_nat {A} (l : list A) (a b : Z) :
  0 <= a -> 0 <= b ->
  slice l a b = firstn (Z.to_nat b - Z.to_nat a) (skipn (Z.to_nat a) l).
Proof.
  intros Ha Hb. unfold slice, clamp, len.
  destruct (Z.ltb_spec a 0); [lia|].
  destruct (Z.ltb_spec b 0); [lia|].
  destruct (Z_le_gt_dec (Z.of_nat (length l)) a) as [Hge|Hlt].
  - rewrite (skipn_all2 l (n := Z.to_nat a)) by lia.
    rewrite (skipn_all2 l (n := Z.to_nat (Z.min a (Z.of_nat (length l))))) by lia.
    rewrite !firstn_nil. reflexivity.
  - rewrite (Z.min_l a) by lia.
    destruct (Z_le_gt_dec b (Z.of_nat (length l))) as [Hb'|Hb'].
    + rewrite (Z.min_l b) by lia. f_equal. lia.
    + rewrite (Z.min_r b) by lia.
      rewrite !firstn_all2; [reflexivity| |]; rewrite length_skipn; lia.
Qed.

Lemma slice_cons_succ {A} (x : A) (l : list A) (a b : Z) :
  0 <= a -> 0 <= b -> slice (x :: l) (a + 1) (b + 1) = slice l a b.
Proof.
  intros Ha Hb. rewrite !slice_nat by lia.
  replace (Z.to_nat (a + 1)) with (S (Z.to_nat a)) by lia.
  replace (Z.to_nat (b + 1)) with (S (Z.to_nat b)) by lia.
  reflexivity.
Qed.

Lemma slice_cons_zero {A} (x : A) (l : list A) (b : Z) :
  0 <= b -> slice (x :: l) 0 (b + 1) = x :: slice l 0 b.
Proof.
  intros Hb. rewrite !slice_nat by lia.
  replace (Z.to_nat (b + 1)) with (S (Z.to_nat b)) by lia.
  simpl. rewrite Nat.sub_0_r. reflexivity.
Qed.

Lemma slice_zero_zero {A} (l : list A) : slice l 0 0 = [].
Proof. rewrite slice_nat by lia. reflexivity. Qed.

Lemma nth_error_Some_lt {A} (l : list A) (n : nat) (x : A) :
  nth_error l n = Some x -> (n < length l)%nat.
Proof. intros H. apply nth_error_Some. rewrite H. discriminate. Qed.

Lemma index_nat {A} (l : list A) (i : nat) :
  index l (Z.of_nat i) = nth_error l i.
Proof.
  unfold index. destruct (Z.ltb_spec (Z.of_nat i) 0); [lia|].
  destruct (Z.ltb_spec (Z.of_nat i) 0); [lia|].
  rewrite Nat2Z.id. reflexivity.
Qed.

Lemma index_nonneg {A} (l : list A) (i : Z) :
  0 <= i -> index l i = nth_error l (Z.to_nat i).
Proof.
  intros H. rewrite <- (Z2Nat.id i) at 1 by lia. apply index_nat.
Qed.

(** A loop whose body never raises is a fold. *)
Lemma for_each_total {A S} (body : A -> S -> option S) (g : S -> A -> S)
  (xs : list A) :
  (forall x st, In x xs -> body x st = Some (g st x)) ->
  forall st, for_each body xs st = Some (fold_left g xs st).
Proof.
  induction xs as [|x xs IH]; intros Hbody st; [reflexivity|].
  simpl. rewrite Hbody by (left; reflexivity). simpl.
  apply IH. intros y st' Hy. apply Hbody. right. exact Hy.
Qed.

Lemma fold_left_nth_seq {A S} (g : S -> A -> S) (d : A) (l : list A) (st : S) :
  fold_left (fun st i => g st (nth i l d)) (seq 0 (length l)) st
  = fold_left g l st.
Proof.
  revert st.
  assert (G : forall (l1 l2 : list A) st,
             fold_left (fun st i => g st (nth i (l1 ++ l2) d))
                       (seq (length l1) (length l2)) st
             = fold_left g l2 st).
  { intros l1 l2. revert l1.
    induction l2 as [|x l2 IH]; intros l1 st; [reflexivity|].
    simpl. rewrite nth_middle.
    specialize (IH (l1 ++ [x]) (g st x)).
    rewrite <- app_assoc, length_app in IH. simpl in IH.
    rewrite Nat.add_1_r in IH. exact IH. }
  intros st. apply (G [] l st).
Qed.

End Slices.

(** ** The blocks of the chunk splitter *)

Section Blocks.
Import PyStr PySeq Splitter SplitterInv.
Local Open Scope Z_scope.

Lemma blocks_of_not_nil (lines : list str) : blocks_of lines <> [].
Proof.
  destruct lines as [|l ls]; simpl; [discriminate|].
  destruct (blocks_of ls); [discriminate|].
  destruct (startswith l file_marker); discriminate.
Qed.

(** The blocks, in order, make up the lines. *)
Lemma concat_blocks_of (lines : list str) : concat (blocks_of lines) = lines.
Proof.
  induction lines as [|l ls IH]; [reflexivity|].
  simpl. destruct (blocks_of ls) as [|b bs] eqn:Hb.
  - exfalso. exact (blocks_of_not_nil ls Hb).
  - simpl in IH. destruct (startswith l file_marker); simpl; rewrite IH;
      reflexivity.
Qed.

Lemma marker_positions_bounds (lines : list str) :
  forall k, Forall (fun m => k <= m < k + len lines) (marker_positions k lines).
Proof.
  unfold len.
  induction lines as [|l ls IH]; intros k; simpl; [constructor|].
  specialize (IH (k + 1)).
  assert (IH' : Forall (fun m => k <= m < k + Z.of_nat (S (length ls)))
                       (marker_positions (k + 1) ls)).
  { eapply Forall_impl; [|exact IH]. simpl. intros m Hm. lia. }
  destruct (startswith l file_marker); [constructor; [lia|]|]; exact IH'.
Qed.

Lemma length_blocks_of (lines : list str) :
  forall k,
    length (blocks_of lines) = S (length (marker_positions k lines)).
Proof.
  induction lines as [|l ls IH]; intros k; [reflexivity|].
  simpl. specialize (IH (k + 1)).
  destruct (blocks_of ls) as [|b bs] eqn:Hb.
  - exfalso. exact (blocks_of_not_nil ls Hb).
  - destruct (startswith l file_marker); simpl in *; lia.
Qed.

Lemma next_cut_bounds (k : Z) (lines : list str) (j : nat) :
  k <= next_cut k lines j <= k + len lines.
Proof.
  unfold next_cut.
  destruct (nth_error (marker_positions k lines) j) as [m|] eqn:Hm.
  - apply nth_error_In in Hm.
    pose proof (marker_positions_bounds lines k) as Hb.
    rewrite Forall_forall in Hb. specialize (Hb m Hm). lia.
  - unfold len. lia.
Qed.

Lemma next_cut_cons_marker (k : Z) (l : str) (ls : list str) (j : nat) :
  startswith l file_marker = true ->
  next_cut k (l :: ls) (S j) = next_cut (k + 1) ls j.
Proof.
  intros H. unfold next_cut, len. simpl. rewrite H. simpl.
  destruct (nth_error (marker_positions (k + 1) ls) j); lia.
Qed.

Lemma next_cut_cons_plain (k : Z) (l : str) (ls : list str) (j : nat) :
  startswith l file_marker = false ->
  next_cut k (l :: ls) j = next_cut (k + 1) ls j.
Proof.
  intros H. unfold next_cut, len. simpl. rewrite H.
  destruct (nth_error (marker_positions (k + 1) ls) j); lia.
Qed.

(** The first block is the slice up to the first marker. *)
Lemma head_block_spec (lines : list str) :
  forall k,
    hd [] (blocks_of lines) = slice lines 0 (next_cut k lines 0 - k).
Proof.
  induction lines as [|l ls IH]; intros k.
  - simpl. rewrite slice_nat by (unfold next_cut, len; simpl; lia).
    rewrite firstn_nil. reflexivity.
  - simpl. destruct (blocks_of ls) as [|b bs] eqn:Hb.
    { exfalso. exact (blocks_of_not_nil ls Hb). }
    specialize (IH (k + 1)). simpl in IH.
    destruct (startswith l file_marker) eqn:Hl.
    + unfold next_cut. simpl. rewrite Hl. simpl.
      rewrite Z.sub_diag, slice_zero_zero. reflexivity.
    + rewrite (next_cut_cons_plain k l ls 0 Hl).
      pose proof (next_cut_bounds (k + 1) ls 0) as Hbd.
      replace (next_cut (k + 1) ls 0 - k)
        with (next_cut (k + 1) ls 0 - (k + 1) + 1) by lia.
      rewrite slice_cons_zero by lia. rewrite <- IH. reflexivity.
Qed.

(** Every later block is its marker line and the slice after it. *)
Lemma tail_block_spec (lines : list str) :
  forall k j m,
    nth_error (marker_positions k lines) j = Some m ->
    k <= m /\
    exists ml,
      nth_error lines (Z.to_nat (m - k)) = Some ml /\
      nth_error (blocks_of lines) (S j)
      = Some (ml :: slice lines (m - k + 1) (next_cut k lines (S j) - k)).
Proof.
  induction lines as [|l ls IH]; intros k j m Hm.
  - destruct j; discriminate.
  - simpl in Hm. simpl blocks_of.
    destruct (blocks_of ls) as [|b bs] eqn:Hb.
    { exfalso. exact (blocks_of_not_nil ls Hb). }
    destruct (startswith l file_marker) eqn:Hl.
    + rewrite (next_cut_cons_marker k l ls j Hl).
      pose proof (next_cut_bounds (k + 1) ls j) as Hbd.
      destruct j as [|j].
      * injection Hm as <-. split; [lia|]. exists l.
        rewrite Z.sub_diag. split; [reflexivity|].
        simpl. do 2 f_equal.
        pose proof (head_block_spec ls (k + 1)) as Hh.
        rewrite Hb in Hh. simpl in Hh. rewrite Hh.
        replace (next_cut (k + 1) ls 0 - k)
          with (next_cut (k + 1) ls 0 - (k + 1) + 1) by lia.
        rewrite (slice_cons_succ l ls 0) by lia. reflexivity.
      * simpl in Hm.
        destruct (IH (k + 1) j m Hm) as (Hge & ml & Hml & Hblk).
        split; [lia|]. exists ml.
        replace (Z.to_nat (m - k)) with (S (Z.to_nat (m - (k + 1)))) by lia.
        split; [exact Hml|].
        change (nth_error ([] :: (l :: b) :: bs) (S (S j)))
          with (nth_error (b :: bs) (S j)).
        rewrite Hblk. do 2 f_equal.
        replace (m - k + 1) with (m - (k + 1) + 1 + 1) by lia.
        replace (next_cut (k + 1) ls (S j) - k)
          with (next_cut (k + 1) ls (S j) - (k + 1) + 1) by lia.
        pose proof (next_cut_bounds (k + 1) ls (S j)).
        rewrite slice_cons_succ by lia. reflexivity.
    + rewrite (next_cut_cons_plain k l ls (S j) Hl).
      destruct (IH (k + 1) j m Hm) as (Hge & ml & Hml & Hblk).
      split; [lia|]. exists ml.
      replace (Z.to_nat (m - k)) with (S (Z.to_nat (m - (k + 1)))) by lia.
      split; [exact Hml|].
      change (nth_error ((l :: b) :: bs) (S j)) with (nth_error (b :: bs) (S j)).
      rewrite Hblk. do 2 f_equal.
      replace (m - k + 1) with (m - (k + 1) + 1 + 1) by lia.
      replace (next_cut (k + 1) ls (S j) - k)
        with (next_cut (k + 1) ls (S j) - (k + 1) + 1) by lia.
      pose proof (next_cut_bounds (k + 1) ls (S j)).
      rewrite slice_cons_succ by lia. reflexivity.
Qed.

End Blocks.

(** ** The loop of the chunk splitter *)

Section SplitterLoop.
Import PyStr PySeq Splitter SplitterInv.
Local Open Scope Z_scope.

Lemma len_cons {A} (x : A) (l : list A) : len (x :: l) = len l + 1.
Proof. unfold len. simpl length. lia. Qed.

(** Iteration [i] of the loop works on block [i]. *)
Lemma block_at_blocks (lines : list str) (i : nat) (b : list str) :
  nth_error (blocks_of lines) i = Some b ->
  block_at lines (marker_indices lines) (Z.of_nat i) = Some (b, len b).
Proof.
  intros Hb. unfold block_at, marker_indices.
  pose proof (length_blocks_of lines 0) as Hlen.
  destruct i as [|j].
  - change (Z.of_nat 0) with 0.
    change (index (-1 :: marker_positions 0 lines) 0) with (Some (-1)).
    cbn [bind]. change (-1 + 1) with 0. cbn [Z.eqb andb bind].
    change (-1 =? -1) with true. cbv iota.
    pose proof (head_block_spec lines 0) as Hh.
    destruct (blocks_of lines) as [|b0 bs]; [discriminate|].
    simpl in Hb. injection Hb as ->. cbn [hd] in Hh.
    rewrite Z.sub_0_r in Hh. unfold next_cut in Hh.
    rewrite len_cons.
    destruct (marker_positions 0 lines) as [|m ms] eqn:Hmp.
    + change (0 + 1 <? len (@nil Z) + 1) with false. cbv iota. cbn [bind].
      cbn [nth_error] in Hh. rewrite Z.add_0_l in Hh. rewrite Hh.
      reflexivity.
    + assert (Hlt : (0 + 1 <? len (m :: ms) + 1) = true).
      { apply Z.ltb_lt. rewrite len_cons. unfold len. lia. }
      rewrite Hlt.
      change (index (-1 :: m :: ms) (0 + 1)) with (Some m).
      cbn [bind]. cbn [nth_error] in Hh. rewrite Hh. reflexivity.
  - assert (Hj : (j < length (marker_positions 0 lines))%nat).
    { apply nth_error_Some_lt in Hb. lia. }
    destruct (nth_error (marker_positions 0 lines) j) as [m|] eqn:Hm;
      [|apply nth_error_None in Hm; lia].
    destruct (tail_block_spec lines 0 j m Hm) as (Hge & ml & Hml & Hblk).
    rewrite Hb in Hblk. injection Hblk as ->.
    rewrite Z.sub_0_r in *.
    rewrite index_nat.
    change (nth_error (-1 :: marker_positions 0 lines) (S j))
      with (nth_error (marker_positions 0 lines) j).
    rewrite Hm. cbn [bind].
    assert (Hi0 : (Z.of_nat (S j) =? 0) = false) by (apply Z.eqb_neq; lia).
    rewrite Hi0. cbn [andb bind].
    assert (Hpos : (0 <? Z.of_nat (S j)) = true) by (apply Z.ltb_lt; lia).
    rewrite Hpos.
    rewrite (index_nonneg lines m Hge), Hml. cbn [bind].
    assert (Hend :
      (if Z.of_nat (S j) + 1 <? len (-1 :: marker_positions 0 lines)
       then index (-1 :: marker_positions 0 lines) (Z.of_nat (S j) + 1)
       else Some (len lines))
      = Some (next_cut 0 lines (S j))).
    { unfold next_cut. rewrite len_cons. unfold len.
      destruct (nth_error (marker_positions 0 lines) (S j)) as [m'|] eqn:Hn.
      - pose proof (nth_error_Some_lt _ _ _ Hn) as Hlt.
        destruct (Z.ltb_spec (Z.of_nat (S j) + 1)
                    (Z.of_nat (length (marker_positions 0 lines)) + 1));
          [|lia].
        replace (Z.of_nat (S j) + 1) with (Z.of_nat (S (S j))) by lia.
        rewrite index_nat.
        change (nth_error (-1 :: marker_positions 0 lines) (S (S j)))
          with (nth_error (marker_positions 0 lines) (S j)).
        exact Hn.
      - apply nth_error_None in Hn.
        destruct (Z.ltb_spec (Z.of_nat (S j) + 1)
                    (Z.of_nat (length (marker_positions 0 lines)) + 1));
          [lia|].
        rewrite Z.add_0_l. reflexivity. }
    rewrite Hend. cbn [bind]. rewrite len_cons, !Z.sub_0_r. reflexivity.
Qed.

Section WithParts.
Variable P : Type.
Variable mk : list str -> P.

(** The loop never raises, and packs the blocks one after the other. *)
Lemma split_lines_fold (lines : list str) (max_lines : Z) :
  split_lines mk lines max_lines
  = Some (finish mk (fold_left (pack_block P mk max_lines) (blocks_of lines)
                               (mkState [] [] 0))).
Proof.
  unfold split_lines.
  pose proof (length_blocks_of lines 0) as Hlen.
  assert (Hrange : range (len (marker_indices lines))
                   = map Z.of_nat (seq 0 (length (blocks_of lines)))).
  { unfold range, len, marker_indices. simpl length.
    rewrite Nat2Z.id, Hlen. reflexivity. }
  rewrite Hrange.
  rewrite (for_each_total
             (step mk lines (marker_indices lines) max_lines)
             (fun st x => pack_block P mk max_lines st
                            (nth (Z.to_nat x) (blocks_of lines) []))).
  - cbn [bind]. do 2 f_equal.
    rewrite <- (fold_left_nth_seq (pack_block P mk max_lines) [] (blocks_of lines)).
    generalize (seq 0 (length (blocks_of lines))).
    intros l. generalize (mkState (P := P) [] [] 0).
    induction l as [|i l IH]; intros st; [reflexivity|].
    simpl. rewrite Nat2Z.id. apply IH.
  - intros x st Hx. apply in_map_iff in Hx as (i & <- & Hi).
    apply in_seq in Hi. unfold step.
    destruct (nth_error (blocks_of lines) i) as [b|] eqn:Hb;
      [|apply nth_error_None in Hb; lia].
    rewrite (block_at_blocks lines i b Hb). cbn [bind fst snd].
    rewrite Nat2Z.id, (nth_error_nth _ _ [] Hb). reflexivity.
Qed.

Lemma split_with_fold (content : str) (max_lines : Z) :
  split_with mk content max_lines
  = Some (finish mk (fold_left (pack_block P mk max_lines)
                               (filter nonempty (blocks_of (splitlines content)))
                               (mkState [] [] 0))).
Proof.
  assert (Hfilter : forall bs st,
             fold_left (pack_block P mk max_lines) (filter nonempty bs) st
             = fold_left (pack_block P mk max_lines) bs st).
  { induction bs as [|b bs IH]; intros st; [reflexivity|].
    destruct b as [|l b]; simpl; apply IH. }
  rewrite Hfilter.
  unfold split_with. destruct content as [|c s]; [reflexivity|].
  destruct (splitlines (c :: s)) as [|l ls] eqn:Hs.
  - reflexivity.
  - apply split_lines_fold.
Qed.

End WithParts.

End SplitterLoop.

(** ** The chunk splitter is lossless and keeps blocks whole *)

Section SplitterResults.
Import PyStr PySeq Splitter SplitterInv.
Local Open Scope Z_scope.

Lemma flat_pack (max_lines : Z) (st : state (list N)) (b : list str) :
  flat (pack_block _ (@concat N) max_lines st b) = flat st ++ concat b.
Proof.
  unfold pack_block, pack, flat, flush.
  destruct b as [|l b]; [simpl; rewrite app_nil_r; reflexivity|].
  destruct (max_lines <? len (l :: b)).
  - destruct (current_part_lines st) as [|x xs] eqn:Hc; cbn [parts current_part_lines].
    + rewrite Hc, concat_app. simpl. rewrite !app_nil_r. reflexivity.
    + rewrite !concat_app. simpl. rewrite !app_nil_r, <- !app_assoc.
      reflexivity.
  - destruct ((0 <? current_line_count st)
              && (max_lines <? current_line_count st + len (l :: b)));
      cbn [parts current_part_lines]; rewrite !concat_app;
      simpl; rewrite ?app_nil_r, <- ?app_assoc; reflexivity.
Qed.

Lemma flat_fold (max_lines : Z) (bs : list (list str)) :
  forall st,
    flat (fold_left (pack_block _ (@concat N) max_lines) bs st)
    = flat st ++ concat (concat bs).
Proof.
  induction bs as [|b bs IH]; intros st; simpl.
  - rewrite app_nil_r. reflexivity.
  - rewrite IH, flat_pack, concat_app, app_assoc. reflexivity.
Qed.

Lemma flat_finish (st : state (list N)) :
  concat (finish (@concat N) st) = flat st.
Proof.
  unfold finish, flat.
  destruct (current_part_lines st) as [|x xs].
  - simpl. rewrite app_nil_r. reflexivity.
  - rewrite concat_app. simpl. rewrite app_nil_r. reflexivity.
Qed.

Lemma concat_map_concat {A} (l : list (list (list A))) :
  concat (map (@concat A) l) = concat (concat l).
Proof.
  induction l as [|x l IH]; [reflexivity|].
  simpl. rewrite concat_app, IH. reflexivity.
Qed.

Lemma concat_filter_nonempty {A} (bs : list (list A)) :
  concat (filter nonempty bs) = concat bs.
Proof.
  induction bs as [|b bs IH]; [reflexivity|].
  destruct b; simpl; rewrite IH; reflexivity.
Qed.

Lemma joined_pack (max_lines : Z) (b : list str) st1 st2 :
  joined st1 st2 ->
  joined (pack_block _ (@concat N) max_lines st1 b)
         (pack_block _ (fun ls => ls) max_lines st2 b).
Proof.
  intros (Hp & Hc & Hn). unfold pack_block, pack, flush, joined.
  destruct b as [|l b]; [repeat split; assumption|].
  rewrite Hc, Hn.
  destruct (max_lines <? len (l :: b)).
  - destruct (current_part_lines st2) eqn:Hc2; cbn [parts current_part_lines
      current_line_count]; rewrite ?Hp, ?Hc, ?Hc2, ?map_app; simpl;
      repeat split; try assumption; try reflexivity.
  - destruct ((0 <? current_line_count st2)
              && (max_lines <? current_line_count st2 + len (l :: b)));
      cbn [parts current_part_lines current_line_count];
      rewrite ?Hp, ?Hc, ?Hn, ?map_app; simpl; repeat split; reflexivity.
Qed.

Lemma joined_fold (max_lines : Z) (bs : list (list str)) :
  forall st1 st2,
    joined st1 st2 ->
    joined (fold_left (pack_block _ (@concat N) max_lines) bs st1)
           (fold_left (pack_block _ (fun ls => ls) max_lines) bs st2).
Proof.
  induction bs as [|b bs IH]; intros st1 st2 H; [exact H|].
  simpl. apply IH, joined_pack, H.
Qed.

Lemma joined_finish st1 st2 :
  joined st1 st2 ->
  finish (@concat N) st1 = map (@concat N) (finish (fun ls => ls) st2).
Proof.
  intros (Hp & Hc & _). unfold finish. rewrite Hc, Hp.
  destruct (current_part_lines st2); [reflexivity|].
  rewrite map_app. reflexivity.
Qed.

Lemma split_content_smart_lines (x : str) (max_lines : Z) :
  split_content_smart x max_lines
  = option_map (map (@concat N)) (split_content_lines x max_lines).
Proof.
  unfold split_content_smart, split_content_lines.
  rewrite !split_with_fold. simpl. f_equal.
  apply joined_finish, joined_fold. repeat split.
Qed.

Lemma concat_nil_nonempty {A} (cur : list (list A)) :
  Forall (fun b => b <> []) cur -> concat cur = [] -> cur = [].
Proof.
  intros H Hc. destruct cur as [|b cur]; [reflexivity|].
  inversion H; subst. destruct b; [congruence | discriminate].
Qed.

Lemma len_app {A} (a b : list A) : len (a ++ b) = len a + len b.
Proof. unfold len. rewrite length_app. lia. Qed.

Lemma len_nonneg {A} (a : list A) : 0 <= len a.
Proof. unfold len. lia. Qed.

Lemma len_pos {A} (a : list A) : a <> [] -> 0 < len a.
Proof. destruct a; [congruence|]. unfold len. simpl. lia. Qed.

Lemma grouped_pack (max_lines : Z) (done : list (list str)) (b : list str) st :
  b <> [] ->
  grouped max_lines done st ->
  grouped max_lines (done ++ [b]) (pack_block _ (fun ls => ls) max_lines st b).
Proof.
  intros Hb (groups & cur & Hp & Hc & Hn & Hd & Hg & Hne & Hmax).
  unfold pack_block, pack, flush.
  destruct b as [|l b]; [congruence|].
  set (blk := l :: b) in *.
  assert (Hsingle : max_lines < len blk -> group_ok max_lines [blk]).
  { intros H. split; [discriminate|]. right. exists blk.
    split; [reflexivity|exact H]. }
  assert (Hcurok : cur <> [] -> group_ok max_lines cur).
  { intros H. split; [exact H|]. left. exact (Hmax H). }
  subst done.
  destruct (Z.ltb_spec max_lines (len blk)) as [Hbig|Hsmall].
  - destruct (current_part_lines st) as [|x xs] eqn:Hcur.
    + assert (cur = []) by (apply concat_nil_nonempty; [assumption|congruence]).
      subst cur. exists (groups ++ [[blk]]), [].
      cbn [parts current_part_lines current_line_count].
      split; [rewrite Hp, map_app; simpl; rewrite app_nil_r; reflexivity|].
      split; [exact Hcur|].
      split; [rewrite Hn; reflexivity|].
      split; [rewrite concat_app; simpl; rewrite !app_nil_r; reflexivity|].
      split; [apply Forall_app; split; [assumption|]; constructor; auto|].
      split; [constructor|congruence].
    + assert (Hcne : cur <> []) by (intros ->; discriminate).
      exists (groups ++ [cur] ++ [[blk]]), [].
      cbn [parts current_part_lines current_line_count].
      split; [rewrite Hp, Hc, !map_app; simpl; rewrite app_nil_r,
                <- app_assoc; reflexivity|].
      split; [reflexivity|].
      split; [reflexivity|].
      split; [rewrite !concat_app; simpl; rewrite !app_nil_r, <- app_assoc;
              reflexivity|].
      split; [apply Forall_app; split; [assumption|];
              constructor; [auto|constructor; auto]|].
      split; [constructor|congruence].
  - destruct ((0 <? current_line_count st)
              && (max_lines <? current_line_count st + len blk)) eqn:Hfl.
    + apply andb_prop in Hfl as [H0 _]. apply Z.ltb_lt in H0.
      assert (Hcne : cur <> []).
      { intros ->. rewrite Hn in H0. unfold len in H0. simpl in H0. lia. }
      exists (groups ++ [cur]), [blk].
      cbn [parts current_part_lines current_line_count].
      split; [rewrite Hp, Hc, map_app; reflexivity|].
      split; [simpl; rewrite app_nil_r; reflexivity|].
      split; [simpl; rewrite app_nil_r; reflexivity|].
      split; [rewrite concat_app; simpl; rewrite !app_nil_r, <- app_assoc;
              reflexivity|].
      split; [apply Forall_app; split; [assumption|]; constructor; auto|].
      split; [constructor; [discriminate|constructor]|].
      intros _. simpl. rewrite app_nil_r. exact Hsmall.
    + exists groups, (cur ++ [blk]).
      cbn [parts current_part_lines current_line_count].
      assert (Hcat : concat (cur ++ [blk]) = concat cur ++ blk).
      { rewrite concat_app. simpl. rewrite app_nil_r. reflexivity. }
      split; [exact Hp|].
      split; [rewrite Hcat, Hc; reflexivity|].
      split; [rewrite Hcat, len_app, Hn; reflexivity|].
      split; [rewrite app_assoc; reflexivity|].
      split; [assumption|].
      split; [apply Forall_app; split; [assumption|];
              constructor; [discriminate|constructor]|].
      intros _. rewrite Hcat, len_app.
      apply andb_false_iff in Hfl as [H0|H1].
      * apply Z.ltb_ge in H0. rewrite Hn in H0.
        pose proof (len_nonneg (concat cur)). lia.
      * apply Z.ltb_ge in H1. rewrite Hn in H1. lia.
Qed.

Lemma grouped_fold (max_lines : Z) (bs : list (list str)) :
  Forall (fun b => b <> []) bs ->
  forall done st,
    grouped max_lines done st ->
    grouped max_lines (done ++ bs)
            (fold_left (pack_block _ (fun ls => ls) max_lines) bs st).
Proof.
  induction 1 as [|b bs Hb Hbs IH]; intros done st H; simpl.
  - rewrite app_nil_r. exact H.
  - replace (done ++ b :: bs) with ((done ++ [b]) ++ bs)
      by (rewrite <- app_assoc; reflexivity).
    apply IH, grouped_pack; assumption.
Qed.

Lemma grouped_finish (max_lines : Z) (done : list (list str)) st :
  grouped max_lines done st ->
  exists groups,
    finish (fun ls => ls) st = map (@concat (list N)) groups
    /\ concat groups = done
    /\ Forall (group_ok max_lines) groups.
Proof.
  intros (groups & cur & Hp & Hc & Hn & Hd & Hg & Hne & Hmax).
  unfold finish.
  destruct (current_part_lines st) as [|x xs] eqn:Hcur.
  - assert (cur = []) by (apply concat_nil_nonempty; [assumption|congruence]).
    subst cur. exists groups. rewrite app_nil_r in Hd. auto.
  - assert (Hcne : cur <> []) by (intros ->; discriminate).
    exists (groups ++ [cur]).
    rewrite Hp, Hc, map_app, concat_app. simpl. rewrite app_nil_r.
    repeat split; [assumption|].
    apply Forall_app. split; [assumption|]. constructor; [|constructor].
    split; [assumption|]. left. auto.
Qed.

Lemma filter_nonempty_spec {A} (bs : list (list A)) :
  Forall (fun b => b <> []) (filter nonempty bs).
Proof.
  apply Forall_forall. intros b Hb. apply filter_In in Hb as [_ Hb].
  destruct b; [discriminate|discriminate].
Qed.

(** The parts, as lists of lines, are groups of whole blocks in order. *)
Lemma split_content_lines_groups (x : str) (max_lines : Z) :
  exists groups,
    split_content_lines x max_lines = Some (map (@concat (list N)) groups)
    /\ concat groups = filter nonempty (blocks_of (splitlines x))
    /\ Forall (group_ok max_lines) groups.
Proof.
  unfold split_content_lines. rewrite split_with_fold.
  destruct (grouped_finish max_lines
              (filter nonempty (blocks_of (splitlines x)))
              (fold_left (pack_block _ (fun ls => ls) max_lines)
                 (filter nonempty (blocks_of (splitlines x)))
                 (mkState [] [] 0)))
    as (groups & Hf & Hc & Hg).
  { apply (grouped_fold max_lines _ (filter_nonempty_spec _) []).
    exists [], []. simpl. repeat split; try constructor. congruence. }
  exists groups. rewrite Hf. auto.
Qed.

End SplitterResults.

(** ** The claims on the chunk splitter *)

Section SplitterClaims.
Import PyStr PySeq Splitter SplitterInv.
Local Open Scope Z_scope.

(** C1: the chunk splitter is lossless.  For every text [x] and every line
    budget of at least one, [split_content_smart] returns a list of segments
    whose concatenation, in order, is exactly [x]; for the empty text the
    list is empty. *)
Theorem split_content_smart_lossless (x : str) (max_lines : Z) :
  1 <= max_lines ->
  exists segments,
    split_content_smart x max_lines = Some segments
    /\ concat segments = x
    /\ (x = [] -> segments = []).
Proof.
  intros _. unfold split_content_smart.
  destruct x as [|c s] eqn:Hx.
  - exists []. repeat split.
  - rewrite <- Hx. rewrite split_with_fold.
    eexists. split; [reflexivity|]. split.
    + rewrite flat_finish, flat_fold. simpl.
      rewrite concat_filter_nonempty, concat_blocks_of.
      apply splitlines_concat.
    + intros H. rewrite H in Hx. discriminate.
Qed.

Lemma split_content_smart_lossless_witness :
  1 <= 2 /\
  exists segments,
    split_content_smart Samples.two_records 2 = Some segments
    /\ concat segments = Samples.two_records
    /\ (Samples.two_records = [] -> segments = []).
Proof.
  split; [lia|]. apply (split_content_smart_lossless Samples.two_records 2).
  lia.
Defined.

(** C2: the chunk splitter keeps blocks whole.  For every text and every
    line budget of at least one, the segments are, in order, the joins of
    groups of whole consecutive blocks (the lines before the first marker
    line, then one block per marker line up to the next marker line); each
    segment has at most [max_lines] lines, or is one single block whose own
    line count exceeds [max_lines]. *)
Theorem split_keeps_blocks_whole (x : str) (max_lines : Z) :
  1 <= max_lines ->
  exists groups : list (list (list str)),
    split_content_smart x max_lines
    = Some (map (fun g => concat (concat g)) groups)
    /\ concat groups = filter nonempty (blocks_of (splitlines x))
    /\ Forall (fun g =>
                 g <> [] /\
                 (line_count (concat (concat g)) <= max_lines
                  \/ exists b, g = [b] /\ max_lines < line_count (concat b)))
              groups.
Proof.
  intros _.
  destruct (split_content_lines_groups x max_lines) as (groups & Hs & Hc & Hg).
  exists groups. split; [|split; [exact Hc|]].
  - rewrite split_content_smart_lines, Hs. simpl. rewrite map_map.
    reflexivity.
  - assert (Hlines : Forall (fun seg => splitlines (concat seg) = seg)
                            (map (@concat (list N)) groups)).
    { apply (splitlines_partition x).
      rewrite concat_map_concat, Hc, concat_filter_nonempty.
      apply concat_blocks_of. }
    rewrite Forall_forall in Hg, Hlines. apply Forall_forall.
    intros g Hin. destruct (Hg g Hin) as [Hne Hsize].
    assert (Hl : splitlines (concat (concat g)) = concat g).
    { apply Hlines. apply in_map. exact Hin. }
    split; [exact Hne|]. unfold line_count.
    destruct Hsize as [Hle|(b & -> & Hb)].
    + left. rewrite Hl. exact Hle.
    + right. exists b. split; [reflexivity|].
      simpl in Hl. rewrite app_nil_r in Hl. rewrite Hl. exact Hb.
Qed.

Lemma split_keeps_blocks_whole_witness :
  1 <= 2 /\
  exists groups : list (list (list str)),
    split_content_smart Samples.two_records 2
    = Some (map (fun g => concat (concat g)) groups)
    /\ concat groups
       = filter nonempty (blocks_of (splitlines Samples.two_records))
    /\ Forall (fun g =>
                 g <> [] /\
                 (line_count (concat (concat g)) <= 2
                  \/ exists b, g = [b] /\ 2 < line_count (concat b)))
              groups.
Proof.
  split; [lia|]. apply (split_keeps_blocks_whole Samples.two_records 2). lia.
Defined.

End SplitterClaims.

(** ** The ignore-pattern matcher *)

Section IgnoreClaims.
Import PyStr PySeq Fnmatch Ignore.

(** One turn of the loop returns exactly when the pattern matches, and then
    the verdict is the opposite of the negation flag. *)
Lemma check_pattern_matches (rel_path : str) (is_dir : bool) (pattern : str) :
  check_pattern rel_path is_dir pattern
  = if matches pattern rel_path is_dir
    then Return (negb (negated pattern))
    else Continue.
Proof.
  unfold check_pattern, matches, pattern_body, dir_only, negated.
  destruct (startswith pattern [BANG]) eqn:Hneg.
  - destruct (tl pattern) as [|c t] eqn:Ht; [reflexivity|].
    cbn [nonempty negb andb].
    destruct (rstrip_by is_slash (c :: t)) as [|c2 t2] eqn:Hr; [reflexivity|].
    cbn [nonempty negb andb].
    destruct (startswith (c2 :: t2) [SLASH]);
      destruct is_dir; destruct (endswith_char (c :: t) SLASH);
      cbn [negb andb orb];
      repeat match goal with
             | |- context [fnmatchcase ?a ?b] => destruct (fnmatchcase a b)
             | |- context [PyStr.startswith ?a ?b] => destruct (PyStr.startswith a b)
             | |- context [existsb ?f ?l] => destruct (existsb f l)
             end; reflexivity.
  - cbn [andb].
    destruct (rstrip_by is_slash pattern) as [|c2 t2] eqn:Hr; [reflexivity|].
    cbn [nonempty negb andb].
    destruct (startswith (c2 :: t2) [SLASH]);
      destruct is_dir; destruct (endswith_char pattern SLASH);
      cbn [negb andb orb];
      repeat match goal with
             | |- context [fnmatchcase ?a ?b] => destruct (fnmatchcase a b)
             | |- context [PyStr.startswith ?a ?b] => destruct (PyStr.startswith a b)
             | |- context [existsb ?f ?l] => destruct (existsb f l)
             end; reflexivity.
Qed.

(** C3: first match decides.  For every ordered list of ignore patterns and
    every relative path with its directory flag, the verdict of
    [_is_excluded_by_gitignore] is given by the first pattern, in
    declaration order, that matches: excluded if that pattern is not
    negated, not excluded if it is negated, whatever the patterns after it;
    not excluded when no pattern matches. *)
Theorem gitignore_first_match_decides (patterns : list str) (rel_path : str)
  (is_dir : bool) :
  _is_excluded_by_gitignore patterns rel_path is_dir
  = match find (fun p => matches p rel_path is_dir) patterns with
    | Some p => negb (negated p)
    | None => false
    end.
Proof.
  induction patterns as [|p ps IH]; [reflexivity|].
  simpl. rewrite check_pattern_matches.
  destruct (matches p rel_path is_dir); [reflexivity|exact IH].
Qed.

(** C10: a pattern that is empty once its leading [!] and its trailing
    slashes are removed is skipped: the loop goes on to the next pattern,
    and the verdict is the one of the list without it. *)
Theorem degenerate_pattern_skipped (before after : list str)
  (pattern rel_path : str) (is_dir : bool) :
  pattern_body pattern = [] ->
  check_pattern rel_path is_dir pattern = Continue
  /\ matches pattern rel_path is_dir = false
  /\ _is_excluded_by_gitignore (before ++ pattern :: after) rel_path is_dir
     = _is_excluded_by_gitignore (before ++ after) rel_path is_dir.
Proof.
  intros Hbody.
  assert (Hm : matches pattern rel_path is_dir = false).
  { unfold matches. rewrite Hbody. reflexivity. }
  assert (Hc : check_pattern rel_path is_dir pattern = Continue).
  { rewrite check_pattern_matches, Hm. reflexivity. }
  split; [exact Hc|]. split; [exact Hm|].
  induction before as [|q qs IH]; simpl.
  - rewrite Hc. reflexivity.
  - destruct (check_pattern rel_path is_dir q); [exact IH|reflexivity].
Qed.

Lemma degenerate_pattern_skipped_witness :
  pattern_body (lit "!/") = [] /\
  check_pattern (lit "src/main.py") false (lit "!/") = Continue
  /\ matches (lit "!/") (lit "src/main.py") false = false
  /\ _is_excluded_by_gitignore ([lit "!"] ++ lit "!/" :: [lit "*.py"])
       (lit "src/main.py") false
     = _is_excluded_by_gitignore ([lit "!"] ++ [lit "*.py"])
         (lit "src/main.py") false.
Proof.
  split; [reflexivity|].
  apply (degenerate_pattern_skipped [lit "!"] [lit "*.py"] (lit "!/")
           (lit "src/main.py") false).
  reflexivity.
Defined.

(** *** Loading the ignore file *)

Lemma fold_load_line (lines : list str) :
  forall acc,
    fold_left load_line lines acc
    = acc ++ filter kept_line (map strip lines).
Proof.
  induction lines as [|l ls IH]; intros acc; cbn [fold_left map filter].
  - rewrite app_nil_r. reflexivity.
  - rewrite IH. unfold load_line, kept_line.
    destruct (nonempty (strip l) && negb (startswith (strip l) [HASH]));
      [|reflexivity].
    rewrite <- app_assoc. reflexivity.
Qed.

(** C7, as the code has it: every line of the ignore file is first stripped
    of its leading and trailing whitespace; the lines that are then empty or
    begin with [#] are skipped, and the others are passed on, in order, in
    their stripped form. *)
Theorem load_gitignore_strips (text : str) :
  _load_gitignore true (Some text)
  = filter kept_line (map strip (readlines text)).
Proof.
  unfold _load_gitignore. apply (fold_load_line (readlines text) []).
Qed.

(** C7 fails as stated: the pattern loaded from the line [" foo "] is
    ["foo"], which is no line of the file, with or without its newline. *)
Lemma load_gitignore_not_verbatim :
  ~ (forall text p,
       In p (_load_gitignore true (Some text)) ->
       exists line,
         In line (readlines text) /\ (line = p \/ line = p ++ [LF])).
Proof.
  intros H.
  destruct (H Samples.padded_gitignore (lit "foo")) as (line & Hin & Hl).
  - left. reflexivity.
  - destruct Hin as [<-|[]]. destruct Hl as [Hl|Hl]; discriminate Hl.
Qed.

End IgnoreClaims.

(** ** Wildcards across directory separators *)

Section GlobClaims.
Import PyStr PySeq Fnmatch Ignore.

Lemma tokenize_plain (a rest : str) :
  forallb plain_char a = true ->
  tokenize (a ++ rest) None = map Lit a ++ tokenize rest None.
Proof.
  induction a as [|c a IH]; intros H; [reflexivity|].
  simpl in H. apply andb_prop in H as [Hc Ha].
  unfold plain_char in Hc. apply negb_true_iff in Hc.
  apply orb_false_iff in Hc as [Hc H3]. apply orb_false_iff in Hc as [H1 H2].
  simpl. rewrite H1, H2, H3, (IH Ha). reflexivity.
Qed.

Lemma match_toks_lits (a : str) (ts : list tok) (s : str) :
  match_toks (map Lit a ++ ts) (a ++ s) = match_toks ts s.
Proof.
  induction a as [|c a IH]; [reflexivity|].
  simpl. unfold char_eqb. rewrite N.eqb_refl. exact IH.
Qed.

Lemma match_toks_star_cons (ts : list tok) (c : char) (s : str) :
  match_toks (Star :: ts) (c :: s)
  = match_toks ts (c :: s) || match_toks (Star :: ts) s.
Proof. reflexivity. Qed.

Lemma match_toks_star_here (ts : list tok) (s : str) :
  match_toks ts s = true -> match_toks (Star :: ts) s = true.
Proof.
  intros H. destruct s as [|c s].
  - simpl. rewrite H. reflexivity.
  - rewrite match_toks_star_cons, H. reflexivity.
Qed.

(** A star takes any run of characters, whatever they are. *)
Lemma match_toks_star_run (m : str) (ts : list tok) (s : str) :
  match_toks ts s = true -> match_toks (Star :: ts) (m ++ s) = true.
Proof.
  intros H. induction m as [|c m IH].
  - apply match_toks_star_here, H.
  - simpl app. rewrite match_toks_star_cons, IH. apply orb_true_r.
Qed.

Lemma fnmatchcase_star (a b m : str) :
  forallb plain_char a = true -> forallb plain_char b = true ->
  fnmatchcase (a ++ m ++ b) (a ++ STAR :: b) = true.
Proof.
  intros Ha Hb. unfold fnmatchcase.
  rewrite (tokenize_plain a (STAR :: b) Ha).
  change (tokenize (STAR :: b) None) with (Star :: tokenize b None).
  assert (Htb : tokenize b None = map Lit b).
  { pose proof (tokenize_plain b [] Hb) as H.
    rewrite app_nil_r in H. simpl tokenize in H. rewrite app_nil_r in H.
    exact H. }
  rewrite Htb, match_toks_lits. apply match_toks_star_run.
  pose proof (match_toks_lits b [] []) as H.
  rewrite !app_nil_r in H. exact H.
Qed.

Lemma rstrip_by_keep (p : char -> bool) (t : str) :
  forallb (fun c => negb (p c)) t = true -> rstrip_by p t = t.
Proof.
  induction t as [|c t IH]; intros H; [reflexivity|].
  simpl in H. apply andb_prop in H as [Hc Ht]. apply negb_true_iff in Hc.
  simpl. rewrite (IH Ht), Hc. destruct t; reflexivity.
Qed.

Lemma rstrip_by_app_keep (p : char -> bool) (s t : str) :
  t <> [] -> forallb (fun c => negb (p c)) t = true ->
  rstrip_by p (s ++ t) = s ++ t.
Proof.
  intros Hne Ht. induction s as [|c s IH].
  - apply rstrip_by_keep, Ht.
  - simpl. rewrite IH. destruct (s ++ t) eqn:Hst; [|reflexivity].
    apply app_eq_nil in Hst as [_ Hst]. congruence.
Qed.

Lemma endswith_char_app_keep (c : char) (s t : str) :
  t <> [] -> forallb (fun x => negb (char_eqb x c)) t = true ->
  endswith_char (s ++ t) c = false.
Proof.
  intros Hne Ht. induction s as [|x s IH].
  - simpl. induction t as [|y t IHt]; [congruence|].
    simpl in Ht. apply andb_prop in Ht as [Hy Ht'].
    apply negb_true_iff in Hy.
    destruct t as [|z t]; [exact Hy|].
    change (endswith_char (y :: z :: t) c) with (endswith_char (z :: t) c).
    apply IHt; [discriminate|exact Ht'].
  - simpl app. destruct (s ++ t) eqn:Hst.
    + apply app_eq_nil in Hst as [_ Hst]. congruence.
    + exact IH.
Qed.

Lemma plain_text_split (s : str) :
  plain_text s = true ->
  forallb plain_char s = true
  /\ forallb (fun c => negb (is_slash c)) s = true.
Proof.
  unfold plain_text. induction s as [|c s IH]; intros H; [split; reflexivity|].
  simpl in H. apply andb_prop in H as [Hc Hs].
  apply andb_prop in Hc as [H1 H2]. destruct (IH Hs) as [Ha Hb].
  simpl. rewrite H1, H2, Ha, Hb. split; reflexivity.
Qed.

(** C8, as the code has it: a rooted pattern is matched against the whole
    relative path, and its star takes any run of characters, slashes
    included.  The rooted pattern made of a plain text, a star and a plain
    text matches every path that starts with the first text and ends with
    the second, whatever lies in between. *)
Theorem rooted_star_spans_separators (a b m : str) (is_dir : bool) :
  plain_text a = true -> plain_text b = true ->
  check_pattern (a ++ m ++ b) is_dir ([SLASH] ++ a ++ [STAR] ++ b)
  = Return true.
Proof.
  intros Ha Hb.
  destruct (plain_text_split a Ha) as [Ha1 Ha2].
  destruct (plain_text_split b Hb) as [Hb1 Hb2].
  change ([SLASH] ++ a ++ [STAR] ++ b) with ((SLASH :: a) ++ (STAR :: b)).
  assert (Htail : forallb (fun c => negb (is_slash c)) (STAR :: b) = true).
  { simpl. exact Hb2. }
  unfold check_pattern.
  assert (Hbang : startswith ((SLASH :: a) ++ STAR :: b) [BANG] = false)
    by reflexivity.
  rewrite Hbang.
  cbn [andb].
  rewrite (rstrip_by_app_keep is_slash (SLASH :: a) (STAR :: b))
    by (try discriminate; exact Htail).
  rewrite (endswith_char_app_keep SLASH (SLASH :: a) (STAR :: b))
    by (try discriminate; exact Htail).
  assert (Hroot : startswith ((SLASH :: a) ++ STAR :: b) [SLASH] = true)
    by reflexivity.
  rewrite Hroot.
  change (nonempty ((SLASH :: a) ++ STAR :: b)) with true.
  cbn [negb andb].
  assert (Hl : lstrip_by is_slash ((SLASH :: a) ++ STAR :: b) = a ++ STAR :: b).
  { change (lstrip_by is_slash ((SLASH :: a) ++ STAR :: b))
      with (lstrip_by is_slash (a ++ STAR :: b)).
    destruct a as [|c a']; [reflexivity|].
    simpl in Ha2. apply andb_prop in Ha2 as [Hc _].
    apply negb_true_iff in Hc. simpl. rewrite Hc. reflexivity. }
  rewrite Hl, (fnmatchcase_star a b m Ha1 Hb1). reflexivity.
Qed.

Lemma rooted_star_spans_separators_witness :
  plain_text [] = true /\ plain_text (lit ".py") = true /\
  check_pattern ([] ++ lit "a/x" ++ lit ".py") false
    ([SLASH] ++ [] ++ [STAR] ++ lit ".py")
  = Return true.
Proof.
  split; [reflexivity|]. split; [reflexivity|].
  apply (rooted_star_spans_separators [] (lit ".py") (lit "a/x") false);
    reflexivity.
Defined.

(** C8 fails as stated: the rooted pattern [/*.py], which has a wildcard and
    no further slash, matches the path [a/x.py]; its star covers [a/x],
    across the separator, and the match does not come from the directory
    prefix rule. *)
Lemma rooted_star_matches_across_slash :
  check_pattern (lit "a/x.py") false (lit "/*.py") = Return true
  /\ matches (lit "/*.py") (lit "a/x.py") false = true
  /\ fnmatchcase (lit "a/x.py") (lit "*.py") = true
  /\ contains_char SLASH (lit "a/x.py") = true
  /\ startswith (lit "a/x.py") (lit "*.py" ++ [SLASH]) = false.
Proof. repeat split; reflexivity. Qed.

End GlobClaims.


(** ** Names and paths *)

Section Paths.
Import PyStr PySeq Worker TreeInv.

Lemma str_eqb_eq (a b : str) : str_eqb a b = true <-> a = b.
Proof.
  revert b. induction a as [|x a IH]; intros [|y b]; simpl;
    try (split; [discriminate|discriminate]); [split; reflexivity|].
  unfold char_eqb. rewrite andb_true_iff, N.eqb_eq, IH.
  split; [intros [-> ->]; reflexivity|intros H; injection H; auto].
Qed.

Lemma mem_In (x : str) (l : list str) : mem x l = true <-> In x l.
Proof.
  unfold mem. rewrite existsb_exists. split.
  - intros (y & Hy & Heq). apply str_eqb_eq in Heq. subst. exact Hy.
  - intros H. exists x. split; [exact H|]. apply str_eqb_eq. reflexivity.
Qed.

Lemma char_eqb_sym (a b : char) : char_eqb a b = char_eqb b a.
Proof. unfold char_eqb. apply N.eqb_sym. Qed.

Lemma no_slash_forallb (s : str) :
  contains_char SLASH s = false ->
  forallb (fun x => negb (char_eqb x SLASH)) s = true.
Proof.
  unfold contains_char. induction s as [|c s IH]; intros H; [reflexivity|].
  simpl in *. apply orb_false_iff in H as [Hc Hs].
  rewrite (char_eqb_sym c SLASH), Hc, (IH Hs). reflexivity.
Qed.

Lemma name_ok_inv (d : str) :
  name_ok d = true -> d <> [] /\ contains_char SLASH d = false.
Proof.
  unfold name_ok. intros H. apply andb_prop in H as [H1 H2].
  apply negb_true_iff in H2. split; [|exact H2].
  destruct d; [discriminate|discriminate].
Qed.

Lemma join_snoc (sep : str) (names : list str) (d : str) :
  names <> [] -> join sep (names ++ [d]) = join sep names ++ sep ++ d.
Proof.
  induction names as [|x names IH]; intros Hne; [congruence|].
  destruct names as [|y r]; [reflexivity|].
  change (join sep ((x :: y :: r) ++ [d]))
    with (x ++ sep ++ join sep ((y :: r) ++ [d])).
  rewrite IH by discriminate.
  change (join sep (x :: y :: r)) with (x ++ sep ++ join sep (y :: r)).
  rewrite <- !app_assoc. reflexivity.
Qed.

Lemma join_names_nonempty (names : list str) :
  names <> [] -> Forall (fun n => name_ok n = true) names ->
  nonempty (join [SLASH] names) = true.
Proof.
  intros Hne Hok. destruct names as [|x r]; [congruence|].
  inversion Hok as [|? ? Hx _]; subst.
  apply name_ok_inv in Hx as [Hx _].
  destruct x as [|c x]; [congruence|]. destruct r; reflexivity.
Qed.

Lemma join_names_no_trailing_slash (names : list str) :
  names <> [] -> Forall (fun n => name_ok n = true) names ->
  endswith_char (join [SLASH] names) SLASH = false.
Proof.
  intros Hne Hok.
  destruct (exists_last Hne) as (init & d & ->).
  apply Forall_app in Hok as [_ Hd]. inversion Hd as [|? ? Hd' _]; subst.
  apply name_ok_inv in Hd' as [Hdne Hds].
  destruct init as [|x init].
  - simpl. apply (endswith_char_app_keep SLASH [] d Hdne).
    apply no_slash_forallb, Hds.
  - rewrite join_snoc by discriminate. rewrite app_assoc.
    apply (endswith_char_app_keep SLASH _ d Hdne).
    apply no_slash_forallb, Hds.
Qed.

Lemma name_not_rooted (d : str) :
  name_ok d = true -> startswith d [SLASH] = false.
Proof.
  intros H. apply name_ok_inv in H as [Hne Hs].
  destruct d as [|c d]; [congruence|].
  unfold contains_char in Hs. simpl in Hs.
  apply orb_false_iff in Hs as [Hc _].
  unfold startswith. rewrite (char_eqb_sym c SLASH), Hc. reflexivity.
Qed.

(** The relative path of an entry is the join of the names leading to it. *)
Lemma rel_join_names (rnames : list str) (d : str) :
  Forall (fun n => name_ok n = true) rnames -> name_ok d = true ->
  rel_join (join [SLASH] rnames) d = join [SLASH] (rnames ++ [d]).
Proof.
  intros Hok Hd. unfold rel_join.
  destruct rnames as [|x r]; [reflexivity|].
  rewrite (join_names_nonempty (x :: r)) by (try discriminate; exact Hok).
  unfold OsPath.join. rewrite (name_not_rooted d Hd).
  pose proof (join_names_nonempty (x :: r) ltac:(discriminate) Hok) as Hn.
  destruct (join [SLASH] (x :: r)) as [|c t] eqn:Hj; [discriminate|].
  rewrite <- Hj.
  rewrite (join_names_no_trailing_slash (x :: r))
    by (try discriminate; exact Hok).
  rewrite join_snoc by discriminate. reflexivity.
Qed.

Lemma basename_no_slash (s : str) :
  contains_char SLASH s = false -> OsPath.basename s = s.
Proof.
  unfold contains_char.
  destruct s as [|c s]; intros H; [reflexivity|].
  simpl in H. apply orb_false_iff in H as [Hc Hs].
  simpl. unfold contains_char. rewrite Hs, (char_eqb_sym c SLASH), Hc.
  reflexivity.
Qed.

Lemma basename_after_slash (a b : str) :
  OsPath.basename (a ++ [SLASH] ++ b) = OsPath.basename b.
Proof.
  induction a as [|c a IH].
  - simpl app. cbn [OsPath.basename].
    destruct (contains_char SLASH b) eqn:Hb; [reflexivity|].
    unfold char_eqb. rewrite N.eqb_refl.
    symmetry. apply basename_no_slash, Hb.
  - simpl app. cbn [OsPath.basename].
    assert (H : contains_char SLASH (a ++ SLASH :: b) = true).
    { unfold contains_char. rewrite existsb_app. cbn [existsb].
      replace (char_eqb SLASH SLASH) with true by reflexivity.
      cbn [orb]. apply orb_true_r. }
    rewrite H. exact IH.
Qed.

Lemma basename_join (names : list str) :
  names <> [] -> Forall (fun n => name_ok n = true) names ->
  OsPath.basename (join [SLASH] names) = last names [].
Proof.
  intros Hne Hok.
  destruct (exists_last Hne) as (init & d & ->).
  apply Forall_app in Hok as [_ Hd]. inversion Hd as [|? ? Hd' _]; subst.
  apply name_ok_inv in Hd' as [_ Hds].
  rewrite last_last.
  destruct init as [|x init].
  - simpl. apply basename_no_slash, Hds.
  - rewrite join_snoc by discriminate.
    rewrite basename_after_slash. apply basename_no_slash, Hds.
Qed.

(** A path that starts with [n1/...] and a prefix ending in a slash. *)
Lemma prefix_split (n1 r q : str) :
  contains_char SLASH n1 = false ->
  startswith (n1 ++ [SLASH] ++ r) (q ++ [SLASH]) = true ->
  q = n1
  \/ exists q', q = n1 ++ [SLASH] ++ q' /\ startswith r (q' ++ [SLASH]) = true.
Proof.
  revert q. induction n1 as [|c n1 IH]; intros q Hn H.
  - destruct q as [|x q]; [left; reflexivity|].
    right. simpl in H. unfold startswith in H. fold startswith in H.
    apply andb_prop in H as [Hx Hr].
    unfold char_eqb in Hx. apply N.eqb_eq in Hx. subst x.
    exists q. split; [reflexivity|exact Hr].
  - unfold contains_char in Hn. simpl in Hn.
    apply orb_false_iff in Hn as [Hc Hn].
    destruct q as [|x q].
    + simpl in H. unfold startswith in H.
      apply andb_prop in H as [Hx _].
      rewrite (char_eqb_sym c SLASH), Hc in Hx. discriminate.
    + simpl in H. unfold startswith in H. fold startswith in H.
      apply andb_prop in H as [Hx Hr].
      unfold char_eqb in Hx. apply N.eqb_eq in Hx. subst x.
      destruct (IH q Hn Hr) as [->|(q' & -> & Hq')].
      * left. reflexivity.
      * right. exists q'. split; [reflexivity|exact Hq'].
Qed.

Lemma startswith_no_slash (n q : str) :
  contains_char SLASH n = false -> startswith n (q ++ [SLASH]) = false.
Proof.
  revert q. unfold contains_char.
  induction n as [|c n IH]; intros q Hn.
  - destruct q; reflexivity.
  - simpl in Hn. apply orb_false_iff in Hn as [Hc Hn].
    destruct q as [|x q].
    + simpl. unfold startswith. rewrite (char_eqb_sym c SLASH), Hc.
      reflexivity.
    + simpl. unfold startswith. fold startswith.
      rewrite (IH q Hn). apply andb_false_r.
Qed.

(** Whatever lies under [q/] in a path made of names has the base name of
    [q] among its directories. *)
Lemma under_prefix (names : list str) :
  Forall (fun n => name_ok n = true) names ->
  forall q,
    startswith (join [SLASH] names) (q ++ [SLASH]) = true ->
    In (OsPath.basename q) (removelast names).
Proof.
  induction names as [|n1 names IH]; intros Hok q H.
  - destruct q; discriminate.
  - inversion Hok as [|? ? Hn1 Hrest]; subst.
    apply name_ok_inv in Hn1 as [_ Hs1].
    destruct names as [|n2 r].
    + simpl in H. rewrite (startswith_no_slash n1 q Hs1) in H. discriminate.
    + change (join [SLASH] (n1 :: n2 :: r))
        with (n1 ++ [SLASH] ++ join [SLASH] (n2 :: r)) in H.
      change (removelast (n1 :: n2 :: r)) with (n1 :: removelast (n2 :: r)).
      destruct (prefix_split n1 _ q Hs1 H) as [->|(q' & -> & Hq')].
      * left. symmetry. apply basename_no_slash, Hs1.
      * right. rewrite basename_after_slash. apply (IH Hrest q' Hq').
Qed.

End Paths.

(** ** The traversal *)

Section Traversal.
Import PyStr PySeq Worker TreeInv.

Lemma node_induction (P : node -> Prop) :
  (forall f, P (File f)) ->
  (forall d children, Forall P children -> P (Dir d children)) ->
  forall n, P n.
Proof.
  intros Hfile Hdir. fix IH 1. intros [f|d children].
  - apply Hfile.
  - apply Hdir. induction children as [|c cs IHcs]; constructor.
    + apply IH.
    + exact IHcs.
Qed.

Lemma keep_by_gitignore_filter (w : worker) (rel_root : str)
  (dirs : list str) :
  keep_by_gitignore w rel_root dirs
  = filter (fun d => negb (Ignore._is_excluded_by_gitignore
                             (gitignore_patterns w) (rel_join rel_root d) true))
           dirs.
Proof.
  unfold keep_by_gitignore.
  assert (G : forall acc,
             fold_left
               (fun final_dirs d =>
                  if Ignore._is_excluded_by_gitignore (gitignore_patterns w)
                       (rel_join rel_root d) true
                  then final_dirs else final_dirs ++ [d]) dirs acc
             = acc ++ filter
                        (fun d => negb (Ignore._is_excluded_by_gitignore
                                          (gitignore_patterns w)
                                          (rel_join rel_root d) true)) dirs).
  { induction dirs as [|d ds IH]; intros acc; cbn [fold_left filter].
    - rewrite app_nil_r. reflexivity.
    - rewrite IH.
      destruct (Ignore._is_excluded_by_gitignore (gitignore_patterns w)
                  (rel_join rel_root d) true); cbn [negb];
        [reflexivity|rewrite <- app_assoc; reflexivity]. }
  apply (G []).
Qed.

Lemma final_dirs_In (w : worker) (rel_root : str) (dirs : list str) (d : str) :
  In d (final_dirs w rel_root dirs) ->
  In d dirs
  /\ mem d (exclude_dirs w) = false
  /\ Ignore._is_excluded_by_gitignore (gitignore_patterns w)
       (rel_join rel_root d) true = false.
Proof.
  unfold final_dirs, keep_by_name. rewrite keep_by_gitignore_filter.
  intros H. apply filter_In in H as [H Hg]. apply filter_In in H as [H Hn].
  apply negb_true_iff in Hg, Hn. auto.
Qed.

Lemma dir_names_In (children : list node) (d : str) :
  In d (dir_names children) -> exists sub, In (Dir d sub) children.
Proof.
  induction children as [|[f|d' sub] cs IH]; simpl; intros H.
  - contradiction.
  - destruct (IH H) as (s & Hs). exists s. right. exact Hs.
  - destruct H as [<-|H].
    + exists sub. left. reflexivity.
    + destruct (IH H) as (s & Hs). exists s. right. exact Hs.
Qed.

Lemma file_names_In (children : list node) (f : str) :
  In f (file_names children) -> In (File f) children.
Proof.
  induction children as [|[f'|d' sub] cs IH]; simpl; intros H.
  - contradiction.
  - destruct H as [<-|H]; [left; reflexivity|right; apply IH, H].
  - right. apply IH, H.
Qed.

Lemma add_dir_items (rel_root : str) (ds : list str) :
  forall c it,
    In it (collected_items (fold_left (add_dir rel_root) ds c)) ->
    In it (collected_items c)
    \/ exists d, In d ds /\ it = (rel_join rel_root d, true).
Proof.
  induction ds as [|d ds IH]; intros c it H; [left; exact H|].
  simpl in H. destruct (IH _ _ H) as [H'|(d' & Hd' & ->)].
  - unfold add_dir in H'.
    destruct (mem (rel_join rel_root d) (processed_paths c)).
    + left. exact H'.
    + cbn [collected_items] in H'. apply in_app_or in H' as [H'|[<-|[]]].
      * left. exact H'.
      * right. exists d. split; [left; reflexivity|reflexivity].
  - right. exists d'. split; [right; exact Hd'|reflexivity].
Qed.

Lemma add_file_items (w : worker) (rel_root : str) (fs : list str) :
  forall c it,
    In it (collected_items (fold_left (add_file w rel_root) fs c)) ->
    In it (collected_items c)
    \/ exists f, In f fs /\ it = (rel_join rel_root f, false).
Proof.
  induction fs as [|f fs IH]; intros c it H; [left; exact H|].
  simpl in H. destruct (IH _ _ H) as [H'|(f' & Hf' & ->)].
  - unfold add_file in H'.
    repeat match type of H' with
           | context [if ?b then _ else _] => destruct b
           end; cbn [collected_items] in H'; try (left; exact H').
    apply in_app_or in H' as [H'|[<-|[]]].
    + left. exact H'.
    + right. exists f. split; [left; reflexivity|reflexivity].
  - right. exists f'. split; [right; exact Hf'|reflexivity].
Qed.

Lemma visit_items (w : worker) (rel_root : str) (dirs files : list str)
  (c : collection) (it : item) :
  In it (collected_items (visit w rel_root dirs files c)) ->
  In it (collected_items c)
  \/ (exists d, In d (final_dirs w rel_root dirs)
                /\ it = (rel_join rel_root d, true))
  \/ (exists f, In f files /\ it = (rel_join rel_root f, false)).
Proof.
  unfold visit. intros H.
  apply add_file_items in H as [H|H]; [|right; right; exact H].
  apply add_dir_items in H as [H|H]; [left; exact H|right; left; exact H].
Qed.

Lemma names_ok_children (children : list node) (child : node) :
  forallb names_ok children = true -> In child children ->
  names_ok child = true.
Proof.
  intros H Hin. rewrite forallb_forall in H. apply H, Hin.
Qed.

Lemma walk_children_allowed (w : worker) (rnames kept : list str)
  (l : list node) :
  Forall (fun x => name_ok x = true) rnames ->
  Forall (fun d => mem d (exclude_dirs w) = false) rnames ->
  (forall d, mem d kept = true -> mem d (exclude_dirs w) = false) ->
  Forall (fun n => names_ok n = true) l ->
  Forall (walk_keeps_allowed w) l ->
  forall c,
    all_allowed w c ->
    all_allowed w
      (fold_left
         (fun c child =>
            match child with
            | Dir d _ =>
                if mem d kept
                then walk w (rel_join (join [SLASH] rnames) d) child c
                else c
            | File _ => c
            end) l c).
Proof.
  intros Hnames Hexcl Hkept Hok IH. revert Hok.
  induction IH as [|child l Hchild _ IHl]; intros Hok c Hc; [exact Hc|].
  inversion Hok as [|? ? Hn Hl]; subst.
  cbn [fold_left]. apply (IHl Hl).
  destruct child as [f|d sub]; [exact Hc|].
  destruct (mem d kept) eqn:Hk; [|exact Hc].
  cbn [names_ok] in Hn. apply andb_prop in Hn as [Hd Hsub].
  rewrite (rel_join_names rnames d Hnames Hd).
  apply Hchild.
  - exact Hsub.
  - apply Forall_app. split; [exact Hnames|]. constructor; [exact Hd|constructor].
  - apply Forall_app. split; [exact Hexcl|].
    constructor; [apply Hkept, Hk|constructor].
  - exact Hc.
Qed.

(** Every item the traversal collects is an allowed one. *)
Lemma walk_allowed (w : worker) (n : node) : walk_keeps_allowed w n.
Proof.
  induction n as [f|dname children IH] using node_induction;
    intros rnames c Hok Hnames Hexcl Hc.
  - exact Hc.
  - cbn [tree_ok] in Hok. cbn [walk].
    apply walk_children_allowed; try assumption.
    + intros d Hd. apply mem_In in Hd.
      apply final_dirs_In in Hd as (_ & Hmem & _). exact Hmem.
    + apply Forall_forall. intros child Hin.
      apply (names_ok_children children child Hok Hin).
    + intros it1 H1.
      apply visit_items in H1 as [H1|[(d & Hd & ->)|(f & Hf & ->)]].
      * exact (Hc it1 H1).
      * apply final_dirs_In in Hd as (Hd & Hmem & _).
        apply dir_names_In in Hd as (sub & Hsub).
        pose proof (names_ok_children _ _ Hok Hsub) as Hn.
        cbn [names_ok] in Hn. apply andb_prop in Hn as [Hn _].
        exists (rnames ++ [d]). cbn [fst snd].
        split; [destruct rnames; discriminate|].
        split; [apply rel_join_names; assumption|].
        split; apply Forall_app; split; try assumption;
          constructor; try assumption; constructor.
      * apply file_names_In in Hf.
        pose proof (names_ok_children _ _ Hok Hf) as Hn. cbn [names_ok] in Hn.
        exists (rnames ++ [f]). cbn [fst snd].
        split; [destruct rnames; discriminate|].
        split; [apply rel_join_names; assumption|].
        split.
        -- apply Forall_app. split; [assumption|].
           constructor; [assumption|constructor].
        -- rewrite removelast_last. exact Hexcl.
Qed.

Lemma insert_item_In (x y : item) (l : list item) :
  In y (insert_item x l) <-> y = x \/ In y l.
Proof.
  induction l as [|z l IH]; simpl.
  - split; [intros [<-|[]]; left; reflexivity|intros [->|[]]; left; reflexivity].
  - destruct (item_leb x z); simpl.
    + split; [intros [<-|H]; [left; reflexivity|right; exact H]
             |intros [->|H]; [left; reflexivity|right; exact H]].
    + rewrite IH. split.
      * intros [<-|[->|H]]; [right; left; reflexivity|left; reflexivity
                            |right; right; exact H].
      * intros [->|[<-|H]]; [right; left; reflexivity|left; reflexivity
                            |right; right; exact H].
Qed.

(** Sorting neither adds nor drops an item. *)
Lemma sort_items_In (y : item) (l : list item) :
  In y (sort_items l) <-> In y l.
Proof.
  unfold sort_items. induction l as [|x l IH]; simpl; [reflexivity|].
  rewrite insert_item_In, IH. split; intros [H|H]; auto.
Qed.

Lemma collect_allowed (w : worker) (root : node) (it : item) :
  tree_ok root = true -> In it (collect w root) -> allowed w it.
Proof.
  intros Hok Hin. unfold collect in Hin.
  apply (proj1 (sort_items_In _ _)) in Hin.
  apply (walk_allowed w root [] (mkCollection [] []) Hok
           (Forall_nil _) (Forall_nil _)); [|exact Hin].
  intros it0 [].
Qed.

End Traversal.

(** ** The claims on the tree collector *)

Section CollectorClaims.
Import PyStr PySeq Fnmatch Ignore Worker TreeInv.

Lemma removelast_In {A} (x : A) (l : list A) : In x (removelast l) -> In x l.
Proof.
  induction l as [|y l IH]; [intros []|].
  destruct l as [|z l]; [intros []|].
  change (removelast (y :: z :: l)) with (y :: removelast (z :: l)).
  intros [<-|H]; [left; reflexivity|right; apply IH, H].
Qed.

Lemma last_In {A} (l : list A) (d : A) : l <> [] -> In (last l d) l.
Proof.
  intros Hne. destruct (exists_last Hne) as (init & x & ->).
  rewrite last_last. apply in_or_app. right. left. reflexivity.
Qed.

(** C5: excluding a directory by name prunes its whole subtree.  For every
    rule set, every tree whose names are not empty and hold no slash, and
    every directory path whose base name is in the set of excluded
    directory names, the collected tree holds neither that directory nor
    any entry, file or directory, below it. *)
Theorem excluded_directory_pruned (w : worker) (root : node) (q : str) :
  tree_ok root = true ->
  mem (OsPath.basename q) (exclude_dirs w) = true ->
  ~ In (q, true) (collect w root)
  /\ forall p b,
       In (p, b) (collect w root) -> startswith p (q ++ [SLASH]) = false.
Proof.
  intros Hok Hq. split.
  - intros Hin.
    destruct (collect_allowed w root _ Hok Hin)
      as (names & Hne & Hp & Hnames & Hexcl).
    cbn [fst snd] in *. subst q.
    rewrite (basename_join names Hne Hnames) in Hq.
    rewrite Forall_forall in Hexcl.
    rewrite (Hexcl _ (last_In names [] Hne)) in Hq. discriminate.
  - intros p b Hin.
    destruct (collect_allowed w root _ Hok Hin)
      as (names & Hne & Hp & Hnames & Hexcl).
    cbn [fst snd] in *. subst p.
    destruct (startswith (join [SLASH] names) (q ++ [SLASH])) eqn:Hpre;
      [|reflexivity].
    pose proof (under_prefix names Hnames q Hpre) as Hunder.
    assert (Hmem : mem (OsPath.basename q) (exclude_dirs w) = false).
    { rewrite Forall_forall in Hexcl. apply Hexcl.
      destruct b; [apply removelast_In|]; exact Hunder. }
    rewrite Hmem in Hq. discriminate.
Qed.

Lemma excluded_directory_pruned_witness :
  tree_ok Samples.project_tree = true
  /\ mem (OsPath.basename (lit "node_modules"))
         (exclude_dirs (Samples.default_worker false)) = true
  /\ ~ In (lit "node_modules", true)
          (collect (Samples.default_worker false) Samples.project_tree)
  /\ forall p b,
       In (p, b) (collect (Samples.default_worker false) Samples.project_tree)
       -> startswith p (lit "node_modules" ++ [SLASH]) = false.
Proof.
  split; [reflexivity|]. split; [reflexivity|].
  apply (excluded_directory_pruned (Samples.default_worker false)
           Samples.project_tree (lit "node_modules")); reflexivity.
Defined.

Lemma project_tree_items (use_gitignore : bool) :
  collect (Samples.default_worker use_gitignore) Samples.project_tree
  = [(lit "a", true); (lit "a/b", true); (lit "a/x.py", false)].
Proof. destruct use_gitignore; vm_compute; reflexivity. Qed.

(** C6, as the code has it: with the default exclusion lists and no ignore
    file, the tree [a/x.py], [a/b/y.log], [node_modules/z.js] is collected
    as the directory [a], the directory [a/b] and the file [a/x.py];
    [node_modules] is pruned with its content and [a/b/y.log] is left out
    for its extension. *)
Theorem default_collection (use_gitignore : bool) :
  collect (Samples.default_worker use_gitignore) Samples.project_tree
  = [(lit "a", true); (lit "a/b", true); (lit "a/x.py", false)].
Proof. exact (project_tree_items use_gitignore). Qed.

(** C6 fails as stated: the collected tree is not the set made of [a],
    [a/x.py], [a/b] and [a/b/y.log], for [a/b/y.log] is not in it. *)
Lemma default_collection_without_log :
  ~ (forall it,
       In it (collect (Samples.default_worker false) Samples.project_tree)
       <-> In it [(lit "a", true); (lit "a/x.py", false); (lit "a/b", true);
                  (lit "a/b/y.log", false)]).
Proof.
  intros H. destruct (H (lit "a/b/y.log", false)) as [_ Hback].
  rewrite project_tree_items in Hback.
  destruct Hback as [E|[E|[E|[]]]];
    [right; right; right; left; reflexivity|..]; discriminate E.
Qed.

(** C4, as the code has it: with the patterns [build/] and
    [!build/keep.txt] and the files [build/tmp.o] and [build/keep.txt],
    nothing is collected, whatever the name-based exclusion lists: the
    directory [build] is excluded, by name or by the first pattern, and the
    traversal never enters it.  The ignore function itself excludes
    neither file: a directory pattern matches directories only. *)
Theorem build_directory_pruned (dirs files extensions : list str) :
  collect (Samples.build_worker dirs files extensions) Samples.build_tree = []
  /\ check_pattern (lit "build") true (lit "build/") = Return true
  /\ _is_excluded_by_gitignore Samples.build_patterns (lit "build") true = true
  /\ _is_excluded_by_gitignore Samples.build_patterns (lit "build/tmp.o") false
     = false
  /\ _is_excluded_by_gitignore Samples.build_patterns (lit "build/keep.txt")
       false = false.
Proof.
  split; [|repeat split; reflexivity].
  unfold collect, Samples.build_tree.
  cbn [walk dir_names file_names].
  unfold visit, final_dirs, keep_by_name.
  cbn [filter exclude_dirs Samples.build_worker].
  destruct (mem (lit "build") dirs); reflexivity.
Qed.

(** C4 fails as stated: the pattern [build/] does not match the files
    [build/tmp.o] and [build/keep.txt], so it does not decide first for
    them. *)
Lemma build_pattern_skips_files :
  matches (lit "build/") (lit "build/tmp.o") false = false
  /\ matches (lit "build/") (lit "build/keep.txt") false = false
  /\ check_pattern (lit "build/tmp.o") false (lit "build/") = Continue
  /\ check_pattern (lit "build/keep.txt") false (lit "build/") = Continue.
Proof. repeat split; reflexivity. Qed.

End CollectorClaims.

(** ** The output format *)

Section OutputClaims.
Import PyStr PySeq Worker TreeInv.

Lemma count_char_absent (c : char) (s : str) :
  contains_char c s = false -> count_char c s = O.
Proof.
  unfold contains_char, count_char.
  induction s as [|x s IH]; intros H; [reflexivity|].
  simpl in *. apply orb_false_iff in H as [Hx Hs].
  rewrite Hx. apply IH, Hs.
Qed.

(** The three-way computation of the indentation is the count of slashes. *)
Lemma indent_is_depth (rel_path : str) :
  (if Nat.eqb (count_char SLASH rel_path) 0 && contains_char SLASH rel_path
   then count_char SLASH rel_path
   else if nonempty rel_path && negb (contains_char SLASH rel_path)
        then O
        else count_char SLASH rel_path)
  = count_char SLASH rel_path.
Proof.
  destruct (Nat.eqb (count_char SLASH rel_path) 0
            && contains_char SLASH rel_path); [reflexivity|].
  destruct (contains_char SLASH rel_path) eqn:Hc.
  - rewrite andb_false_r. reflexivity.
  - rewrite (count_char_absent _ _ Hc).
    destruct (nonempty rel_path && negb false); reflexivity.
Qed.

Lemma failed_record (rel_path e : str) :
  lit ">>>File: " ++ rel_path ++ [LF; LF]
  ++ lit "[Error reading file: " ++ e ++ lit "]"
  ++ [LF; LF] ++ repeat_str (lit "=") 40 ++ [LF]
  = file_record rel_path (record_content (Failed e)).
Proof.
  unfold file_record, record_content.
  rewrite <- !app_assoc. reflexivity.
Qed.

Lemma render_item_lines (w : worker) (read : str -> file_data)
  (r : rendering) (it : item) :
  include_structure w || structure_only w = true ->
  fst it <> [] ->
  structure_lines (render_item w read r it)
  = structure_lines r ++ [entry_line it].
Proof.
  intros Hflag Hne. unfold render_item. rewrite Hflag.
  rewrite indent_is_depth.
  assert (Hn : nonempty (fst it) = true)
    by (destruct (fst it); [congruence|reflexivity]).
  rewrite Hn.
  assert (Hline :
    (repeat_str (lit "  ") (count_char SLASH (fst it))
     ++ (if snd it then DIR_MARKER else FILE_MARKER))
    ++ OsPath.basename (fst it) = entry_line it).
  { unfold entry_line. rewrite <- app_assoc. reflexivity. }
  rewrite Hline.
  destruct (negb (snd it) && negb (structure_only w)); [|reflexivity].
  destruct (read (fst it)); reflexivity.
Qed.

Lemma render_item_contents (w : worker) (read : str -> file_data)
  (r : rendering) (it : item) :
  structure_only w = false ->
  file_contents (render_item w read r it)
  = file_contents r
    ++ (if is_file it
        then [file_record (fst it) (record_content (read (fst it)))]
        else []).
Proof.
  intros Hso. unfold render_item, is_file. rewrite Hso.
  cbn [negb]. rewrite andb_true_r.
  set (r1 := if include_structure w || false then _ else r).
  assert (Hr1 : file_contents r1 = file_contents r).
  { subst r1. destruct (include_structure w || false); reflexivity. }
  destruct (negb (snd it)).
  - destruct (read (fst it)) as [c|c|e]; cbn [file_contents];
      rewrite Hr1; try reflexivity.
    rewrite failed_record. reflexivity.
  - rewrite Hr1, app_nil_r. reflexivity.
Qed.

Lemma render_fold_lines (w : worker) (read : str -> file_data)
  (items : list item) :
  include_structure w || structure_only w = true ->
  Forall (fun it => fst it <> []) items ->
  forall r,
    structure_lines (fold_left (render_item w read) items r)
    = structure_lines r ++ map entry_line items.
Proof.
  intros Hflag Hall. induction Hall as [|it items Hit _ IH]; intros r; simpl.
  - rewrite app_nil_r. reflexivity.
  - rewrite IH, (render_item_lines w read r it Hflag Hit), <- app_assoc.
    reflexivity.
Qed.

Lemma render_fold_contents (w : worker) (read : str -> file_data)
  (items : list item) :
  structure_only w = false ->
  forall r,
    file_contents (fold_left (render_item w read) items r)
    = file_contents r
      ++ map (fun it => file_record (fst it) (record_content (read (fst it))))
             (filter is_file items).
Proof.
  intros Hso. induction items as [|it items IH]; intros r; simpl.
  - rewrite app_nil_r. reflexivity.
  - rewrite IH, (render_item_contents w read r it Hso), <- app_assoc.
    destruct (is_file it); reflexivity.
Qed.

(** The summary and the combined content of a rendering, in closed form. *)
Lemma render_format (w : worker) (read : str -> file_data)
  (items : list item) :
  Forall (fun it => fst it <> []) items ->
  (include_structure w || structure_only w = true ->
   fst (fst (render w read items))
   = HEADER ++ join [LF] (map entry_line items) ++ [LF; LF])
  /\ (structure_only w = false ->
      snd (fst (render w read items))
      = concat (map (fun it =>
                       lit ">>>File: " ++ fst it ++ [LF; LF]
                       ++ record_content (read (fst it)) ++ [LF; LF]
                       ++ repeat_str (lit "=") 40 ++ [LF])
                    (filter is_file items))).
Proof.
  intros Hall. unfold render. split.
  - intros Hflag. rewrite Hflag. cbn [fst].
    rewrite (render_fold_lines w read items Hflag Hall). reflexivity.
  - intros Hso. rewrite Hso. cbn [fst snd negb].
    rewrite (render_fold_contents w read items Hso). reflexivity.
Qed.

Lemma collect_paths_nonempty (w : worker) (root : node) :
  tree_ok root = true ->
  Forall (fun it : item => fst it <> []) (collect w root).
Proof.
  intros Hok. apply Forall_forall. intros it Hin.
  destruct (collect_allowed w root it Hok Hin)
    as (names & Hne & Hp & Hnames & _).
  rewrite Hp. pose proof (join_names_nonempty names Hne Hnames) as H.
  destruct (join [SLASH] names); [discriminate|discriminate].
Qed.

(** C9: the output format, for a run over a tree whose names are not empty
    and hold no slash.  The structure summary, when it is asked for, is the
    fixed two-line header, then one line per collected entry
    made of two spaces per slash of the relative path, the marker of the
    entry kind and the base name, the lines joined by newlines and closed
    by two newlines.  Each file record is [">>>File: "], the relative path,
    two newlines, the content, two newlines, forty [=] and a newline, and
    the combined content is the records of the collected files in order. *)
Theorem output_format (w : worker) (gitignore : option str) (root : node)
  (read : str -> file_data) :
  tree_ok root = true ->
  (include_structure w || structure_only w = true ->
   fst (fst (run w gitignore root read))
   = HEADER
     ++ join [LF] (map entry_line (collect (loaded w gitignore) root))
     ++ [LF; LF])
  /\ (structure_only w = false ->
      snd (fst (run w gitignore root read))
      = concat (map (fun it =>
                       lit ">>>File: " ++ fst it ++ [LF; LF]
                       ++ record_content (read (fst it)) ++ [LF; LF]
                       ++ repeat_str (lit "=") 40 ++ [LF])
                    (filter is_file (collect (loaded w gitignore) root)))).
Proof.
  intros Hok. unfold run.
  apply (render_format (loaded w gitignore) read
           (collect (loaded w gitignore) root)).
  apply collect_paths_nonempty, Hok.
Qed.

Lemma output_format_witness :
  tree_ok Samples.project_tree = true
  /\ fst (fst (run (Samples.default_worker false) None Samples.project_tree
                 Samples.rendered_read))
     = HEADER
       ++ join [LF]
            (map entry_line
               (collect (loaded (Samples.default_worker false) None)
                  Samples.project_tree))
       ++ [LF; LF]
  /\ snd (fst (run (Samples.default_worker false) None Samples.project_tree
                 Samples.rendered_read))
     = concat (map (fun it =>
                      lit ">>>File: " ++ fst it ++ [LF; LF]
                      ++ record_content (Samples.rendered_read (fst it))
                      ++ [LF; LF] ++ repeat_str (lit "=") 40 ++ [LF])
                   (filter is_file
                      (collect (loaded (Samples.default_worker false) None)
                         Samples.project_tree))).
Proof.
  destruct (output_format (Samples.default_worker false) None
              Samples.project_tree Samples.rendered_read eq_refl)
    as [Hsummary Hcontent].
  split; [reflexivity|]. split.
  - apply Hsummary. reflexivity.
  - apply Hcontent. reflexivity.
Defined.

End OutputClaims.

(** ** More on the ignore-pattern matcher *)

Section IgnoreMore.
Import PyStr PySeq Fnmatch Ignore.

(** A pattern ending in a slash is for directories: on a path that is not
    a directory the loop passes every such pattern, so a list made of them
    excludes no file. *)
Theorem dir_patterns_spare_files (patterns : list str) (rel_path : str) :
  Forall (fun p => dir_only p = true) patterns ->
  _is_excluded_by_gitignore patterns rel_path false = false.
Proof.
  induction 1 as [|p ps Hp _ IH]; [reflexivity|].
  simpl. rewrite check_pattern_matches. unfold matches.
  rewrite Hp. cbn [negb andb]. rewrite andb_false_r. exact IH.
Qed.

Lemma dir_patterns_spare_files_witness :
  Forall (fun p => dir_only p = true) [lit "build/"; lit "!dist/"]
  /\ _is_excluded_by_gitignore [lit "build/"; lit "!dist/"]
       (lit "build/tmp.o") false = false.
Proof.
  assert (H : Forall (fun p => dir_only p = true) [lit "build/"; lit "!dist/"]).
  { repeat constructor. }
  split; [exact H|].
  apply (dir_patterns_spare_files [lit "build/"; lit "!dist/"]
           (lit "build/tmp.o") H).
Defined.

(** Negated patterns only ever answer "not excluded": a list made of
    negated patterns excludes nothing. *)
Theorem negations_never_exclude (patterns : list str) (rel_path : str)
  (is_dir : bool) :
  Forall (fun p => negated p = true) patterns ->
  _is_excluded_by_gitignore patterns rel_path is_dir = false.
Proof.
  induction 1 as [|p ps Hp _ IH]; [reflexivity|].
  simpl. rewrite check_pattern_matches, Hp.
  destruct (matches p rel_path is_dir); [reflexivity|exact IH].
Qed.

Lemma negations_never_exclude_witness :
  Forall (fun p => negated p = true) [lit "!*.py"; lit "!src"]
  /\ _is_excluded_by_gitignore [lit "!*.py"; lit "!src"]
       (lit "src/main.py") false = false.
Proof.
  assert (H : Forall (fun p => negated p = true) [lit "!*.py"; lit "!src"]).
  { repeat constructor. }
  split; [exact H|].
  apply (negations_never_exclude [lit "!*.py"; lit "!src"]
           (lit "src/main.py") false H).
Defined.

Lemma match_toks_plain (a s : str) :
  match_toks (map Lit a) s = str_eqb s a.
Proof.
  revert s. induction a as [|c a IH]; intros [|x s]; try reflexivity.
  simpl. rewrite IH. reflexivity.
Qed.

(** A pattern without wildcard matches its own text and nothing else. *)
Lemma fnmatchcase_plain (a s : str) :
  forallb plain_char a = true -> fnmatchcase s a = str_eqb s a.
Proof.
  intros Ha. unfold fnmatchcase.
  pose proof (tokenize_plain a [] Ha) as H.
  rewrite app_nil_r in H. simpl tokenize in H. rewrite app_nil_r in H.
  rewrite H. apply match_toks_plain.
Qed.

Lemma str_eqb_refl (s : str) : str_eqb s s = true.
Proof. apply str_eqb_eq. reflexivity. Qed.

Lemma plain_text_head (a : str) :
  plain_text a = true -> a <> [] -> startswith a [SLASH] = false.
Proof.
  intros Ha Hne. destruct (plain_text_split a Ha) as [_ Hs].
  destruct a as [|c a]; [congruence|].
  simpl in Hs. apply andb_prop in Hs as [Hc _]. apply negb_true_iff in Hc.
  unfold startswith. unfold is_slash in Hc. rewrite Hc. reflexivity.
Qed.

(** The loop body on a pattern that is a plain text: no negation, no
    trailing slash, no leading slash. *)
Lemma check_pattern_bare (name rel_path : str) (is_dir : bool) :
  plain_text name = true -> name <> [] -> startswith name [BANG] = false ->
  check_pattern rel_path is_dir name
  = if existsb (fun comp => str_eqb comp name) (split_char SLASH rel_path)
       || str_eqb (OsPath.basename rel_path) name
    then Return true else Continue.
Proof.
  intros Hp Hne Hbang.
  destruct (plain_text_split name Hp) as [Hplain Hslash].
  rewrite check_pattern_matches.
  unfold matches, pattern_body, dir_only, negated. rewrite Hbang.
  rewrite (rstrip_by_keep is_slash name Hslash).
  assert (Hend : endswith_char name SLASH = false).
  { apply (endswith_char_app_keep SLASH [] name Hne).
    exact Hslash. }
  rewrite Hend, (plain_text_head name Hp Hne).
  assert (Hn : nonempty name = true) by (destruct name; [congruence|reflexivity]).
  rewrite Hn. cbn [negb andb].
  rewrite (fnmatchcase_plain name _ Hplain).
  assert (Hex : existsb (fun comp => fnmatchcase comp name)
                        (split_char SLASH rel_path)
                = existsb (fun comp => str_eqb comp name)
                          (split_char SLASH rel_path)).
  { induction (split_char SLASH rel_path) as [|c cs IH]; [reflexivity|].
    simpl. rewrite IH, (fnmatchcase_plain name c Hplain). reflexivity. }
  rewrite Hex, orb_comm.
  destruct (existsb (fun comp => str_eqb comp name) (split_char SLASH rel_path)
            || str_eqb (OsPath.basename rel_path) name); reflexivity.
Qed.

(** A bare name, first in the list, excludes every path that has it as one
    of its components, at any depth, file or directory. *)
Theorem bare_name_excludes_at_any_depth (name rel_path : str) (is_dir : bool)
  (rest : list str) :
  plain_text name = true -> name <> [] -> startswith name [BANG] = false ->
  In name (split_char SLASH rel_path) ->
  _is_excluded_by_gitignore (name :: rest) rel_path is_dir = true.
Proof.
  intros Hp Hne Hbang Hin. simpl.
  rewrite (check_pattern_bare name rel_path is_dir Hp Hne Hbang).
  assert (Hex : existsb (fun comp => str_eqb comp name)
                        (split_char SLASH rel_path) = true).
  { apply existsb_exists. exists name. split; [exact Hin|apply str_eqb_refl]. }
  rewrite Hex. reflexivity.
Qed.

Lemma bare_name_excludes_at_any_depth_witness :
  plain_text (lit "node_modules") = true
  /\ lit "node_modules" <> []
  /\ startswith (lit "node_modules") [BANG] = false
  /\ In (lit "node_modules") (split_char SLASH (lit "web/node_modules/x/y.js"))
  /\ _is_excluded_by_gitignore (lit "node_modules" :: [lit "!*.js"])
       (lit "web/node_modules/x/y.js") false = true.
Proof.
  assert (Hne : lit "node_modules" <> []) by discriminate.
  assert (Hin : In (lit "node_modules")
                   (split_char SLASH (lit "web/node_modules/x/y.js"))).
  { right. left. reflexivity. }
  split; [reflexivity|]. split; [exact Hne|]. split; [reflexivity|].
  split; [exact Hin|].
  apply (bare_name_excludes_at_any_depth (lit "node_modules")
           (lit "web/node_modules/x/y.js") false [lit "!*.js"]
           eq_refl Hne eq_refl Hin).
Defined.

(** A rooted pattern that is a plain text is anchored at the root: it
    matches the path equal to it and the paths below it, and no other. *)
Theorem rooted_name_is_anchored (a rel_path : str) (is_dir : bool) :
  plain_text a = true -> a <> [] ->
  check_pattern rel_path is_dir (SLASH :: a)
  = if str_eqb rel_path a || startswith rel_path (a ++ [SLASH])
    then Return true else Continue.
Proof.
  intros Hp Hne.
  destruct (plain_text_split a Hp) as [Hplain Hslash].
  rewrite check_pattern_matches.
  unfold matches, pattern_body, dir_only, negated.
  assert (Hbang : startswith (SLASH :: a) [BANG] = false) by reflexivity.
  rewrite Hbang.
  assert (Hr : rstrip_by is_slash (SLASH :: a) = SLASH :: a)
    by exact (rstrip_by_app_keep is_slash [SLASH] a Hne Hslash).
  assert (He : endswith_char (SLASH :: a) SLASH = false)
    by exact (endswith_char_app_keep SLASH [SLASH] a Hne Hslash).
  rewrite Hr, He.
  cbn [nonempty negb andb].
  assert (Hroot : startswith (SLASH :: a) [SLASH] = true) by reflexivity.
  rewrite Hroot.
  assert (Hl : lstrip_by is_slash (SLASH :: a) = a).
  { change (lstrip_by is_slash (SLASH :: a)) with (lstrip_by is_slash a).
    destruct a as [|c a']; [reflexivity|].
    simpl in Hslash. apply andb_prop in Hslash as [Hc _].
    apply negb_true_iff in Hc. simpl. rewrite Hc. reflexivity. }
  rewrite Hl, (fnmatchcase_plain a rel_path Hplain).
  destruct (str_eqb rel_path a || startswith rel_path (a ++ [SLASH]));
    reflexivity.
Qed.

Lemma rooted_name_is_anchored_witness :
  plain_text (lit "build") = true /\ lit "build" <> []
  /\ check_pattern (lit "src/build") true (SLASH :: lit "build")
     = if str_eqb (lit "src/build") (lit "build")
          || startswith (lit "src/build") (lit "build" ++ [SLASH])
       then Return true else Continue.
Proof.
  assert (Hne : lit "build" <> []) by discriminate.
  split; [reflexivity|]. split; [exact Hne|].
  apply (rooted_name_is_anchored (lit "build") (lit "src/build") true
           eq_refl Hne).
Defined.

Lemma split_char_no_sep (sep : char) (s : str) :
  Forall (fun comp => contains_char sep comp = false) (split_char sep s).
Proof.
  induction s as [|c s IH]; simpl.
  - repeat constructor.
  - destruct (char_eqb c sep) eqn:Hc.
    + constructor; [reflexivity|exact IH].
    + destruct (split_char sep s) as [|w ws].
      * constructor; [|constructor].
        unfold contains_char. simpl. rewrite char_eqb_sym, Hc. reflexivity.
      * inversion IH as [|? ? Hw Hws]; subst. constructor; [|exact Hws].
        unfold contains_char in *. simpl. rewrite char_eqb_sym, Hc. exact Hw.
Qed.

Lemma basename_has_no_slash (p : str) :
  contains_char SLASH (OsPath.basename p) = false.
Proof.
  induction p as [|c p IH]; [reflexivity|].
  cbn [OsPath.basename].
  destruct (contains_char SLASH p) eqn:Hp; [exact IH|].
  destruct (char_eqb c SLASH) eqn:Hc; [exact Hp|].
  unfold contains_char in *. simpl. rewrite char_eqb_sym, Hc. exact Hp.
Qed.

Lemma match_toks_needs_slash (a : str) (ts : list tok) (s : str) :
  contains_char SLASH s = false ->
  match_toks (map Lit a ++ Lit SLASH :: ts) s = false.
Proof.
  revert s. induction a as [|x a IH]; intros [|c s] Hs; try reflexivity.
  - unfold contains_char in Hs. simpl in Hs.
    apply orb_false_iff in Hs as [Hc _].
    simpl. rewrite char_eqb_sym, Hc. reflexivity.
  - unfold contains_char in Hs. simpl in Hs.
    apply orb_false_iff in Hs as [_ Hs].
    simpl. rewrite (IH s Hs). apply andb_false_r.
Qed.

Lemma fnmatchcase_needs_slash (a b s : str) :
  forallb plain_char a = true -> contains_char SLASH s = false ->
  fnmatchcase s (a ++ SLASH :: b) = false.
Proof.
  intros Ha Hs. unfold fnmatchcase.
  rewrite (tokenize_plain a (SLASH :: b) Ha).
  change (tokenize (SLASH :: b) None) with (Lit SLASH :: tokenize b None).
  apply match_toks_needs_slash, Hs.
Qed.

(** A pattern that is not rooted is compared with single path components,
    which hold no slash: when its text, past a plain first part, holds a
    slash, it matches no path at all. *)
Theorem inner_slash_pattern_never_matches (pattern a b rel_path : str)
  (is_dir : bool) :
  pattern_body pattern = a ++ SLASH :: b ->
  plain_text a = true -> a <> [] ->
  check_pattern rel_path is_dir pattern = Continue.
Proof.
  intros Hbody Hp Hne.
  destruct (plain_text_split a Hp) as [Hplain _].
  rewrite check_pattern_matches. unfold matches. rewrite Hbody.
  assert (Hroot : startswith (a ++ SLASH :: b) [SLASH] = false).
  { pose proof (plain_text_head a Hp Hne) as H.
    destruct a as [|c a']; [congruence|]. exact H. }
  rewrite Hroot.
  rewrite (fnmatchcase_needs_slash a b _ Hplain (basename_has_no_slash rel_path)).
  assert (Hex : existsb (fun comp => fnmatchcase comp (a ++ SLASH :: b))
                        (split_char SLASH rel_path) = false).
  { pose proof (split_char_no_sep SLASH rel_path) as Hall.
    induction Hall as [|c cs Hc _ IH]; [reflexivity|].
    simpl. rewrite (fnmatchcase_needs_slash a b c Hplain Hc). exact IH. }
  rewrite Hex, !andb_false_r. reflexivity.
Qed.

Lemma inner_slash_pattern_never_matches_witness :
  pattern_body (lit "!build/keep.txt") = lit "build" ++ SLASH :: lit "keep.txt"
  /\ plain_text (lit "build") = true /\ lit "build" <> []
  /\ check_pattern (lit "build/keep.txt") false (lit "!build/keep.txt")
     = Continue.
Proof.
  assert (Hne : lit "build" <> []) by discriminate.
  split; [reflexivity|]. split; [reflexivity|]. split; [exact Hne|].
  apply (inner_slash_pattern_never_matches (lit "!build/keep.txt")
           (lit "build") (lit "keep.txt") (lit "build/keep.txt") false
           eq_refl eq_refl Hne).
Defined.

End IgnoreMore.

(** ** More on the loading of the ignore file *)

Section LoaderMore.
Import PyStr PySeq Ignore.

Lemma lstrip_by_head (p : char -> bool) (s : str) (c : char) (t : str) :
  lstrip_by p s = c :: t -> p c = false.
Proof.
  induction s as [|x s IH]; simpl; [discriminate|].
  destruct (p x) eqn:Hx; [exact IH|].
  intros H. injection H as <- _. exact Hx.
Qed.

Lemma rstrip_by_head (p : char -> bool) (s : str) (c : char) (t : str) :
  rstrip_by p s = c :: t -> exists s', s = c :: s'.
Proof.
  destruct s as [|x s]; simpl; [discriminate|].
  destruct (rstrip_by p s).
  - destruct (p x); [discriminate|].
    intros H. injection H as <- _. exists s. reflexivity.
  - intros H. injection H as <- _. exists s. reflexivity.
Qed.

Lemma rstrip_by_last (p : char -> bool) (s : str) (c : char) (t : str) :
  rstrip_by p s = c :: t -> forall d, p (last (c :: t) d) = false.
Proof.
  revert c t. induction s as [|x s IH]; intros c t; simpl; [discriminate|].
  destruct (rstrip_by p s) as [|y r] eqn:Hr.
  - destruct (p x) eqn:Hx; [discriminate|].
    intros H d. injection H as <- <-. exact Hx.
  - intros H d. injection H as <- <-.
    change (last (x :: y :: r) d) with (last (y :: r) d).
    apply (IH y r eq_refl).
Qed.

(** Every pattern the loader keeps is a non-empty text that starts and ends
    with a character that is not whitespace, and does not start with [#];
    so no blank entry, no comment and no padded pattern reaches the
    matcher. *)
Theorem loaded_patterns_are_clean (use_gitignore : bool) (gitignore : option str)
  (p : str) :
  In p (_load_gitignore use_gitignore gitignore) ->
  exists c t,
    p = c :: t
    /\ is_space c = false
    /\ is_space (last p c) = false
    /\ c <> HASH.
Proof.
  unfold _load_gitignore.
  destruct gitignore as [text|]; [|intros []].
  destruct use_gitignore; [|intros []].
  rewrite (fold_load_line (readlines text) []). cbn [app].
  intros H. apply filter_In in H as [Hin Hkept].
  apply in_map_iff in Hin as (line & <- & _).
  unfold kept_line in Hkept. apply andb_prop in Hkept as [Hne Hhash].
  apply negb_true_iff in Hhash.
  unfold strip in *.
  destruct (rstrip_by is_space (lstrip_by is_space line)) as [|c t] eqn:Hs;
    [discriminate|].
  exists c, t. split; [reflexivity|].
  destruct (rstrip_by_head _ _ _ _ Hs) as (s' & Hl).
  split; [exact (lstrip_by_head _ _ _ _ Hl)|].
  split; [exact (rstrip_by_last _ _ _ _ Hs c)|].
  intros ->. unfold startswith in Hhash.
  replace (char_eqb HASH HASH) with true in Hhash by reflexivity.
  discriminate.
Qed.

Lemma loaded_patterns_are_clean_witness :
  In (lit "foo") (_load_gitignore true (Some Samples.padded_gitignore))
  /\ exists c t,
       lit "foo" = c :: t
       /\ is_space c = false
       /\ is_space (last (lit "foo") c) = false
       /\ c <> HASH.
Proof.
  assert (H : In (lit "foo")
                (_load_gitignore true (Some Samples.padded_gitignore))).
  { left. reflexivity. }
  split; [exact H|].
  apply (loaded_patterns_are_clean true (Some Samples.padded_gitignore)
           (lit "foo") H).
Defined.

End LoaderMore.

(** ** More on the chunk splitter *)

Section SplitterMore.
Import PyStr PySeq Splitter SplitterInv SplitterGreedy.
Local Open Scope Z_scope.

Lemma tight_snoc (max_lines : Z) (gs : list (list (list str)))
  (c : list (list str)) :
  tight max_lines (gs ++ [c])
  <-> tight max_lines gs
      /\ (gs <> [] ->
          max_lines < len (concat (last gs [])) + len (hd [] c)).
Proof.
  induction gs as [|g gs IH].
  - simpl. split; [intros _; split; [exact I|congruence]|intros _; auto].
  - destruct gs as [|g' r].
    + simpl. split.
      * intros [H _]. split; [auto|intros _; exact H].
      * intros [_ H]. split; [apply H; discriminate|auto].
    + change (tight max_lines ((g :: g' :: r) ++ [c]))
        with (max_lines < len (concat g) + len (hd [] g')
              /\ tight max_lines ((g' :: r) ++ [c])).
      change (tight max_lines (g :: g' :: r))
        with (max_lines < len (concat g) + len (hd [] g')
              /\ tight max_lines (g' :: r)).
      change (last (g :: g' :: r) []) with (last (g' :: r) []).
      rewrite IH. split.
      * intros (H1 & H2 & H3). split; [split; assumption|].
        intros _. apply H3. discriminate.
      * intros ((H1 & H2) & H3). split; [exact H1|]. split; [exact H2|].
        intros _. apply H3. discriminate.
Qed.

Lemma tight_nth (max_lines : Z) (gs : list (list (list str))) :
  tight max_lines gs ->
  forall i g g',
    nth_error gs i = Some g -> nth_error gs (S i) = Some g' ->
    max_lines < len (concat g) + len (hd [] g').
Proof.
  induction gs as [|g0 gs IH]; intros Ht i g g' Hg Hg'.
  - destruct i; discriminate.
  - destruct Ht as [Hlink Hrest]. destruct i as [|i].
    + simpl in Hg, Hg'. injection Hg as <-.
      destruct gs as [|g1 r]; [discriminate|].
      simpl in Hg'. injection Hg' as <-. exact Hlink.
    + apply (IH Hrest i g g'); assumption.
Qed.

Lemma last_snoc {A} (l : list A) (x d : A) : last (l ++ [x]) d = x.
Proof. apply last_last. Qed.

Lemma hd_app_nonempty {A} (l l' : list A) (d : A) :
  l <> [] -> hd d (l ++ l') = hd d l.
Proof. destruct l; [congruence|reflexivity]. Qed.

Lemma packed_pack (max_lines : Z) (done : list (list str)) (b : list str) st :
  b <> [] ->
  packed max_lines done st ->
  packed max_lines (done ++ [b]) (pack_block _ (fun ls => ls) max_lines st b).
Proof.
  intros Hb (groups & cur & Hp & Hc & Hn & Hd & Hne & Hcur & Hnocur).
  unfold pack_block, pack, flush.
  destruct b as [|l b]; [congruence|].
  set (blk := l :: b) in *.
  subst done.
  pose proof (len_nonneg (concat cur)) as Hcurlen.
  destruct (Z.ltb_spec max_lines (len blk)) as [Hbig|Hsmall].
  - destruct (current_part_lines st) as [|x xs] eqn:Hcl.
    + assert (cur = []) by (apply concat_nil_nonempty; [assumption|congruence]).
      subst cur. destruct (Hnocur eq_refl) as [Ht Hlast].
      exists (groups ++ [[blk]]), [].
      cbn [parts current_part_lines current_line_count].
      split; [rewrite Hp, map_app; simpl; rewrite app_nil_r; reflexivity|].
      split; [exact Hcl|].
      split; [rewrite Hn; reflexivity|].
      split; [rewrite concat_app; simpl; rewrite !app_nil_r; reflexivity|].
      split; [constructor|].
      split; [congruence|]. intros _. split.
      * apply tight_snoc. split; [exact Ht|]. intros Hg.
        pose proof (len_nonneg (concat (last groups []))). simpl. lia.
      * intros _. rewrite last_snoc. simpl. rewrite app_nil_r. exact Hbig.
    + assert (Hcne : cur <> []) by (intros ->; discriminate).
      exists (groups ++ [cur] ++ [[blk]]), [].
      cbn [parts current_part_lines current_line_count].
      split; [rewrite Hp, Hc, !map_app; simpl; rewrite app_nil_r,
                <- app_assoc; reflexivity|].
      split; [reflexivity|].
      split; [reflexivity|].
      split; [rewrite !concat_app; simpl; rewrite !app_nil_r, <- app_assoc;
              reflexivity|].
      split; [constructor|].
      split; [congruence|]. intros _. split.
      * rewrite app_assoc. apply tight_snoc. split; [exact (Hcur Hcne)|].
        intros _. rewrite last_snoc. simpl. lia.
      * intros _. rewrite app_assoc, last_snoc. simpl. rewrite app_nil_r.
        exact Hbig.
  - destruct ((0 <? current_line_count st)
              && (max_lines <? current_line_count st + len blk)) eqn:Hfl.
    + apply andb_prop in Hfl as [H0 H1].
      apply Z.ltb_lt in H0. apply Z.ltb_lt in H1.
      assert (Hcne : cur <> []).
      { intros ->. rewrite Hn in H0. unfold len in H0. simpl in H0. lia. }
      exists (groups ++ [cur]), [blk].
      cbn [parts current_part_lines current_line_count].
      split; [rewrite Hp, Hc, map_app; reflexivity|].
      split; [simpl; rewrite app_nil_r; reflexivity|].
      split; [simpl; rewrite app_nil_r; reflexivity|].
      split; [rewrite concat_app; simpl; rewrite !app_nil_r, <- app_assoc;
              reflexivity|].
      split; [constructor; [discriminate|constructor]|].
      split; [|intros H; discriminate H].
      intros _. apply tight_snoc. split; [exact (Hcur Hcne)|].
      intros _. rewrite last_snoc. simpl. rewrite Hn in H1. exact H1.
    + exists groups, (cur ++ [blk]).
      cbn [parts current_part_lines current_line_count].
      assert (Hcat : concat (cur ++ [blk]) = concat cur ++ blk).
      { rewrite concat_app. simpl. rewrite app_nil_r. reflexivity. }
      split; [exact Hp|].
      split; [rewrite Hcat, Hc; reflexivity|].
      split; [rewrite Hcat, len_app, Hn; reflexivity|].
      split; [rewrite app_assoc; reflexivity|].
      split; [apply Forall_app; split; [assumption|];
              constructor; [discriminate|constructor]|].
      split; [|intros H; apply app_eq_nil in H as [_ H]; discriminate H].
      intros _. apply tight_snoc.
      destruct cur as [|c0 cur'].
      * destruct (Hnocur eq_refl) as [Ht Hlast].
        split; [exact Ht|]. intros Hg. specialize (Hlast Hg).
        simpl. pose proof (len_nonneg blk). lia.
      * apply tight_snoc in Hcur; [|discriminate].
        destruct Hcur as [Ht Hlink]. split; [exact Ht|]. exact Hlink.
Qed.

Lemma packed_fold (max_lines : Z) (bs : list (list str)) :
  Forall (fun b => b <> []) bs ->
  forall done st,
    packed max_lines done st ->
    packed max_lines (done ++ bs)
           (fold_left (pack_block _ (fun ls => ls) max_lines) bs st).
Proof.
  induction 1 as [|b bs Hb Hbs IH]; intros done st H; simpl.
  - rewrite app_nil_r. exact H.
  - replace (done ++ b :: bs) with ((done ++ [b]) ++ bs)
      by (rewrite <- app_assoc; reflexivity).
    apply IH, packed_pack; assumption.
Qed.

(** The parts, as lists of lines, are tight groups of whole blocks. *)
Lemma split_content_lines_tight (x : str) (max_lines : Z) :
  exists groups,
    split_content_lines x max_lines = Some (map (@concat (list N)) groups)
    /\ concat groups = filter nonempty (blocks_of (splitlines x))
    /\ tight max_lines groups.
Proof.
  unfold split_content_lines. rewrite split_with_fold.
  destruct (packed_fold max_lines
              (filter nonempty (blocks_of (splitlines x)))
              (filter_nonempty_spec _) [] (mkState [] [] 0))
    as (groups & cur & Hp & Hc & Hn & Hd & Hne & Hcur & Hnocur).
  { exists [], []. simpl. repeat split; try constructor; congruence. }
  simpl in Hd. unfold finish.
  destruct (current_part_lines _) as [|l ls] eqn:Hcl.
  - assert (cur = []) by (apply concat_nil_nonempty; [assumption|congruence]).
    subst cur. rewrite app_nil_r in Hd. exists groups.
    split; [rewrite Hp; reflexivity|]. split; [exact Hd|].
    apply (Hnocur eq_refl).
  - assert (Hcne : cur <> []) by (intros ->; discriminate).
    exists (groups ++ [cur]).
    split; [rewrite Hp, Hc, map_app; reflexivity|].
    split; [rewrite concat_app; simpl; rewrite app_nil_r; exact Hd|].
    exact (Hcur Hcne).
Qed.

Lemma blocks_are_runs (x : str) (groups : list (list (list str))) :
  concat groups = filter nonempty (blocks_of (splitlines x)) ->
  Forall (fun b => splitlines (concat b) = b) (concat groups)
  /\ Forall (fun seg => splitlines (concat seg) = seg)
            (map (@concat (list N)) groups).
Proof.
  intros Hc. split.
  - apply (splitlines_partition x).
    rewrite Hc, concat_filter_nonempty. apply concat_blocks_of.
  - apply (splitlines_partition x).
    rewrite concat_map_concat, Hc, concat_filter_nonempty.
    apply concat_blocks_of.
Qed.

(** The packing is greedy: a part is closed only when the next block does
    not fit.  The parts are the joins of groups of whole blocks, and for
    any two consecutive parts the lines of the first and the lines of the
    first block of the second exceed the budget together. *)
Theorem split_is_greedy (x : str) (max_lines : Z) :
  exists groups : list (list (list str)),
    split_content_smart x max_lines
    = Some (map (fun g => concat (concat g)) groups)
    /\ concat groups = filter nonempty (blocks_of (splitlines x))
    /\ forall i g b rest,
         nth_error groups i = Some g ->
         nth_error groups (S i) = Some (b :: rest) ->
         max_lines < line_count (concat (concat g)) + line_count (concat b).
Proof.
  destruct (split_content_lines_tight x max_lines) as (groups & Hs & Hc & Ht).
  exists groups. split; [|split; [exact Hc|]].
  - rewrite split_content_smart_lines, Hs. simpl. rewrite map_map.
    reflexivity.
  - intros i g b rest Hg Hg'.
    destruct (blocks_are_runs x groups Hc) as [Hblocks Hsegs].
    rewrite Forall_forall in Hblocks, Hsegs.
    unfold line_count.
    rewrite (Hsegs (concat g)) by (apply in_map; eapply nth_error_In; eauto).
    rewrite (Hblocks b).
    + exact (tight_nth max_lines groups Ht i g (b :: rest) Hg Hg').
    + apply in_concat. exists (b :: rest).
      split; [eapply nth_error_In; eauto|left; reflexivity].
Qed.

Lemma len_hd_concat {A} (g : list (list A)) :
  len (hd [] g) <= len (concat g).
Proof.
  destruct g as [|b g]; simpl; [lia|]. rewrite len_app.
  pose proof (len_nonneg (concat g)). lia.
Qed.

Lemma fitting_text_one_part (x : str) (max_lines : Z) :
  x <> [] -> line_count x <= max_lines ->
  split_content_smart x max_lines = Some [x].
Proof.
  intros Hx Hfit.
  destruct (split_content_lines_tight x max_lines) as (groups & Hs & Hc & Ht).
  rewrite split_content_smart_lines, Hs. simpl. rewrite map_map.
  assert (Hall : concat (concat groups) = splitlines x).
  { rewrite Hc, concat_filter_nonempty. apply concat_blocks_of. }
  destruct groups as [|g [|g' r]].
  - simpl in Hall. symmetry in Hall. apply splitlines_nil_inv in Hall.
    congruence.
  - simpl in *. rewrite app_nil_r in Hall.
    rewrite Hall, splitlines_concat. reflexivity.
  - exfalso. destruct Ht as [Hlink _]. unfold line_count in Hfit.
    rewrite <- Hall in Hfit.
    assert (Hlen : len (concat (concat (g :: g' :: r)))
                   = len (concat g) + len (concat g')
                     + len (concat (concat r))).
    { simpl. rewrite !concat_app, !len_app. lia. }
    rewrite Hlen in Hfit.
    pose proof (len_hd_concat g'). pose proof (len_nonneg (concat (concat r))).
    lia.
Qed.

(** A text that fits in the budget is not split: a non-empty text of at
    most [max_lines] lines comes back as one part, the text itself. *)
Theorem small_text_is_one_part (x : str) (max_lines : Z) :
  x <> [] -> line_count x <= max_lines ->
  split_content_smart x max_lines = Some [x].
Proof. exact (fitting_text_one_part x max_lines). Qed.

Lemma small_text_is_one_part_witness :
  Samples.two_records <> [] /\ line_count Samples.two_records <= 6
  /\ split_content_smart Samples.two_records 6 = Some [Samples.two_records].
Proof.
  assert (Hne : Samples.two_records <> []) by discriminate.
  assert (Hfit : line_count Samples.two_records <= 6)
    by (vm_compute; discriminate).
  split; [exact Hne|]. split; [exact Hfit|].
  apply (small_text_is_one_part Samples.two_records 6 Hne Hfit).
Defined.

(** No part is empty: the splitter never produces an empty chunk. *)
Theorem no_part_is_empty (x : str) (max_lines : Z) :
  exists parts,
    split_content_smart x max_lines = Some parts
    /\ Forall (fun part => part <> []) parts.
Proof.
  destruct (split_content_lines_groups x max_lines) as (groups & Hs & Hc & Hg).
  exists (map (fun g => concat (concat g)) groups). split.
  - rewrite split_content_smart_lines, Hs. simpl. rewrite map_map.
    reflexivity.
  - apply Forall_forall. intros part Hin.
    apply in_map_iff in Hin as (g & <- & Hin).
    rewrite Forall_forall in Hg. destruct (Hg g Hin) as [Hne _].
    destruct g as [|b g']; [congruence|].
    assert (Hb : In b (filter nonempty (blocks_of (splitlines x)))).
    { rewrite <- Hc. apply in_concat. exists (b :: g').
      split; [exact Hin|left; reflexivity]. }
    apply filter_In in Hb as [Hb Hbne].
    destruct b as [|l b']; [discriminate|].
    assert (Hl : In l (splitlines x)).
    { rewrite <- (concat_blocks_of (splitlines x)).
      apply in_concat. exists (l :: b'). split; [exact Hb|left; reflexivity]. }
    pose proof (splitlines_nonempty x) as Hlines.
    rewrite Forall_forall in Hlines. specialize (Hlines l Hl).
    destruct l as [|c l']; [congruence|]. discriminate.
Qed.

Lemma len_in_concat {A} (b : list A) (g : list (list A)) :
  In b g -> len b <= len (concat g).
Proof.
  induction g as [|b0 g IH]; [intros []|].
  simpl. rewrite len_app. intros [->|H].
  - pose proof (len_nonneg (concat g)). lia.
  - specialize (IH H). pose proof (len_nonneg b0). lia.
Qed.

(** An oversized block is a part on its own: a block with more lines than
    the budget is written, whole and alone, as one of the parts. *)
Theorem oversized_block_is_alone (x : str) (max_lines : Z) (b : list str) :
  0 <= max_lines ->
  In b (blocks_of (splitlines x)) ->
  max_lines < line_count (concat b) ->
  exists parts,
    split_content_smart x max_lines = Some parts /\ In (concat b) parts.
Proof.
  intros Hmax Hb Hbig.
  destruct (split_content_lines_groups x max_lines) as (groups & Hs & Hc & Hg).
  exists (map (fun g => concat (concat g)) groups). split.
  { rewrite split_content_smart_lines, Hs. simpl. rewrite map_map.
    reflexivity. }
  destruct (blocks_are_runs x groups Hc) as [Hblocks _].
  rewrite Forall_forall in Hblocks.
  assert (Hbne : nonempty b = true).
  { destruct b; [|reflexivity]. exfalso.
    change (line_count (concat [])) with 0 in Hbig. lia. }
  assert (Hin : In b (concat groups)).
  { rewrite Hc. apply filter_In. split; assumption. }
  unfold line_count in Hbig. rewrite (Hblocks b Hin) in Hbig.
  apply in_concat in Hin as (g & Hgin & Hbg).
  rewrite Forall_forall in Hg. destruct (Hg g Hgin) as [_ [Hle|(b' & -> & _)]].
  - pose proof (len_in_concat b g Hbg). lia.
  - destruct Hbg as [->|[]]. apply in_map_iff. exists [b]. split; [|exact Hgin].
    simpl. rewrite !app_nil_r. reflexivity.
Qed.

Lemma oversized_block_is_alone_witness :
  0 <= 1 /\
  In [lit ">>>File: a.py" ++ [LF]; lit "x = 1" ++ [LF]]
     (blocks_of (splitlines Samples.two_records))
  /\ 1 < line_count (concat [lit ">>>File: a.py" ++ [LF]; lit "x = 1" ++ [LF]])
  /\ exists parts,
       split_content_smart Samples.two_records 1 = Some parts
       /\ In (concat [lit ">>>File: a.py" ++ [LF]; lit "x = 1" ++ [LF]]) parts.
Proof.
  assert (Hb : In [lit ">>>File: a.py" ++ [LF]; lit "x = 1" ++ [LF]]
                  (blocks_of (splitlines Samples.two_records))).
  { right. left. reflexivity. }
  assert (Hbig : 1 < line_count
                       (concat [lit ">>>File: a.py" ++ [LF];
                                lit "x = 1" ++ [LF]])) by reflexivity.
  split; [lia|]. split; [exact Hb|]. split; [exact Hbig|].
  apply (oversized_block_is_alone Samples.two_records 1 _ ltac:(lia) Hb Hbig).
Defined.

End SplitterMore.

(** ** More on the rendering *)

Section RenderMore.
Import PyStr PySeq Worker RunVocab.

Lemma render_item_errors (w : worker) (read : str -> file_data)
  (r : rendering) (it : item) :
  structure_only w = false ->
  errors (render_item w read r it) = errors r ++ read_errors read it.
Proof.
  intros Hso. unfold render_item, read_errors. rewrite Hso.
  cbn [negb]. rewrite andb_true_r.
  set (r1 := if include_structure w || false then _ else r).
  assert (Hr1 : errors r1 = errors r).
  { subst r1. destruct (include_structure w || false); reflexivity. }
  destruct (snd it); cbn [negb].
  - rewrite Hr1, app_nil_r. reflexivity.
  - destruct (read (fst it)); cbn [errors]; rewrite Hr1, ?app_nil_r;
      reflexivity.
Qed.

Lemma render_fold_errors (w : worker) (read : str -> file_data)
  (items : list item) :
  structure_only w = false ->
  forall r,
    errors (fold_left (render_item w read) items r)
    = errors r ++ flat_map (read_errors read) items.
Proof.
  intros Hso. induction items as [|it items IH]; intros r; simpl.
  - rewrite app_nil_r. reflexivity.
  - rewrite IH, (render_item_errors w read r it Hso), <- app_assoc.
    reflexivity.
Qed.

(** A failed read never stops a run and is never lost: the errors a run
    reports are, in the order of the collected tree, one line per file whose
    reading failed, naming the file and the failure. *)
Theorem errors_are_the_failed_reads (w : worker) (gitignore : option str)
  (root : node) (read : str -> file_data) :
  structure_only w = false ->
  snd (run w gitignore root read)
  = flat_map (read_errors read) (collect (loaded w gitignore) root).
Proof.
  intros Hso. unfold run, render. cbn [snd].
  rewrite (render_fold_errors (loaded w gitignore) read _ Hso).
  reflexivity.
Qed.

Lemma errors_are_the_failed_reads_witness :
  structure_only (Samples.default_worker false) = false
  /\ snd (run (Samples.default_worker false) None Samples.project_tree
            (fun _ => Failed (lit "denied")))
     = flat_map (read_errors (fun _ => Failed (lit "denied")))
         (collect (loaded (Samples.default_worker false) None)
            Samples.project_tree).
Proof.
  split; [reflexivity|].
  apply (errors_are_the_failed_reads (Samples.default_worker false) None
           Samples.project_tree (fun _ => Failed (lit "denied")) eq_refl).
Defined.

Lemma render_item_structure_only (w : worker) (read read' : str -> file_data)
  (r : rendering) (it : item) :
  structure_only w = true ->
  render_item w read r it = render_item w read' r it
  /\ file_contents (render_item w read r it) = file_contents r
  /\ errors (render_item w read r it) = errors r.
Proof.
  intros Hso. unfold render_item. rewrite Hso.
  cbn [negb]. rewrite !andb_false_r, orb_true_r. repeat split.
Qed.

Lemma render_fold_structure_only (w : worker) (read read' : str -> file_data)
  (items : list item) :
  structure_only w = true ->
  forall r,
    fold_left (render_item w read) items r
    = fold_left (render_item w read') items r
    /\ errors (fold_left (render_item w read) items r) = errors r.
Proof.
  intros Hso. induction items as [|it items IH]; intros r; simpl.
  - split; reflexivity.
  - destruct (render_item_structure_only w read read' r it Hso)
      as (Heq & _ & Herr).
    destruct (IH (render_item w read r it)) as [IH1 IH2].
    rewrite IH2, Herr, IH1, Heq. split; reflexivity.
Qed.

(** In structure-only mode a run reads no file: its outcome is the same
    whatever the files hold, its combined content is empty and so is its
    list of errors. *)
Theorem structure_only_reads_no_file (w : worker) (gitignore : option str)
  (root : node) (read read' : str -> file_data) :
  structure_only w = true ->
  run w gitignore root read = run w gitignore root read'
  /\ snd (fst (run w gitignore root read)) = []
  /\ snd (run w gitignore root read) = [].
Proof.
  intros Hso. unfold run, render.
  assert (Hso' : structure_only (loaded w gitignore) = true) by exact Hso.
  destruct (render_fold_structure_only (loaded w gitignore) read read'
              (collect (loaded w gitignore) root) Hso'
              (mkRendering [] [] 0%Z [])) as [Heq Herr].
  rewrite Hso'. cbn [negb fst snd].
  split; [rewrite Heq; reflexivity|]. split; [reflexivity|exact Herr].
Qed.

Lemma structure_only_reads_no_file_witness :
  structure_only
    (mkWorker (lit "/project") [] [] [] false false true []) = true
  /\ run (mkWorker (lit "/project") [] [] [] false false true []) None
       Samples.project_tree Samples.rendered_read
     = run (mkWorker (lit "/project") [] [] [] false false true []) None
         Samples.project_tree (fun _ => Failed (lit "denied"))
  /\ snd (fst (run (mkWorker (lit "/project") [] [] [] false false true [])
                 None Samples.project_tree Samples.rendered_read)) = []
  /\ snd (run (mkWorker (lit "/project") [] [] [] false false true []) None
            Samples.project_tree Samples.rendered_read) = [].
Proof.
  split; [reflexivity|].
  apply (structure_only_reads_no_file
           (mkWorker (lit "/project") [] [] [] false false true []) None
           Samples.project_tree Samples.rendered_read
           (fun _ => Failed (lit "denied")) eq_refl).
Defined.

End RenderMore.

(** ** Soundness of the tree collector *)

Section CollectorSound.
Import PyStr PySeq Fnmatch Worker TreeInv Exclusion CollectVocab.

Lemma prefixes_snoc (l : list str) (x : str) :
  prefixes (l ++ [x]) = prefixes l ++ [l ++ [x]].
Proof.
  induction l as [|y l IH]; [reflexivity|].
  simpl. rewrite IH, map_app. reflexivity.
Qed.

Lemma add_file_items_checked (w : worker) (rel_root : str) (fs : list str) :
  forall c it,
    In it (collected_items (fold_left (add_file w rel_root) fs c)) ->
    In it (collected_items c)
    \/ exists f,
         In f fs /\ it = (rel_join rel_root f, false)
         /\ mem f (exclude_files w) = false
         /\ existsb (fun pattern => fnmatchcase f pattern) (exclude_files w)
            = false
         /\ mem (lower (OsPath.splitext_ext f)) (exclude_extensions w) = false
         /\ Ignore._is_excluded_by_gitignore (gitignore_patterns w)
              (rel_join rel_root f) false = false.
Proof.
  induction fs as [|f fs IH]; intros c it H; [left; exact H|].
  simpl in H. destruct (IH _ _ H) as [H'|(f' & Hf' & Hrest)].
  - unfold add_file in H'.
    destruct (mem (rel_join rel_root f) (processed_paths c));
      [left; exact H'|].
    destruct (mem f (exclude_files w)) eqn:H1; cbn [orb] in H';
      [left; exact H'|].
    destruct (existsb (fun pattern => fnmatchcase f pattern) (exclude_files w))
      eqn:H2; [left; exact H'|].
    destruct (mem (lower (OsPath.splitext_ext f)) (exclude_extensions w))
      eqn:H3; [left; exact H'|].
    destruct (Ignore._is_excluded_by_gitignore (gitignore_patterns w)
                (rel_join rel_root f) false) eqn:H4; [left; exact H'|].
    cbn [collected_items] in H'. apply in_app_or in H' as [H'|[<-|[]]].
    + left. exact H'.
    + right. exists f. repeat split; try assumption. left. reflexivity.
  - right. exists f'. destruct Hrest as (Hit & Hchecks).
    split; [right; exact Hf'|]. split; assumption.
Qed.

Section WithNames.
Variable good : str -> bool.
Hypothesis good_ok : forall n, good n = true -> name_ok n = true.

Lemma good_names_ok (names : list str) :
  Forall (fun n => good n = true) names ->
  Forall (fun n => name_ok n = true) names.
Proof. intros H. eapply Forall_impl; [|exact H]. exact good_ok. Qed.

Lemma names_all_children (children : list node) (child : node) :
  forallb (names_all good) children = true -> In child children ->
  names_all good child = true.
Proof. intros H Hin. rewrite forallb_forall in H. apply H, Hin. Qed.

Lemma names_all_ok (n : node) : names_all good n = true -> names_ok n = true.
Proof.
  induction n as [f|d children IH] using node_induction; simpl.
  - apply good_ok.
  - intros H. apply andb_prop in H as [Hd Hc].
    rewrite (good_ok d Hd). simpl.
    apply forallb_forall. intros child Hin.
    rewrite Forall_forall in IH. apply (IH child Hin).
    apply (names_all_children children child Hc Hin).
Qed.

Lemma tree_all_ok (root : node) : tree_all good root = true -> tree_ok root = true.
Proof.
  destruct root as [f|d children]; simpl; [reflexivity|].
  intros H. apply forallb_forall. intros child Hin.
  apply names_all_ok, (names_all_children children child H Hin).
Qed.

Lemma walk_children_passed (w : worker) (rnames kept : list str)
  (l : list node) :
  Forall (fun x => good x = true) rnames ->
  Forall (dir_passes w) (prefixes rnames) ->
  (forall d, good d = true -> mem d kept = true -> dir_passes w (rnames ++ [d])) ->
  Forall (fun n => names_all good n = true) l ->
  Forall (walk_keeps_passed good w) l ->
  forall c,
    all_passed good w c ->
    all_passed good w
      (fold_left
         (fun c child =>
            match child with
            | Dir d _ =>
                if mem d kept
                then walk w (rel_join (join [SLASH] rnames) d) child c
                else c
            | File _ => c
            end) l c).
Proof.
  intros Hnames Hpre Hkept Hok IH. revert Hok.
  induction IH as [|child l Hchild _ IHl]; intros Hok c Hc; [exact Hc|].
  inversion Hok as [|? ? Hn Hl]; subst.
  cbn [fold_left]. apply (IHl Hl).
  destruct child as [f|d sub]; [exact Hc|].
  destruct (mem d kept) eqn:Hk; [|exact Hc].
  cbn [names_all] in Hn. apply andb_prop in Hn as [Hd Hsub].
  rewrite (rel_join_names rnames d (good_names_ok _ Hnames) (good_ok d Hd)).
  apply Hchild.
  - exact Hsub.
  - apply Forall_app. split; [exact Hnames|]. constructor; [exact Hd|constructor].
  - rewrite prefixes_snoc. apply Forall_app. split; [exact Hpre|].
    constructor; [apply Hkept; assumption|constructor].
  - exact Hc.
Qed.

(** Every item the traversal collects passed every check, and so did the
    directories above it. *)
Lemma walk_passed (w : worker) (n : node) : walk_keeps_passed good w n.
Proof.
  induction n as [f|dname children IH] using node_induction;
    intros rnames c Hok Hnames Hpre Hc.
  - exact Hc.
  - cbn [tree_all] in Hok. cbn [walk].
    pose proof (good_names_ok _ Hnames) as Hnames'.
    apply walk_children_passed; try assumption.
    + intros d Hgood Hd. apply mem_In in Hd.
      apply final_dirs_In in Hd as (_ & Hmem & Hg).
      split; [rewrite last_last; exact Hmem|].
      rewrite <- (rel_join_names rnames d Hnames' (good_ok d Hgood)).
      exact Hg.
    + apply Forall_forall. intros child Hin.
      apply (names_all_children children child Hok Hin).
    + intros it1 H1. unfold visit in H1.
      apply add_file_items_checked in H1
        as [H1|(f & Hf & -> & Hc1 & Hc2 & Hc3 & Hc4)].
      * apply add_dir_items in H1 as [H1|(d & Hd & ->)]; [exact (Hc it1 H1)|].
        apply final_dirs_In in Hd as (Hd & Hmem & Hg).
        apply dir_names_In in Hd as (sub & Hsub).
        pose proof (names_all_children _ _ Hok Hsub) as Hn.
        cbn [names_all] in Hn. apply andb_prop in Hn as [Hn _].
        exists (rnames ++ [d]). cbn [fst snd].
        split; [destruct rnames; discriminate|].
        split; [apply rel_join_names; [assumption|apply good_ok, Hn]|].
        split; [apply Forall_app; split; [assumption|];
                constructor; [assumption|constructor]|].
        split; [rewrite removelast_last; exact Hpre|].
        split; [rewrite last_last; exact Hmem|].
        rewrite <- (rel_join_names rnames d Hnames' (good_ok d Hn)).
        exact Hg.
      * apply file_names_In in Hf.
        pose proof (names_all_children _ _ Hok Hf) as Hn. cbn [names_all] in Hn.
        exists (rnames ++ [f]). cbn [fst snd].
        split; [destruct rnames; discriminate|].
        split; [apply rel_join_names; [assumption|apply good_ok, Hn]|].
        split; [apply Forall_app; split; [assumption|];
                constructor; [assumption|constructor]|].
        split; [rewrite removelast_last; exact Hpre|].
        unfold file_passes. rewrite last_last.
        rewrite <- (rel_join_names rnames f Hnames' (good_ok f Hn)).
        repeat split; assumption.
Qed.

Lemma collect_passed (w : worker) (root : node) (it : item) :
  tree_all good root = true -> In it (collect w root) -> passed good w it.
Proof.
  intros Hok Hin. unfold collect in Hin.
  apply (proj1 (sort_items_In _ _)) in Hin.
  apply (walk_passed w root [] (mkCollection [] []) Hok
           (Forall_nil _) (Forall_nil _)); [|exact Hin].
  intros it0 [].
Qed.

End WithNames.

End CollectorSound.

(** ** What the collected tree never holds *)

Section CollectorNever.
Import PyStr PySeq Fnmatch Worker TreeInv Exclusion CollectVocab.

Lemma names_all_name_ok (n : node) :
  names_ok n = true -> names_all name_ok n = true.
Proof.
  induction n as [f|d children IH] using node_induction; simpl; [auto|].
  intros H. apply andb_prop in H as [Hd Hc]. rewrite Hd. simpl.
  apply forallb_forall. intros child Hin.
  rewrite Forall_forall in IH. apply (IH child Hin).
  apply (names_ok_children children child Hc Hin).
Qed.

Lemma tree_all_name_ok (root : node) :
  tree_ok root = true -> tree_all name_ok root = true.
Proof.
  destruct root as [f|d children]; simpl; [reflexivity|].
  intros H. apply forallb_forall. intros child Hin.
  apply names_all_name_ok, (names_ok_children children child H Hin).
Qed.

Lemma prefixes_nonempty (names pre : list str) :
  In pre (prefixes names) -> pre <> [].
Proof.
  destruct names as [|x r]; [intros []|].
  simpl. intros [<-|H]; [discriminate|].
  apply in_map_iff in H as (t & <- & _). discriminate.
Qed.

Lemma prefixes_Forall (P : str -> Prop) (names : list str) :
  Forall P names -> forall pre, In pre (prefixes names) -> Forall P pre.
Proof.
  induction 1 as [|x r Hx Hr IH]; intros pre Hin; [destruct Hin|].
  simpl in Hin. destruct Hin as [<-|Hin].
  - constructor; [exact Hx|constructor].
  - apply in_map_iff in Hin as (t & <- & Ht).
    constructor; [exact Hx|apply IH, Ht].
Qed.

(** A prefix of a path that ends at a separator is the path of one of the
    directories above it. *)
Lemma prefix_is_ancestor (names : list str) :
  Forall (fun n => name_ok n = true) names ->
  forall q,
    startswith (join [SLASH] names) (q ++ [SLASH]) = true ->
    exists pre,
      In pre (prefixes (removelast names)) /\ q = join [SLASH] pre.
Proof.
  induction names as [|n1 names IH]; intros Hok q H.
  - destruct q; discriminate.
  - inversion Hok as [|? ? Hn1 Hrest]; subst.
    apply name_ok_inv in Hn1 as [_ Hs1].
    destruct names as [|n2 r].
    + simpl in H. rewrite (startswith_no_slash n1 q Hs1) in H. discriminate.
    + change (join [SLASH] (n1 :: n2 :: r))
        with (n1 ++ [SLASH] ++ join [SLASH] (n2 :: r)) in H.
      change (removelast (n1 :: n2 :: r)) with (n1 :: removelast (n2 :: r)).
      destruct (prefix_split n1 _ q Hs1 H) as [->|(q' & -> & Hq')].
      * exists [n1]. split; [left; reflexivity|reflexivity].
      * destruct (IH Hrest q' Hq') as (pre & Hpre & ->).
        exists (n1 :: pre). split.
        -- right. apply in_map, Hpre.
        -- pose proof (prefixes_nonempty _ _ Hpre) as Hne.
           destruct pre as [|y t]; [congruence|reflexivity].
Qed.

(** A directory that the ignore patterns exclude is pruned with its
    subtree: in a tree whose names are not empty and hold no slash, neither
    such a directory nor any entry below it is collected. *)
Theorem ignored_directory_pruned (w : worker) (root : node) (q : str) :
  tree_ok root = true ->
  Ignore._is_excluded_by_gitignore (gitignore_patterns w) q true = true ->
  ~ In (q, true) (collect w root)
  /\ forall p b,
       In (p, b) (collect w root) -> startswith p (q ++ [SLASH]) = false.
Proof.
  intros Hok Hq. apply tree_all_name_ok in Hok. split.
  - intros Hin.
    destruct (collect_passed name_ok (fun n H => H) w root _ Hok Hin)
      as (names & Hne & Hp & Hnames & _ & Hself).
    cbn [fst snd] in *. subst q. destruct Hself as [_ Hg].
    rewrite Hg in Hq. discriminate.
  - intros p b Hin.
    destruct (collect_passed name_ok (fun n H => H) w root _ Hok Hin)
      as (names & Hne & Hp & Hnames & Hanc & _).
    cbn [fst snd] in *. subst p.
    destruct (startswith (join [SLASH] names) (q ++ [SLASH])) eqn:Hpre;
      [|reflexivity].
    destruct (prefix_is_ancestor names Hnames q Hpre) as (pre & Hin' & ->).
    rewrite Forall_forall in Hanc. destruct (Hanc pre Hin') as [_ Hg].
    rewrite Hg in Hq. discriminate.
Qed.

Lemma ignored_directory_pruned_witness :
  tree_ok Samples.build_tree = true
  /\ Ignore._is_excluded_by_gitignore
       (gitignore_patterns (Samples.build_worker [] [] [])) (lit "build") true
     = true
  /\ ~ In (lit "build", true)
          (collect (Samples.build_worker [] [] []) Samples.build_tree)
  /\ forall p b,
       In (p, b) (collect (Samples.build_worker [] [] []) Samples.build_tree)
       -> startswith p (lit "build" ++ [SLASH]) = false.
Proof.
  split; [reflexivity|]. split; [reflexivity|].
  apply (ignored_directory_pruned (Samples.build_worker [] [] [])
           Samples.build_tree (lit "build")); reflexivity.
Defined.

Lemma endswith_char_inv (a : str) (c : char) :
  endswith_char a c = true -> exists a', a = a' ++ [c].
Proof.
  induction a as [|x a IH]; [discriminate|].
  destruct a as [|y r].
  - simpl. unfold char_eqb. intros H. apply N.eqb_eq in H. subst x.
    exists []. reflexivity.
  - change (endswith_char (x :: y :: r) c) with (endswith_char (y :: r) c).
    intros H. destruct (IH H) as (a' & Ha'). exists (x :: a').
    simpl. rewrite <- Ha'. reflexivity.
Qed.

Lemma join_names_not_rooted (names : list str) :
  names <> [] -> Forall (fun n => name_ok n = true) names ->
  startswith (join [SLASH] names) [SLASH] = false.
Proof.
  intros Hne Hok. destruct names as [|x r]; [congruence|].
  inversion Hok as [|? ? Hx _]; subst.
  pose proof (name_not_rooted x Hx) as H.
  apply name_ok_inv in Hx as [Hxne _].
  destruct x as [|c x]; [congruence|].
  destruct r; exact H.
Qed.

(** The base name of a path built on the root directory is the last of the
    names of the relative path. *)
Lemma basename_join_abs (a : str) (names : list str) :
  names <> [] -> Forall (fun n => name_ok n = true) names ->
  OsPath.basename (OsPath.join a (join [SLASH] names)) = last names [].
Proof.
  intros Hne Hok. unfold OsPath.join.
  rewrite (join_names_not_rooted names Hne Hok).
  destruct a as [|x a]; [apply basename_join; assumption|].
  destruct (endswith_char (x :: a) SLASH) eqn:He.
  - destruct (endswith_char_inv _ _ He) as (a' & ->).
    rewrite <- app_assoc. rewrite basename_after_slash.
    apply basename_join; assumption.
  - rewrite basename_after_slash. apply basename_join; assumption.
Qed.

Lemma listed_name_inv (n : str) :
  listed_name n = true -> name_ok n = true /\ n <> lit ".".
Proof.
  unfold listed_name. intros H. apply andb_prop in H as [H1 H2].
  split; [exact H1|]. intros ->. discriminate.
Qed.

Lemma join_listed_not_dot (names : list str) :
  names <> [] -> Forall (fun n => listed_name n = true) names ->
  str_eqb (join [SLASH] names) (lit ".") = false.
Proof.
  intros Hne Hok. destruct names as [|x r]; [congruence|].
  inversion Hok as [|? ? Hx Hr]; subst.
  apply listed_name_inv in Hx as [Hxok Hxdot].
  destruct (str_eqb (join [SLASH] (x :: r)) (lit ".")) eqn:He; [|reflexivity].
  apply str_eqb_eq in He. exfalso.
  destruct r as [|y r'].
  - simpl in He. exact (Hxdot He).
  - change (join [SLASH] (x :: y :: r'))
      with (x ++ [SLASH] ++ join [SLASH] (y :: r')) in He.
    apply name_ok_inv in Hxok as [Hxne _].
    destruct x as [|c [|c' x']]; [congruence| |]; simpl in He;
      injection He as _ He; discriminate He.
Qed.

(** [_is_excluded] on an item that passed the checks of the traversal. *)
Lemma passed_not_excluded (w : worker) (names : list str) (b : bool) :
  names <> [] -> Forall (fun n => listed_name n = true) names ->
  (if b then dir_passes w names else file_passes w names) ->
  _is_excluded w (OsPath.join (root_dir w) (join [SLASH] names))
    (join [SLASH] names) b = false.
Proof.
  intros Hne Hok Hpass.
  assert (Hok' : Forall (fun n => name_ok n = true) names).
  { eapply Forall_impl; [|exact Hok]. intros n Hn.
    apply (listed_name_inv n Hn). }
  unfold _is_excluded.
  rewrite (join_listed_not_dot names Hne Hok).
  rewrite (basename_join_abs (root_dir w) names Hne Hok').
  destruct b.
  - destruct Hpass as [H1 H2]. rewrite H1, H2. cbn [negb andb].
    rewrite andb_false_r. reflexivity.
  - destruct Hpass as (H1 & H2 & H3 & H4). rewrite H1, H2, H3, H4.
    cbn [negb andb]. rewrite andb_false_r. reflexivity.
Qed.

(** The traversal and the exclusion predicate agree: in a tree of listed
    names, [_is_excluded] answers "not excluded" for every collected item
    and for every directory above it. *)
Theorem collected_items_not_excluded (w : worker) (root : node) (p : str)
  (b : bool) :
  tree_all listed_name root = true ->
  In (p, b) (collect w root) ->
  _is_excluded w (OsPath.join (root_dir w) p) p b = false
  /\ forall q,
       startswith p (q ++ [SLASH]) = true ->
       _is_excluded w (OsPath.join (root_dir w) q) q true = false.
Proof.
  intros Hok Hin.
  destruct (collect_passed listed_name
              (fun n H => proj1 (listed_name_inv n H)) w root _ Hok Hin)
    as (names & Hne & Hp & Hnames & Hanc & Hself).
  cbn [fst snd] in *. subst p. split.
  - apply passed_not_excluded; assumption.
  - intros q Hq.
    assert (Hok' : Forall (fun n => name_ok n = true) names).
    { eapply Forall_impl; [|exact Hnames]. intros n Hn.
      apply (listed_name_inv n Hn). }
    destruct (prefix_is_ancestor names Hok' q Hq) as (pre & Hpre & ->).
    apply (passed_not_excluded w pre true).
    + apply (prefixes_nonempty _ _ Hpre).
    + apply (prefixes_Forall _ (removelast names)); [|exact Hpre].
      apply Forall_forall. intros n Hn. rewrite Forall_forall in Hnames.
      apply Hnames, removelast_In, Hn.
    + rewrite Forall_forall in Hanc. apply (Hanc pre Hpre).
Qed.

Lemma collected_items_not_excluded_witness :
  tree_all listed_name Samples.project_tree = true
  /\ In (lit "a/x.py", false)
        (collect (Samples.default_worker false) Samples.project_tree)
  /\ _is_excluded (Samples.default_worker false)
       (OsPath.join (root_dir (Samples.default_worker false)) (lit "a/x.py"))
       (lit "a/x.py") false = false
  /\ forall q,
       startswith (lit "a/x.py") (q ++ [SLASH]) = true ->
       _is_excluded (Samples.default_worker false)
         (OsPath.join (root_dir (Samples.default_worker false)) q) q true
       = false.
Proof.
  assert (Hin : In (lit "a/x.py", false)
                   (collect (Samples.default_worker false)
                      Samples.project_tree)).
  { right. right. left. reflexivity. }
  split; [reflexivity|]. split; [exact Hin|].
  apply (collected_items_not_excluded (Samples.default_worker false)
           Samples.project_tree (lit "a/x.py") false eq_refl Hin).
Defined.

End CollectorNever.

(** ** Distinct paths and order of the collected tree *)

Section CollectorOrder.
Import PyStr PySeq Fnmatch Worker TreeInv Exclusion CollectVocab.

Lemma NoDup_snoc {A} (l : list A) (x : A) :
  NoDup l -> ~ In x l -> NoDup (l ++ [x]).
Proof.
  induction 1 as [|y l Hy Hl IH]; intros Hx; simpl.
  - constructor; [intros []|constructor].
  - constructor.
    + intros Hin. apply in_app_or in Hin as [Hin|[<-|[]]].
      * exact (Hy Hin).
      * apply Hx. left. reflexivity.
    + apply IH. intros Hin. apply Hx. right. exact Hin.
Qed.

Lemma mem_false_not_In (x : str) (l : list str) :
  mem x l = false -> ~ In x l.
Proof.
  intros H Hin. apply mem_In in Hin. rewrite Hin in H. discriminate.
Qed.

Lemma distinct_grow (c : collection) (p : str) :
  distinct_paths c ->
  distinct_paths (mkCollection (collected_items c) (p :: processed_paths c)).
Proof.
  intros [Hnd Hincl]. split; [exact Hnd|].
  cbn [collected_items processed_paths]. intros x Hx. right. apply Hincl, Hx.
Qed.

Lemma distinct_add (c : collection) (p : str) (b : bool) :
  mem p (processed_paths c) = false ->
  distinct_paths c ->
  distinct_paths (mkCollection (collected_items c ++ [(p, b)])
                               (p :: processed_paths c)).
Proof.
  intros Hmem [Hnd Hincl]. apply mem_false_not_In in Hmem.
  cbn [distinct_paths collected_items processed_paths]. unfold distinct_paths.
  cbn [collected_items processed_paths]. rewrite map_app. simpl. split.
  - apply NoDup_snoc; [exact Hnd|]. intros Hin. apply Hmem, Hincl, Hin.
  - intros x Hx. apply in_app_or in Hx as [Hx|[<-|[]]].
    + right. apply Hincl, Hx.
    + left. reflexivity.
Qed.

Lemma add_dir_distinct (rel_root : str) (c : collection) (d : str) :
  distinct_paths c -> distinct_paths (add_dir rel_root c d).
Proof.
  intros H. unfold add_dir.
  destruct (mem (rel_join rel_root d) (processed_paths c)) eqn:Hm; [exact H|].
  apply distinct_add; assumption.
Qed.

Lemma add_file_distinct (w : worker) (rel_root : str) (c : collection)
  (f : str) :
  distinct_paths c -> distinct_paths (add_file w rel_root c f).
Proof.
  intros H. unfold add_file.
  destruct (mem (rel_join rel_root f) (processed_paths c)) eqn:Hm; [exact H|].
  repeat match goal with
         | |- context [if ?b then _ else _] => destruct b
         end; try (apply distinct_grow; exact H).
  apply distinct_add; assumption.
Qed.

Lemma fold_distinct {A} (f : collection -> A -> collection) (l : list A) :
  (forall c x, distinct_paths c -> distinct_paths (f c x)) ->
  forall c, distinct_paths c -> distinct_paths (fold_left f l c).
Proof.
  intros Hf. induction l as [|x l IH]; intros c Hc; [exact Hc|].
  simpl. apply IH, Hf, Hc.
Qed.

(** The traversal never collects a path twice. *)
Lemma walk_distinct (w : worker) (n : node) :
  forall rel_root c,
    distinct_paths c -> distinct_paths (walk w rel_root n c).
Proof.
  induction n as [f|dname children IH] using node_induction;
    intros rel_root c Hc; [exact Hc|].
  cbn [walk].
  assert (Hc1 : distinct_paths
                  (visit w rel_root (dir_names children)
                     (file_names children) c)).
  { unfold visit.
    apply fold_distinct; [intros; apply add_file_distinct; assumption|].
    apply fold_distinct; [intros; apply add_dir_distinct; assumption|].
    exact Hc. }
  revert Hc1.
  generalize (visit w rel_root (dir_names children) (file_names children) c).
  generalize (final_dirs w rel_root (dir_names children)).
  intros kept. induction IH as [|child l Hchild _ IHl]; intros c1 Hc1;
    [exact Hc1|].
  cbn [fold_left]. apply IHl.
  destruct child as [f|d sub]; [exact Hc1|].
  destruct (mem d kept); [apply Hchild, Hc1|exact Hc1].
Qed.

Lemma insert_item_perm (x : item) (l : list item) :
  Permutation (insert_item x l) (x :: l).
Proof.
  induction l as [|y l IH]; simpl; [apply Permutation_refl|].
  destruct (item_leb x y); [apply Permutation_refl|].
  apply perm_trans with (y :: x :: l); [apply perm_skip, IH|apply perm_swap].
Qed.

(** Sorting rearranges the items and nothing else. *)
Lemma sort_items_perm (l : list item) : Permutation (sort_items l) l.
Proof.
  unfold sort_items. induction l as [|x l IH]; simpl; [constructor|].
  apply perm_trans with (x :: fold_right insert_item [] l);
    [apply insert_item_perm|apply perm_skip, IH].
Qed.

Lemma collect_paths_distinct (w : worker) (root : node) :
  NoDup (map fst (collect w root)).
Proof.
  unfold collect.
  apply (Permutation_NoDup
           (l := map fst (collected_items
                            (walk w [] root (mkCollection [] []))))).
  - apply Permutation_map, Permutation_sym, sort_items_perm.
  - apply (walk_distinct w root [] (mkCollection [] [])).
    split; [constructor|intros x []].
Qed.

(** *** The order on paths *)

Lemma str_ltb_irrefl (a : str) : str_ltb a a = false.
Proof.
  induction a as [|x a IH]; [reflexivity|].
  simpl. rewrite N.ltb_irrefl. exact IH.
Qed.

Lemma str_ltb_asym (a b : str) : str_ltb a b = true -> str_ltb b a = false.
Proof.
  revert b. induction a as [|x a IH]; intros [|y b] H; try reflexivity;
    try discriminate.
  simpl in *.
  destruct (N.ltb_spec x y) as [Hxy|Hxy].
  - destruct (N.ltb_spec y x); [lia|reflexivity].
  - destruct (N.ltb_spec y x) as [Hyx|Hyx]; [discriminate|].
    apply IH, H.
Qed.

Lemma str_ltb_trans (a b c : str) :
  str_ltb a b = true -> str_ltb b c = true -> str_ltb a c = true.
Proof.
  revert b c. induction a as [|x a IH]; intros [|y b] [|z c] Hab Hbc;
    try reflexivity; try discriminate.
  simpl in *.
  destruct (N.ltb_spec x y) as [Hxy|Hxy];
    destruct (N.ltb_spec y z) as [Hyz|Hyz];
    destruct (N.ltb_spec x z) as [Hxz|Hxz]; try reflexivity; try lia.
  - destruct (N.ltb_spec z y); [discriminate|]. lia.
  - destruct (N.ltb_spec y x); [discriminate|]. lia.
  - destruct (N.ltb_spec y x); [discriminate|].
    destruct (N.ltb_spec z y); [discriminate|].
    destruct (N.ltb_spec z x); [lia|]. apply (IH b c); assumption.
Qed.

Lemma str_ltb_total (a b : str) :
  str_ltb a b = false -> str_ltb b a = false -> a = b.
Proof.
  revert b. induction a as [|x a IH]; intros [|y b] Hab Hba;
    try reflexivity; try discriminate.
  simpl in *.
  destruct (N.ltb_spec x y); [discriminate|].
  destruct (N.ltb_spec y x); [discriminate|].
  assert (x = y) by lia. subst y. f_equal. apply IH; assumption.
Qed.

(** A directory path is smaller than every path below it. *)
Lemma str_ltb_prefix (q p : str) (c : char) :
  startswith p (q ++ [c]) = true -> str_ltb q p = true.
Proof.
  revert p. induction q as [|x q IH]; intros [|y p] H; try discriminate.
  - reflexivity.
  - simpl in H. unfold startswith in H. fold startswith in H.
    apply andb_prop in H as [Hxy Hp].
    unfold char_eqb in Hxy. apply N.eqb_eq in Hxy. subst y.
    simpl. rewrite N.ltb_irrefl. apply IH, Hp.
Qed.

Lemma item_leb_total (a b : item) : item_leb a b = false -> item_leb b a = true.
Proof.
  unfold item_leb. destruct a as [pa ba], b as [pb bb]. simpl.
  destruct (str_ltb pa pb) eqn:Hab; [discriminate|].
  destruct (str_ltb pb pa) eqn:Hba; [reflexivity|].
  destruct ba, bb; simpl; intros H; try discriminate; reflexivity.
Qed.

Lemma item_leb_trans (a b c : item) :
  item_leb a b = true -> item_leb b c = true -> item_leb a c = true.
Proof.
  unfold item_leb. destruct a as [pa ba], b as [pb bb], c as [pc bc]. simpl.
  destruct (str_ltb pa pb) eqn:Hab.
  - intros _. destruct (str_ltb pb pc) eqn:Hbc.
    + intros _. rewrite (str_ltb_trans _ _ _ Hab Hbc). reflexivity.
    + destruct (str_ltb pc pb) eqn:Hcb; [discriminate|].
      pose proof (str_ltb_total _ _ Hbc Hcb). subst pc.
      rewrite Hab. reflexivity.
  - destruct (str_ltb pb pa) eqn:Hba; [discriminate|].
    pose proof (str_ltb_total _ _ Hab Hba). subst pb.
    intros Hb. destruct (str_ltb pa pc) eqn:Hac; [reflexivity|].
    destruct (str_ltb pc pa) eqn:Hca; [discriminate|].
    destruct ba, bb, bc; simpl in *; try discriminate; reflexivity.
Qed.

Lemma insert_item_sorted (x : item) (l : list item) :
  StronglySorted item_le l -> StronglySorted item_le (insert_item x l).
Proof.
  induction 1 as [|y l Hl IH Hy]; simpl.
  - constructor; [constructor|constructor].
  - destruct (item_leb x y) eqn:Hxy.
    + constructor; [constructor; assumption|].
      constructor; [exact Hxy|].
      eapply Forall_impl; [|exact Hy]. intros z Hz.
      exact (item_leb_trans x y z Hxy Hz).
    + constructor; [exact IH|].
      apply Forall_forall. intros z Hz.
      apply insert_item_In in Hz as [->|Hz].
      * exact (item_leb_total x y Hxy).
      * rewrite Forall_forall in Hy. apply Hy, Hz.
Qed.

Lemma sort_items_sorted (l : list item) : StronglySorted item_le (sort_items l).
Proof.
  unfold sort_items. induction l as [|x l IH]; simpl; [constructor|].
  apply insert_item_sorted, IH.
Qed.

Lemma strongly_sorted_split (l1 : list item) (a : item) (l2 : list item) :
  StronglySorted item_le (l1 ++ a :: l2) -> Forall (item_le a) l2.
Proof.
  induction l1 as [|x l1 IH]; simpl; intros H.
  - inversion H; subst. assumption.
  - inversion H; subst. apply IH. assumption.
Qed.

Lemma NoDup_split_head {A} (l1 : list A) (a : A) (l2 : list A) :
  NoDup (l1 ++ a :: l2) -> ~ In a l2.
Proof.
  intros H. apply NoDup_remove_2 in H. intros Hin. apply H.
  apply in_or_app. right. exact Hin.
Qed.

Lemma collect_increasing (w : worker) (root : node)
  (before : list item) (a : item) (after : list item) :
  collect w root = before ++ a :: after ->
  forall x, In x after -> str_ltb (fst a) (fst x) = true.
Proof.
  intros Hsplit x Hx.
  pose proof (sort_items_sorted
                (collected_items (walk w [] root (mkCollection [] []))))
    as Hsorted.
  fold (collect w root) in Hsorted. rewrite Hsplit in Hsorted.
  pose proof (strongly_sorted_split _ _ _ Hsorted) as Hle.
  rewrite Forall_forall in Hle. specialize (Hle x Hx).
  pose proof (collect_paths_distinct w root) as Hnd.
  rewrite Hsplit, map_app in Hnd. simpl in Hnd.
  apply NoDup_split_head in Hnd.
  unfold item_le, item_leb in Hle.
  destruct (str_ltb (fst a) (fst x)) eqn:Hax; [reflexivity|].
  destruct (str_ltb (fst x) (fst a)) eqn:Hxa; [discriminate|].
  exfalso. apply Hnd. rewrite (str_ltb_total _ _ Hax Hxa).
  apply in_map, Hx.
Qed.

(** The collected tree is in strictly increasing order of path: no path
    occurs twice, and every item has a smaller path than the items after
    it. *)
Theorem collected_tree_strictly_ordered (w : worker) (root : node)
  (before : list item) (a : item) (after : list item) :
  collect w root = before ++ a :: after ->
  forall x, In x after -> str_ltb (fst a) (fst x) = true.
Proof. exact (collect_increasing w root before a after). Qed.

Lemma collected_tree_strictly_ordered_witness :
  collect (Samples.default_worker false) Samples.project_tree
  = [(lit "a", true)] ++ (lit "a/b", true) :: [(lit "a/x.py", false)]
  /\ forall x,
       In x [(lit "a/x.py", false)] ->
       str_ltb (fst (lit "a/b", true)) (fst x) = true.
Proof.
  split; [reflexivity|].
  apply (collected_tree_strictly_ordered (Samples.default_worker false)
           Samples.project_tree [(lit "a", true)] (lit "a/b", true)
           [(lit "a/x.py", false)] eq_refl).
Defined.

(** In the collected tree, hence in the structure summary, a directory
    never comes after an entry that lies below it. *)
Theorem directory_precedes_its_content (w : worker) (root : node)
  (before : list item) (p : str) (b : bool) (after : list item) (q : str) :
  collect w root = before ++ (p, b) :: after ->
  startswith p (q ++ [SLASH]) = true ->
  forall b', ~ In (q, b') after.
Proof.
  intros Hsplit Hunder b' Hin.
  pose proof (collect_increasing w root before (p, b) after
                Hsplit (q, b') Hin) as Hlt.
  cbn [fst] in Hlt.
  pose proof (str_ltb_prefix q p SLASH Hunder) as Hqp.
  rewrite (str_ltb_asym q p Hqp) in Hlt. discriminate.
Qed.

Lemma directory_precedes_its_content_witness :
  collect (Samples.default_worker false) Samples.project_tree
  = [(lit "a", true)] ++ (lit "a/b", true) :: [(lit "a/x.py", false)]
  /\ startswith (lit "a/b") (lit "a" ++ [SLASH]) = true
  /\ forall b', ~ In (lit "a", b') [(lit "a/x.py", false)].
Proof.
  split; [reflexivity|]. split; [reflexivity|].
  apply (directory_precedes_its_content (Samples.default_worker false)
           Samples.project_tree [(lit "a", true)] (lit "a/b") true
           [(lit "a/x.py", false)] (lit "a") eq_refl eq_refl).
Defined.

End CollectorOrder.

(** ** The file count *)

Section FileCount.
Import PyStr PySeq Fnmatch Worker TreeInv Exclusion CollectVocab.
Local Open Scope Z_scope.

Lemma fold_count {A} (f : A -> bool) (l : list A) :
  forall z,
    fold_left (fun total x => if f x then total + 1 else total) l z
    = z + Z.of_nat (length (filter f l)).
Proof.
  induction l as [|x l IH]; intros z; simpl; [lia|].
  rewrite IH. destruct (f x); simpl length; lia.
Qed.

Lemma listed_names_ok (names : list str) :
  Forall (fun n => listed_name n = true) names ->
  Forall (fun n => name_ok n = true) names.
Proof.
  intros H. eapply Forall_impl; [|exact H].
  intros n Hn. apply (listed_name_inv n Hn).
Qed.

(** [_is_excluded] on a file that went through the checks of the file
    loop. *)
Lemma checked_file_not_excluded (w : worker) (top : str) (rnames : list str)
  (f : str) :
  Forall (fun n => listed_name n = true) rnames ->
  listed_name f = true ->
  mem f (exclude_files w) = false ->
  existsb (fun pattern => fnmatchcase f pattern) (exclude_files w) = false ->
  mem (lower (OsPath.splitext_ext f)) (exclude_extensions w) = false ->
  Ignore._is_excluded_by_gitignore (gitignore_patterns w)
    (rel_join (join [SLASH] rnames) f) false = false ->
  _is_excluded w (OsPath.join top f) (rel_join (join [SLASH] rnames) f) false
  = false.
Proof.
  intros Hnames Hf H1 H2 H3 H4.
  pose proof (listed_names_ok _ Hnames) as Hnames'.
  destruct (listed_name_inv f Hf) as [Hfok _].
  rewrite (rel_join_names rnames f Hnames' Hfok) in *.
  unfold _is_excluded.
  assert (Hne : rnames ++ [f] <> []) by (destruct rnames; discriminate).
  assert (Hall : Forall (fun n => listed_name n = true) (rnames ++ [f])).
  { apply Forall_app. split; [exact Hnames|].
    constructor; [exact Hf|constructor]. }
  rewrite (join_listed_not_dot (rnames ++ [f]) Hne Hall).
  assert (Hb : OsPath.basename (OsPath.join top f) = f).
  { apply (basename_join_abs top [f]); [discriminate|].
    constructor; [exact Hfok|constructor]. }
  rewrite Hb, H1, H2, H3, H4. cbn [negb andb]. rewrite andb_false_r.
  reflexivity.
Qed.

Lemma walk_children_counted (w : worker) (universe : list (str * str))
  (top : str) (rnames kept : list str) (l : list node) :
  Forall (fun x => listed_name x = true) rnames ->
  Forall (fun n => names_all listed_name n = true) l ->
  (forall d sub,
     In (Dir d sub) l ->
     incl (walked_files (OsPath.join top d)
             (rel_join (join [SLASH] rnames) d) (Dir d sub)) universe) ->
  Forall (walk_keeps_counted w) l ->
  forall c,
    files_counted w universe c ->
    files_counted w universe
      (fold_left
         (fun c child =>
            match child with
            | Dir d _ =>
                if mem d kept
                then walk w (rel_join (join [SLASH] rnames) d) child c
                else c
            | File _ => c
            end) l c).
Proof.
  intros Hnames Hok Hincl IH. revert Hok Hincl.
  induction IH as [|child l Hchild _ IHl]; intros Hok Hincl c Hc; [exact Hc|].
  inversion Hok as [|? ? Hn Hl]; subst.
  cbn [fold_left]. apply (IHl Hl).
  { intros d sub Hin. apply Hincl. right. exact Hin. }
  destruct child as [f|d sub]; [exact Hc|].
  destruct (mem d kept) eqn:Hk; [|exact Hc].
  cbn [names_all] in Hn. apply andb_prop in Hn as [Hd Hsub].
  pose proof (Hincl d sub (or_introl eq_refl)) as Hhere.
  destruct (listed_name_inv d Hd) as [Hdok _].
  rewrite (rel_join_names rnames d (listed_names_ok _ Hnames) Hdok) in *.
  apply (Hchild universe (OsPath.join top d) (rnames ++ [d]) c).
  - exact Hsub.
  - apply Forall_app. split; [exact Hnames|]. constructor; [exact Hd|constructor].
  - exact Hhere.
  - exact Hc.
Qed.

(** Every file the traversal collects is a file the unpruned walk meets and
    that [_is_excluded] lets pass. *)
Lemma walk_counted (w : worker) (n : node) : walk_keeps_counted w n.
Proof.
  induction n as [f|dname children IH] using node_induction;
    intros universe top rnames c Hok Hnames Hincl Hc.
  - exact Hc.
  - cbn [tree_all] in Hok. cbn [walk]. cbn [walked_files] in Hincl.
    apply (walk_children_counted w universe top rnames); try assumption.
    + apply Forall_forall. intros child Hin.
      rewrite forallb_forall in Hok. apply Hok, Hin.
    + intros d sub Hin x Hx. apply Hincl. apply in_or_app. right.
      apply in_flat_map. exists (Dir d sub). split; [exact Hin|exact Hx].
    + intros p Hp. unfold visit in Hp.
      apply add_file_items_checked in Hp
        as [Hp|(f & Hf & Heq & Hc1 & Hc2 & Hc3 & Hc4)].
      * apply add_dir_items in Hp as [Hp|(d & _ & Heq)];
          [exact (Hc p Hp)|discriminate Heq].
      * injection Heq as ->.
        exists (OsPath.join top f). split.
        -- apply Hincl. apply in_or_app. left.
           apply (in_map (fun file => (OsPath.join top file,
                                       rel_join (join [SLASH] rnames) file))).
           exact Hf.
        -- apply checked_file_not_excluded; try assumption.
           apply file_names_In in Hf. rewrite forallb_forall in Hok.
           apply (Hok (File f) Hf).
Qed.

Lemma NoDup_map_filter {A B} (f : A -> B) (g : A -> bool) (l : list A) :
  NoDup (map f l) -> NoDup (map f (filter g l)).
Proof.
  induction l as [|x l IH]; simpl; intros H; [constructor|].
  inversion H as [|? ? Hx Hl]; subst.
  destruct (g x); simpl; [|apply IH, Hl].
  constructor; [|apply IH, Hl].
  intros Hin. apply Hx. apply in_map_iff in Hin as (y & Hy & Hin).
  apply filter_In in Hin as [Hin _]. rewrite <- Hy. apply in_map, Hin.
Qed.

(** The file count never falls short: in a tree of listed names, the run
    collects at most as many files as [estimate_total_files] counts. *)
Theorem estimate_bounds_collected_files (w : worker) (root : node) :
  tree_all listed_name root = true ->
  Z.of_nat (length (filter is_file (collect w root)))
  <= estimate_total_files w root.
Proof.
  intros Hok. unfold estimate_total_files.
  rewrite (fold_count
             (fun pr => negb (_is_excluded w (fst pr) (snd pr) false))).
  rewrite Z.add_0_l. apply inj_le.
  set (universe := walked_files (root_dir w) [] root).
  set (counted := filter
                    (fun pr => negb (_is_excluded w (fst pr) (snd pr) false))
                    universe).
  assert (Hlen : (length (map fst (filter is_file (collect w root)))
                  <= length (map snd counted))%nat);
    [|rewrite !length_map in Hlen; exact Hlen].
  apply NoDup_incl_length.
  - apply NoDup_map_filter, collect_paths_distinct.
  - intros p Hp. apply in_map_iff in Hp as ([p' b] & Hfst & Hin).
    cbn [fst] in Hfst. subst p'.
    apply filter_In in Hin as [Hin Hfile].
    unfold is_file in Hfile. cbn [snd] in Hfile.
    destruct b; [discriminate|].
    unfold collect in Hin. apply (proj1 (sort_items_In _ _)) in Hin.
    destruct (walk_counted w root universe (root_dir w) []
                (mkCollection [] []) Hok (Forall_nil _)
                (incl_refl _) (fun p0 (H : In (p0, false) []) =>
                                 match H with end) p Hin)
      as (path & Hu & He).
    apply in_map_iff. exists (path, p). split; [reflexivity|].
    apply filter_In. split; [exact Hu|]. cbn [fst snd]. rewrite He.
    reflexivity.
Qed.

Lemma estimate_bounds_collected_files_witness :
  tree_all listed_name Samples.project_tree = true
  /\ Z.of_nat (length (filter is_file
                         (collect (Samples.default_worker false)
                            Samples.project_tree)))
     <= estimate_total_files (Samples.default_worker false)
          Samples.project_tree.
Proof.
  split; [reflexivity|].
  apply (estimate_bounds_collected_files (Samples.default_worker false)
           Samples.project_tree eq_refl).
Defined.

End FileCount.

(** ** Saving the results *)

Section SavedFiles.
Import PyStr PySeq Splitter SplitterInv Saving.
Local Open Scope Z_scope.

Lemma contains_char_app (c : char) (a b : str) :
  contains_char c (a ++ b) = contains_char c a || contains_char c b.
Proof. unfold contains_char. apply existsb_app. Qed.

Lemma head_part_basename (p : str) : head_part p ++ OsPath.basename p = p.
Proof.
  induction p as [|c p IH]; [reflexivity|]. simpl.
  destruct (contains_char SLASH p).
  - simpl. rewrite IH. reflexivity.
  - destruct (char_eqb c SLASH); reflexivity.
Qed.

Lemma head_part_app (a n : str) :
  contains_char SLASH n = false -> head_part (a ++ n) = head_part a.
Proof.
  intros Hn. induction a as [|c a IH].
  - simpl. pose proof (head_part_basename n) as H.
    rewrite (basename_no_slash n Hn) in H.
    rewrite <- (app_nil_l n) in H at 3. apply app_inv_tail in H. exact H.
  - simpl. rewrite contains_char_app, Hn, orb_false_r, IH. reflexivity.
Qed.

Lemma dirname_app (a n : str) :
  contains_char SLASH n = false -> dirname (a ++ n) = dirname a.
Proof. intros Hn. unfold dirname. rewrite (head_part_app a n Hn). reflexivity. Qed.


(** *** Stripping and suffixes *)

Lemma rstrip_by_snoc (f : char -> bool) (a : str) (c : char) :
  rstrip_by f (a ++ [c]) = if f c then rstrip_by f a else a ++ [c].
Proof.
  induction a as [|x a IH].
  - simpl. destruct (f c); reflexivity.
  - change (rstrip_by f ((x :: a) ++ [c]))
      with (match rstrip_by f (a ++ [c]) with
            | [] => if f x then [] else [x]
            | r => x :: r
            end).
    rewrite IH. destruct (f c); [reflexivity|].
    destruct a; reflexivity.
Qed.

Lemma endswith_char_snoc (a : str) (c d : char) :
  endswith_char (a ++ [c]) d = char_eqb c d.
Proof.
  induction a as [|x a IH]; [reflexivity|].
  simpl. destruct (a ++ [c]) eqn:Ha; [destruct a; discriminate|].
  exact IH.
Qed.

(** What is left of a right strip is empty or ends outside the stripped
    class. *)
Lemma rstrip_by_end (f : char -> bool) (s : str) :
  rstrip_by f s = []
  \/ exists a c, rstrip_by f s = a ++ [c] /\ f c = false.
Proof.
  induction s as [|c a IH] using rev_ind; [left; reflexivity|].
  rewrite rstrip_by_snoc. destruct (f c) eqn:Hc; [exact IH|].
  right. exists a, c. split; [reflexivity|exact Hc].
Qed.

Lemma rstrip_by_nil_all (f : char -> bool) (s : str) :
  rstrip_by f s = [] -> forallb f s = true.
Proof.
  induction s as [|c s IH]; [reflexivity|]. simpl.
  destruct (rstrip_by f s) eqn:Hs; [|discriminate].
  destruct (f c); [intros _; apply IH; reflexivity|discriminate].
Qed.

Lemma forallb_snoc {A} (f : A -> bool) (a : list A) (c : A) :
  forallb f (a ++ [c]) = forallb f a && f c.
Proof. rewrite forallb_app. simpl. rewrite andb_true_r. reflexivity. Qed.

(** The shape of a directory name: slashes only, or not ending with a
    slash. *)
Lemma dirname_shape (p : str) :
  forallb (char_eqb SLASH) (dirname p) = true
  \/ exists a c, dirname p = a ++ [c] /\ char_eqb SLASH c = false.
Proof.
  unfold dirname. generalize (head_part p) as hd. intros hd.
  destruct (forallb (char_eqb SLASH) hd) eqn:Hall.
  - rewrite andb_false_r. left. exact Hall.
  - rewrite andb_true_r. destruct hd as [|h t]; [discriminate|].
    change (nonempty (h :: t)) with true. cbv iota.
    destruct (rstrip_by_end (char_eqb SLASH) (h :: t)) as [Hnil|Hend].
    + apply rstrip_by_nil_all in Hnil. congruence.
    + right. exact Hend.
Qed.

Lemma head_part_slashes (d n : str) :
  d <> [] -> forallb (char_eqb SLASH) d = true ->
  contains_char SLASH n = false -> head_part (d ++ n) = d.
Proof.
  intros Hne Hall Hn. rewrite (head_part_app d n Hn). clear Hn n.
  induction d as [|c d IH]; [congruence|].
  simpl in Hall. apply andb_prop in Hall as [Hc Hd].
  simpl. destruct d as [|c' d'].
  - simpl. rewrite (char_eqb_sym c SLASH), Hc. reflexivity.
  - assert (Hs : contains_char SLASH (c' :: d') = true).
    { simpl in Hd. apply andb_prop in Hd as [Hc' _].
      unfold contains_char. simpl. rewrite Hc'. reflexivity. }
    rewrite Hs. rewrite IH; [reflexivity|discriminate|exact Hd].
Qed.

Lemma head_part_closed (a n : str) :
  contains_char SLASH n = false -> head_part ((a ++ [SLASH]) ++ n) = a ++ [SLASH].
Proof.
  intros Hn. rewrite (head_part_app _ n Hn).
  induction a as [|c a IH]; [reflexivity|].
  simpl. rewrite contains_char_app.
  replace (contains_char SLASH [SLASH]) with true by reflexivity.
  rewrite orb_true_r, IH. reflexivity.
Qed.

Lemma slash_free_not_rooted (n : str) :
  contains_char SLASH n = false -> startswith n [SLASH] = false.
Proof.
  destruct n as [|c n]; [reflexivity|]. unfold contains_char. simpl.
  intros H. apply orb_false_iff in H as [Hc _].
  unfold startswith. rewrite (char_eqb_sym c SLASH), Hc. reflexivity.
Qed.

(** A file joined to the directory of a path lies in that directory. *)
Lemma dirname_join_dirname (p n : str) :
  contains_char SLASH n = false ->
  dirname (OsPath.join (dirname p) n) = dirname p.
Proof.
  intros Hn. unfold OsPath.join. rewrite (slash_free_not_rooted n Hn).
  destruct (dirname p) as [|h t] eqn:Hd.
  - unfold dirname at 1. rewrite <- (app_nil_l n), (head_part_app [] n Hn).
    reflexivity.
  - rewrite <- Hd.
    destruct (dirname_shape p) as [Hall|(a & c & Ha & Hc)].
    + assert (Hne : dirname p <> []) by (rewrite Hd; discriminate).
      assert (Hend : endswith_char (dirname p) SLASH = true).
      { destruct (dirname p) as [|x r] using rev_ind; [congruence|].
        rewrite forallb_snoc in Hall. apply andb_prop in Hall as [_ Hx].
        rewrite endswith_char_snoc, char_eqb_sym. exact Hx. }
      rewrite Hend. unfold dirname at 1.
      rewrite (head_part_slashes _ n Hne Hall Hn), Hall.
      rewrite andb_false_r. reflexivity.
    + rewrite Ha, endswith_char_snoc, (char_eqb_sym c SLASH), Hc.
      rewrite app_assoc. unfold dirname at 1.
      rewrite (head_part_closed (a ++ [c]) n Hn).
      rewrite forallb_snoc, forallb_snoc, Hc, andb_false_r. simpl.
      rewrite andb_true_r.
      replace (nonempty ((a ++ [c]) ++ [SLASH])) with true
        by (destruct a; reflexivity).
      rewrite rstrip_by_snoc.
      replace (char_eqb SLASH SLASH) with true by reflexivity.
      rewrite rstrip_by_snoc, Hc. reflexivity.
Qed.


(** *** The extension and the stem of the output path *)

Lemma last_dot_suffix_suffix (s e : str) :
  OsPath.last_dot_suffix s = Some e -> exists r, s = r ++ e.
Proof.
  revert e. induction s as [|c s IH]; intros e; [discriminate|]. simpl.
  destruct (OsPath.last_dot_suffix s) as [e'|].
  - intros H. injection H as <-. destruct (IH e' eq_refl) as (r & Hr).
    exists (c :: r). rewrite Hr at 1. reflexivity.
  - destruct (char_eqb c OsPath.DOT); [|discriminate].
    intros H. injection H as <-. exists []. reflexivity.
Qed.

Lemma lstrip_by_suffix (f : char -> bool) (s : str) :
  exists r, s = r ++ lstrip_by f s.
Proof.
  induction s as [|c s (r & Hr)]; [exists []; reflexivity|]. simpl.
  destruct (f c); [|exists []; reflexivity].
  exists (c :: r). rewrite Hr at 1. reflexivity.
Qed.

Lemma splitext_ext_suffix (p : str) :
  exists r, OsPath.basename p = r ++ OsPath.splitext_ext p.
Proof.
  unfold OsPath.splitext_ext.
  destruct (lstrip_by_suffix (char_eqb OsPath.DOT) (OsPath.basename p))
    as (r1 & Hr1).
  destruct (OsPath.last_dot_suffix
              (lstrip_by (char_eqb OsPath.DOT) (OsPath.basename p)))
    as [e|] eqn:He.
  - apply last_dot_suffix_suffix in He as (r2 & Hr2).
    exists (r1 ++ r2). rewrite <- app_assoc, <- Hr2. exact Hr1.
  - exists (OsPath.basename p). rewrite app_nil_r. reflexivity.
Qed.

Lemma slice_drop_suffix {A} (r e : list A) :
  e <> [] -> slice (r ++ e) 0 (- len e) = r.
Proof.
  intros He. unfold slice, clamp, len. rewrite length_app.
  assert (Hpos : (0 < length e)%nat) by (destruct e; [congruence|simpl; lia]).
  destruct (Z.ltb_spec 0 0); [lia|].
  destruct (Z.ltb_spec (- Z.of_nat (length e)) 0); [|lia].
  rewrite Z.min_l by lia. rewrite Z.max_r by lia.
  replace (Z.to_nat (- Z.of_nat (length e)
                     + Z.of_nat (length r + length e) - 0))
    with (length r + 0)%nat by lia.
  simpl. rewrite firstn_app_2. simpl. apply app_nil_r.
Qed.

(** The output path once its extension is settled: a stem and a non-empty
    extension without slash, in the directory of the path typed. *)
Lemma settled_extension (p : str) :
  exists r e,
    (if negb (nonempty (OsPath.splitext_ext p)) then (TXT, p ++ TXT)
     else (OsPath.splitext_ext p, p)) = (e, r ++ e)
    /\ e <> []
    /\ contains_char SLASH e = false
    /\ dirname (r ++ e) = dirname p.
Proof.
  destruct (OsPath.splitext_ext p) as [|x ext] eqn:Hext.
  - exists p, TXT. simpl. split; [reflexivity|].
    split; [discriminate|]. split; [reflexivity|].
    apply dirname_app. reflexivity.
  - destruct (splitext_ext_suffix p) as (r & Hr). rewrite Hext in Hr.
    assert (Hp : p = (head_part p ++ r) ++ x :: ext).
    { rewrite <- app_assoc, <- Hr. symmetry. apply head_part_basename. }
    exists (head_part p ++ r), (x :: ext). simpl.
    split; [rewrite <- Hp; reflexivity|]. split; [discriminate|].
    split; [|rewrite <- Hp; reflexivity].
    pose proof (basename_has_no_slash p) as Hfree.
    rewrite Hr, contains_char_app in Hfree.
    apply orb_false_iff in Hfree as [_ Hfree]. exact Hfree.
Qed.

(** *** Numerals and numbering *)

Lemma lit_inj (a b : string) : lit a = lit b -> a = b.
Proof.
  unfold lit. intros H.
  rewrite <- (string_of_list_ascii_of_string a),
          <- (string_of_list_ascii_of_string b).
  f_equal. revert H.
  generalize (list_ascii_of_string a) (list_ascii_of_string b).
  induction l as [|x l IH]; intros [|y l']; simpl; intros H;
    try discriminate; [reflexivity|].
  injection H as Hxy Hl. f_equal; [|apply IH, Hl].
  rewrite <- (ascii_N_embedding x), <- (ascii_N_embedding y), Hxy.
  reflexivity.
Qed.

Lemma decimal_inj (i j : Z) : decimal i = decimal j -> i = j.
Proof.
  unfold decimal. intros H. apply lit_inj in H.
  apply DecimalZ.to_int_inj.
  pose proof (DecimalString.NilEmpty.isi (Z.to_int i)) as Hi.
  pose proof (DecimalString.NilEmpty.isi (Z.to_int j)) as Hj.
  rewrite H in Hi. congruence.
Qed.

Lemma uint_slash_free (d : Decimal.uint) :
  contains_char SLASH (lit (DecimalString.NilEmpty.string_of_uint d)) = false.
Proof. induction d; simpl; try exact IHd; reflexivity. Qed.

Lemma decimal_slash_free (i : Z) : contains_char SLASH (decimal i) = false.
Proof.
  unfold decimal. destruct (Z.to_int i) as [d|d]; simpl.
  - apply uint_slash_free.
  - apply uint_slash_free.
Qed.

Lemma enumerate_snd {A} (l : list A) (start : Z) :
  map snd (enumerate l start) = l.
Proof.
  revert start. induction l as [|x l IH]; intros start; [reflexivity|].
  simpl. rewrite IH. reflexivity.
Qed.

Lemma enumerate_from {A} (l : list A) (start i : Z) :
  In i (map fst (enumerate l start)) -> start <= i.
Proof.
  revert start. induction l as [|x l IH]; intros start; [intros []|].
  simpl. intros [<-|Hin]; [lia|]. apply IH in Hin. lia.
Qed.

Lemma enumerate_distinct {A} (l : list A) (start : Z) :
  NoDup (map fst (enumerate l start)).
Proof.
  revert start. induction l as [|x l IH]; intros start; [constructor|].
  simpl. constructor; [|apply IH].
  intros Hin. apply enumerate_from in Hin. lia.
Qed.


(** *** The files written *)

(** The chunk splitter always returns, and what it returns concatenates to
    its input. *)
Lemma split_parts_concat (x : str) (max_lines : Z) :
  exists parts,
    split_content_smart x max_lines = Some parts /\ concat parts = x.
Proof.
  unfold split_content_smart. destruct x as [|c s] eqn:Hx.
  - exists []. split; reflexivity.
  - rewrite <- Hx. rewrite split_with_fold.
    eexists. split; [reflexivity|].
    rewrite flat_finish, flat_fold. simpl.
    rewrite concat_filter_nonempty, concat_blocks_of.
    apply splitlines_concat.
Qed.

(** [handle_results] in terms of the stem and the extension of the output
    path. *)
Lemma handle_results_settled (output_path : str) :
  exists stem extension,
    extension <> []
    /\ contains_char SLASH extension = false
    /\ dirname (stem ++ extension) = dirname output_path
    /\ forall (structure_only is_chunked : bool) (spinbox_value : Z)
              (structure_summary combined_content : str),
         handle_results structure_only is_chunked spinbox_value output_path
           structure_summary combined_content
         = if negb (nonempty (strip (structure_summary ++ combined_content)))
              && negb structure_only
           then Some []
           else if is_chunked then
             match split_content_smart (structure_summary ++ combined_content)
                     spinbox_value with
             | None => None
             | Some [] => Some []
             | Some [part] => Some [(stem ++ extension, part)]
             | Some parts =>
                 Some (map (part_file_path structure_only
                              (dirname output_path) stem extension)
                         (enumerate parts 1))
             end
           else
             Some [(if structure_only
                    then stem ++ lit "-structure" ++ extension
                    else stem ++ extension,
                    structure_summary ++ combined_content)].
Proof.
  destruct (settled_extension output_path) as (r & e & Hset & He & Hfree & Hdir).
  exists r, e. split; [exact He|]. split; [exact Hfree|].
  split; [exact Hdir|]. intros structure_only is_chunked spinbox_value
    structure_summary combined_content.
  unfold handle_results. rewrite Hset.
  rewrite (slice_drop_suffix r e He), Hdir.
  destruct is_chunked; reflexivity.
Qed.

Lemma chunk_filename_slash_free (structure_only : bool) (stem : str) (i : Z)
  (extension : str) :
  contains_char SLASH extension = false ->
  contains_char SLASH
    (chunk_filename structure_only (OsPath.basename stem) i extension)
  = false.
Proof.
  intros He. unfold chunk_filename.
  destruct structure_only;
    rewrite !contains_char_app, basename_has_no_slash, decimal_slash_free, He;
    reflexivity.
Qed.

Lemma chunk_filename_inj (structure_only : bool) (base : str) (i j : Z)
  (extension : str) :
  chunk_filename structure_only base i extension
  = chunk_filename structure_only base j extension ->
  i = j.
Proof.
  unfold chunk_filename. intros H.
  destruct structure_only;
    apply app_inv_head in H; apply app_inv_head in H;
    apply app_inv_tail in H; apply decimal_inj, H.
Qed.

Lemma join_name_inj (d n1 n2 : str) :
  contains_char SLASH n1 = false -> contains_char SLASH n2 = false ->
  OsPath.join d n1 = OsPath.join d n2 -> n1 = n2.
Proof.
  intros H1 H2. unfold OsPath.join.
  rewrite (slash_free_not_rooted n1 H1), (slash_free_not_rooted n2 H2).
  destruct d as [|c d]; [intros H; exact H|].
  destruct (endswith_char (c :: d) SLASH); intros H.
  - apply app_inv_head in H. exact H.
  - apply app_inv_head in H. apply app_inv_head in H. exact H.
Qed.

Lemma NoDup_map_through {A B C} (f : A -> B) (g : A -> C) (l : list A) :
  (forall x y, f x = f y -> g x = g y) ->
  NoDup (map g l) -> NoDup (map f l).
Proof.
  intros Hfg. induction l as [|x l IH]; simpl; intros H; [constructor|].
  inversion H as [|? ? Hx Hl]; subst. constructor; [|apply IH, Hl].
  intros Hin. apply Hx. apply in_map_iff in Hin as (y & Hy & Hin).
  apply in_map_iff. exists y. split; [|exact Hin].
  apply Hfg. exact Hy.
Qed.

Lemma part_paths_distinct (structure_only : bool) (output_dir stem : str)
  (extension : str) (parts : list str) (start : Z) :
  contains_char SLASH extension = false ->
  NoDup (map fst (map (part_file_path structure_only output_dir stem
                         extension)
                    (enumerate parts start))).
Proof.
  intros Hfree. rewrite map_map.
  apply (NoDup_map_through _ fst); [|apply enumerate_distinct].
  intros x y Hxy. unfold part_file_path in Hxy. cbn [fst] in Hxy.
  apply join_name_inj in Hxy;
    [|apply chunk_filename_slash_free, Hfree
     |apply chunk_filename_slash_free, Hfree].
  apply chunk_filename_inj in Hxy. exact Hxy.
Qed.

(** Nothing of the content is lost on the way to the disk: the texts
    written, concatenated in the order of the writes, are the structure
    summary followed by the combined content; nothing is written only when
    that text is blank. *)
Theorem saved_files_hold_the_content (structure_only is_chunked : bool)
  (spinbox_value : Z) (output_path structure_summary combined_content : str) :
  exists writes,
    handle_results structure_only is_chunked spinbox_value output_path
      structure_summary combined_content = Some writes
    /\ (writes <> [] ->
        concat (map snd writes) = structure_summary ++ combined_content)
    /\ (writes = [] -> strip (structure_summary ++ combined_content) = []).
Proof.
  destruct (handle_results_settled output_path)
    as (stem & ext & _ & _ & _ & Heq).
  rewrite Heq. clear Heq.
  set (full := structure_summary ++ combined_content).
  destruct (negb (nonempty (strip full)) && negb structure_only) eqn:Hblank.
  - exists []. split; [reflexivity|]. split; [congruence|]. intros _.
    apply andb_prop in Hblank as [Hblank _].
    destruct (strip full); [reflexivity|discriminate].
  - destruct is_chunked.
    + destruct (split_parts_concat full spinbox_value) as (parts & Hs & Hc).
      rewrite Hs. destruct parts as [|a [|b r]].
      * exists []. split; [reflexivity|]. split; [congruence|].
        intros _. rewrite <- Hc. reflexivity.
      * eexists. split; [reflexivity|]. split; [|discriminate].
        intros _. exact Hc.
      * eexists. split; [reflexivity|]. split; [|discriminate].
        intros _. rewrite map_map.
        change (map (fun x => snd (part_file_path structure_only
                                     (dirname output_path) stem ext x))
                    (enumerate (a :: b :: r) 1))
          with (map snd (enumerate (a :: b :: r) 1)).
        rewrite enumerate_snd. exact Hc.
    + eexists. split; [reflexivity|]. split; [|discriminate].
      intros _. simpl. apply app_nil_r.
Qed.

(** No write overwrites an earlier one: the paths written are pairwise
    distinct. *)
Theorem saved_paths_are_distinct (structure_only is_chunked : bool)
  (spinbox_value : Z) (output_path structure_summary combined_content : str)
  (writes : list (str * str)) :
  handle_results structure_only is_chunked spinbox_value output_path
    structure_summary combined_content = Some writes ->
  NoDup (map fst writes).
Proof.
  destruct (handle_results_settled output_path)
    as (stem & ext & _ & Hfree & _ & Heq).
  rewrite Heq. clear Heq.
  assert (Hone : forall x : str * str, NoDup (map fst [x])).
  { intros x. constructor; [intros []|constructor]. }
  destruct (negb (nonempty (strip (structure_summary ++ combined_content)))
            && negb structure_only).
  { intros H. injection H as <-. constructor. }
  destruct is_chunked; [|intros H; injection H as <-; apply Hone].
  destruct (split_content_smart (structure_summary ++ combined_content)
              spinbox_value) as [[|a [|b r]]|]; intros H;
    [injection H as <-; constructor|injection H as <-; apply Hone| |discriminate].
  injection H as <-.
  exact (part_paths_distinct structure_only (dirname output_path) stem ext
           (a :: b :: r) 1 Hfree).
Qed.

Lemma saved_paths_are_distinct_witness :
  handle_results false true 2 (lit "out/all.md") [] Samples.two_records
  = Some SavingSamples.three_parts
  /\ NoDup (map fst SavingSamples.three_parts).
Proof.
  split; [reflexivity|].
  apply (saved_paths_are_distinct false true 2 (lit "out/all.md") []
           Samples.two_records SavingSamples.three_parts eq_refl).
Defined.

(** Chunking is invisible when the content fits: with content in full
    mode, a text of at most [spinbox_value] lines is saved in chunked mode
    exactly as in single-file mode, in one file at the output path. *)
Theorem fitting_content_saved_as_single_file (spinbox_value : Z)
  (output_path structure_summary combined_content : str) :
  line_count (structure_summary ++ combined_content) <= spinbox_value ->
  handle_results false true spinbox_value output_path structure_summary
    combined_content
  = handle_results false false spinbox_value output_path structure_summary
      combined_content.
Proof.
  intros Hfit.
  destruct (handle_results_settled output_path)
    as (stem & ext & _ & _ & _ & Heq).
  rewrite !Heq. clear Heq.
  set (full := structure_summary ++ combined_content) in *.
  destruct (nonempty (strip full)) eqn:Hblank; [|reflexivity].
  cbn [negb andb].
  assert (Hne : full <> []) by (intros H; rewrite H in Hblank; discriminate).
  rewrite (fitting_text_one_part full spinbox_value Hne Hfit). reflexivity.
Qed.

Lemma fitting_content_saved_as_single_file_witness :
  line_count ([] ++ Samples.two_records) <= 1000
  /\ handle_results false true 1000 (lit "out/all.md") [] Samples.two_records
     = handle_results false false 1000 (lit "out/all.md") []
         Samples.two_records.
Proof.
  assert (Hfit : line_count ([] ++ Samples.two_records) <= 1000)
    by (vm_compute; discriminate).
  split; [exact Hfit|].
  apply (fitting_content_saved_as_single_file 1000 (lit "out/all.md") []
           Samples.two_records Hfit).
Defined.

(** Every file is written in the directory of the output path, the one
    [run_analysis] checked beforehand: the path of each write has the
    directory name of the path typed. *)
Theorem saved_beside_output_path (structure_only is_chunked : bool)
  (spinbox_value : Z) (output_path structure_summary combined_content : str)
  (writes : list (str * str)) :
  handle_results structure_only is_chunked spinbox_value output_path
    structure_summary combined_content = Some writes ->
  forall path text,
    In (path, text) writes -> dirname path = dirname output_path.
Proof.
  destruct (handle_results_settled output_path)
    as (stem & ext & _ & Hfree & Hdir & Heq).
  rewrite Heq. clear Heq.
  assert (Hstruct : dirname (stem ++ lit "-structure" ++ ext)
                    = dirname output_path).
  { rewrite <- Hdir, !dirname_app; [reflexivity|exact Hfree|].
    rewrite contains_char_app, Hfree. reflexivity. }
  destruct (negb (nonempty (strip (structure_summary ++ combined_content)))
            && negb structure_only).
  { intros H. injection H as <-. intros path text []. }
  destruct is_chunked.
  - destruct (split_content_smart (structure_summary ++ combined_content)
                spinbox_value) as [parts|]; [|discriminate].
    assert (Hparts :
              forall path text,
                In (path, text)
                   (map (part_file_path structure_only (dirname output_path)
                           stem ext)
                      (enumerate parts 1)) ->
                dirname path = dirname output_path).
    { intros path text Hin. apply in_map_iff in Hin as (ip & Hip & _).
      unfold part_file_path in Hip. injection Hip as <- _.
      apply dirname_join_dirname, chunk_filename_slash_free, Hfree. }
    destruct parts as [|a [|b r]]; intros H; injection H as <-.
    + intros path text [].
    + intros path text [Hin|[]]. injection Hin as <- _. exact Hdir.
    + exact Hparts.
  - intros H. injection H as <-. intros path text [Hin|[]].
    injection Hin as <- _. destruct structure_only; [exact Hstruct|exact Hdir].
Qed.

Lemma saved_beside_output_path_witness :
  handle_results false true 2 (lit "out/all.md") [] Samples.two_records
  = Some SavingSamples.three_parts
  /\ forall path text,
       In (path, text) SavingSamples.three_parts ->
       dirname path = dirname (lit "out/all.md").
Proof.
  split; [reflexivity|].
  apply (saved_beside_output_path false true 2 (lit "out/all.md") []
           Samples.two_records SavingSamples.three_parts eq_refl).
Defined.

End SavedFiles.

(** ** The exclusion lists of the window *)

Section ExclusionLists.
Import PyStr PySeq Fnmatch Worker TreeInv Exclusion CollectVocab Analyzer.







Lemma rstrip_by_prefix (f : char -> bool) (s : str) :
  exists r, s = rstrip_by f s ++ r.
Proof.
  induction s as [|c a (r & Hr)] using rev_ind; [exists []; reflexivity|].
  rewrite rstrip_by_snoc. destruct (f c).
  - exists (r ++ [c]). rewrite app_assoc, <- Hr. reflexivity.
  - exists []. rewrite app_nil_r. reflexivity.
Qed.

Lemma rstrip_by_idem (f : char -> bool) (s : str) :
  rstrip_by f (rstrip_by f s) = rstrip_by f s.
Proof.
  destruct (rstrip_by_end f s) as [->|(a & c & -> & Hc)]; [reflexivity|].
  rewrite rstrip_by_snoc, Hc. reflexivity.
Qed.

Lemma strip_idem (s : str) : strip (strip s) = strip s.
Proof.
  unfold strip.
  destruct (rstrip_by is_space (lstrip_by is_space s)) as [|c t] eqn:Hs;
    [reflexivity|].
  destruct (rstrip_by_head _ _ _ _ Hs) as (s' & Hl).
  pose proof (lstrip_by_head _ _ _ _ Hl) as Hc.
  cbn [lstrip_by]. rewrite Hc, <- Hs. apply rstrip_by_idem.
Qed.

Lemma strip_keeps_free (c : char) (s : str) :
  contains_char c s = false -> contains_char c (strip s) = false.
Proof.
  intros H. unfold strip.
  destruct (lstrip_by_suffix is_space s) as (r1 & H1).
  destruct (rstrip_by_prefix is_space (lstrip_by is_space s)) as (r2 & H2).
  rewrite H1, H2, !contains_char_app in H.
  apply orb_false_iff in H as [_ H]. apply orb_false_iff in H as [H _].
  exact H.
Qed.

(** Blanks around a name and empty entries do not reach the worker: every
    name read from an entry is non-empty, has no blank around it and no
    comma in it. *)
Theorem parsed_names_are_plain (text n : str) :
  In n (stripped_names text) -> plain_name n = true.
Proof.
  unfold stripped_names. intros H.
  apply in_map_iff in H as (d & <- & Hd).
  apply filter_In in Hd as [Hin Hne].
  unfold plain_name. rewrite Hne, strip_idem.
  replace (str_eqb (strip d) (strip d)) with true
    by (symmetry; apply str_eqb_eq; reflexivity).
  pose proof (split_char_no_sep COMMA text) as Hfree.
  rewrite Forall_forall in Hfree.
  rewrite (strip_keeps_free COMMA d (Hfree d Hin)). reflexivity.
Qed.

Lemma parsed_names_are_plain_witness :
  In (lit "dist") (stripped_names (lit " node_modules , ,dist "))
  /\ plain_name (lit "dist") = true.
Proof.
  assert (H : In (lit "dist") (stripped_names (lit " node_modules , ,dist ")))
    by (right; left; reflexivity).
  split; [exact H|].
  apply (parsed_names_are_plain (lit " node_modules , ,dist ") (lit "dist") H).
Defined.




End ExclusionLists.

(** ** Completeness of the tree collector *)

Section CollectorComplete.
Import PyStr PySeq Fnmatch Worker TreeInv Exclusion CollectVocab TreeEntries.


(** *** The collected items only grow *)






(** *** What the traversal records as processed *)













(** *** What the traversal collects *)




















End CollectorComplete.
